(** * Recursive Distill: the analysis scripts of [coherence.scripts.js]

    A shallow embedding of the four scripts bundled in
    [src/coherence.scripts.js] (coherence-check.js, attribution-map.js,
    residue-analysis.js and coherence-report.js) and the properties of
    the specification that concern them.

    Conventions of the embedding:
    - a JavaScript string is a [string] of 8-bit characters; the texts
      the properties talk about are ASCII, where a UTF-16 code unit and
      an [ascii] coincide;
    - an array is a [list]; in-place mutation ([push], [sort], field
      assignment) is explicit state passing;
    - a [try { ... } catch] block is a computation in the [result]
      monad, the handler being a [match] on its outcome;
    - the sub-factor scores are finite doubles built from counts with
      [+], [*], [/], [Math.min] and [Math.max]; they are embedded as
      exact rationals [Q].  The overall score takes a fourth root and
      is embedded as a real number.  The density of the attribution
      graph comes out of a division that is not guarded, so it is
      embedded in [JS.number], which keeps the signed zeros, the
      infinities and NaN of IEEE 754 apart.

    The bundle is not the four scripts word for word, and two of them
    do not parse as they stand in it:
    - the object literal that [analyzeTopicDrift] returns has its
      [score] property on two lines, with a comment of the bundle
      between them and no comma (lines 1010 to 1013).  The property is
      read once here.  Until the repeated line is taken out Node
      rejects coherence-check.js with a SyntaxError before any
      function runs, so that what is proved of [checkCoherence] and of
      the functions it calls is proved of the script with that line
      taken out;
    - [analyzeIssueResidue] breaks off inside its loop (lines 1932 to
      1941), where [parseResidueFromIssue] begins.  The function is
      left out, and residue-analysis.js is embedded function by
      function: [analyzeResidue] stands for the calls of
      [addResidueInstance] the passes over content and pull requests
      make;
    - the text after line 2735 repeats the beginning of
      coherence-check.js and breaks off; it is left out. *)

From Stdlib Require Import List String Ascii Bool Arith ZArith QArith Qminmax.
From Stdlib Require Import Lia Lra Lqa Reals Permutation Sorted DecimalString.
From Stdlib Require Import Qabs Qround.
Import ListNotations.

Set Implicit Arguments.

(* ===================================================================== *)
(** * The JavaScript fragment the scripts rely on *)
(* ===================================================================== *)

Module JS.

Local Open Scope char_scope.
Local Open Scope nat_scope.

(** ** Exceptions *)

Inductive result (A : Type) : Type :=
| Ok (a : A)
| Throw (message : string).

Arguments Ok {A} a.
Arguments Throw {A} message.

Definition bind {A B : Type} (c : result A) (k : A -> result B) : result B :=
  match c with
  | Ok a => k a
  | Throw m => Throw m
  end.

Declare Scope js_scope.
Delimit Scope js_scope with js.
Notation "x <- c ;; k" := (bind c (fun x => k))
  (at level 61, c at next level, right associativity) : js_scope.

(** [for (const x of xs) { body }] where the body may throw: the loop
    stops at the first exception, which propagates. *)
Fixpoint forOf {A S : Type} (body : S -> A -> result S) (xs : list A) (s : S)
  : result S :=
  match xs with
  | [] => Ok s
  | x :: xs' => bind (body s x) (forOf body xs')
  end.

(** ** Numbers

    A double, with its special values kept apart: [Finite q] is the
    finite double of value [q] ([Finite 0] is +0), [NegZero] is -0.
    Finite results are exact: rounding is left out. *)

Inductive number : Type :=
| Finite (q : Q)
| NegZero
| PosInfinity
| NegInfinity
| NaN.

Definition ofNat (n : nat) : number := Finite (inject_Z (Z.of_nat n)).

Definition isNaN (x : number) : bool :=
  match x with NaN => true | _ => false end.

Definition isInfinite (x : number) : bool :=
  match x with PosInfinity | NegInfinity => true | _ => false end.

(** [Number.isFinite(x)] *)
Definition isFinite (x : number) : bool :=
  match x with Finite _ | NegZero => true | _ => false end.

Definition isZero (x : number) : bool :=
  match x with
  | Finite q => Qeq_bool q 0
  | NegZero => true
  | _ => false
  end.

(** The sign bit. *)
Definition negative (x : number) : bool :=
  match x with
  | Finite q => match Qcompare q 0 with Lt => true | _ => false end
  | NegZero | NegInfinity => true
  | _ => false
  end.

Definition value (x : number) : Q :=
  match x with Finite q => q | _ => 0%Q end.

Definition zero (neg : bool) : number := if neg then NegZero else Finite 0.
Definition infinity (neg : bool) : number := if neg then NegInfinity else PosInfinity.

(** [a * b] *)
Definition mul (a b : number) : number :=
  if isNaN a || isNaN b then NaN
  else
    let neg := xorb (negative a) (negative b) in
    if isInfinite a || isInfinite b then
      (if isZero a || isZero b then NaN else infinity neg)
    else if isZero a || isZero b then zero neg
    else Finite (value a * value b).

(** [a / b] *)
Definition div (a b : number) : number :=
  if isNaN a || isNaN b then NaN
  else
    let neg := xorb (negative a) (negative b) in
    if isInfinite a then (if isInfinite b then NaN else infinity neg)
    else if isInfinite b then zero neg
    else if isZero b then (if isZero a then NaN else infinity neg)
    else if isZero a then zero neg
    else Finite (value a / value b).

(** [a - b] *)
Definition sub (a b : number) : number :=
  if isNaN a || isNaN b then NaN
  else if isInfinite a then
    (if isInfinite b && Bool.eqb (negative a) (negative b) then NaN else a)
  else if isInfinite b then infinity (negb (negative b))
  else if Qeq_bool (value a) (value b) then
    zero (isZero a && negative a && negb (negative b))
  else Finite (value a - value b).

(** ** Characters *)

Definition code (c : ascii) : nat := nat_of_ascii c.

Definition isDigit (c : ascii) : bool := (48 <=? code c) && (code c <=? 57).
Definition isUpper (c : ascii) : bool := (65 <=? code c) && (code c <=? 90).
Definition isLower (c : ascii) : bool := (97 <=? code c) && (code c <=? 122).

(** The class [[a-zA-Z0-9]]. *)
Definition isAlnum (c : ascii) : bool := isLower c || isUpper c || isDigit c.

(** The class [\w], which decides where [\b] holds. *)
Definition isWordChar (c : ascii) : bool := isAlnum c || (code c =? 95).

(** The ASCII part of the class [\s]. *)
Definition isSpace (c : ascii) : bool :=
  (code c =? 32) || ((9 <=? code c) && (code c <=? 13)).

Definition toLower (c : ascii) : ascii :=
  if isUpper c then ascii_of_nat (code c + 32) else c.

Definition chars (s : string) : list ascii := list_ascii_of_string s.
Definition text (l : list ascii) : string := string_of_list_ascii l.

(** [s.toLowerCase()] *)
Definition toLowerCase (s : string) : string := text (map toLower (chars s)).

(** ** Regular expressions

    The constructs the scripts' patterns are written with.  [Chr p] is
    one character of a class, [Many p] is the greedy [[class]*],
    [Opt r] the greedy [r?] and [WordB] the assertion [\b]. *)

Inductive regex : Type :=
| Eps
| Chr (p : ascii -> bool)
| Seq (r1 r2 : regex)
| Alt (r1 r2 : regex)
| Opt (r : regex)
| Many (p : ascii -> bool)
| WordB.

(** The position of a backtracking matcher inside the subject: the
    character before the cursor (none at the start), what is left to
    read, and the index of the cursor. *)
Record cursor : Type := Cursor {
  before : option ascii;
  ahead : list ascii;
  index : nat
}.

Definition atWordBoundary (c : cursor) : bool :=
  let a := match before c with Some x => isWordChar x | None => false end in
  let b := match ahead c with x :: _ => isWordChar x | [] => false end in
  xorb a b.

(** Greedy [[class]*]: take as many characters as the class allows and
    give them back one by one while the rest of the pattern fails. *)
Fixpoint many (p : ascii -> bool) (k : cursor -> option nat)
    (b : option ascii) (rest : list ascii) (i : nat) : option nat :=
  match rest with
  | x :: rest' =>
      if p x then
        match many p k (Some x) rest' (S i) with
        | Some e => Some e
        | None => k (Cursor b rest i)
        end
      else k (Cursor b rest i)
  | [] => k (Cursor b rest i)
  end.

(** [matchAt r c k]: the end index of the first way (in backtracking
    order) of matching [r] at [c] that the continuation [k] accepts. *)
Fixpoint matchAt (r : regex) (c : cursor) (k : cursor -> option nat)
  : option nat :=
  match r with
  | Eps => k c
  | Chr p =>
      match ahead c with
      | x :: rest => if p x then k (Cursor (Some x) rest (S (index c))) else None
      | [] => None
      end
  | Seq r1 r2 => matchAt r1 c (fun c' => matchAt r2 c' k)
  | Alt r1 r2 =>
      match matchAt r1 c k with
      | Some e => Some e
      | None => matchAt r2 c k
      end
  | Opt r1 =>
      match matchAt r1 c k with
      | Some e => Some e
      | None => k c
      end
  | Many p => many p k (before c) (ahead c) (index c)
  | WordB => if atWordBoundary c then k c else None
  end.

Definition matchHere (r : regex) (c : cursor) : option nat :=
  matchAt r c (fun c' => Some (index c')).

(** The leftmost match starting at index [from] or later: its start and
    its end. *)
Fixpoint searchFrom (r : regex) (from : nat)
    (b : option ascii) (rest : list ascii) (i : nat) : option (nat * nat) :=
  let here :=
    if from <=? i then
      match matchHere r (Cursor b rest i) with
      | Some e => Some (i, e)
      | None => None
      end
    else None in
  match here with
  | Some m => Some m
  | None =>
      match rest with
      | x :: rest' => searchFrom r from (Some x) rest' (S i)
      | [] => None
      end
  end.

Definition search (r : regex) (from : nat) (s : string) : option (nat * nat) :=
  searchFrom r from None (chars s) 0.

(** [regex.test(s)] for a pattern without the [g] flag. *)
Definition test (r : regex) (s : string) : bool :=
  match search r 0 s with Some _ => true | None => false end.

(** [regex.test(s)] for a pattern with the [g] flag: the search starts
    at the [lastIndex] the regex object carries, and leaves the end of
    the match there, or 0 when there is none.  The result is the answer
    and the new [lastIndex]. *)
Definition testGlobal (r : regex) (lastIndex : nat) (s : string) : bool * nat :=
  if String.length s <? lastIndex then (false, 0)
  else
    match search r lastIndex s with
    | Some (_, e) => (true, e)
    | None => (false, 0)
    end.

(** The walk shared by [split] and [match] with a [g] pattern: the
    pieces of the subject between the successive non-overlapping
    leftmost matches.  [skip] counts the characters of the current
    match still to pass over, [piece] is the current piece, reversed.
    Both patterns used with it in the scripts match at least one
    character. *)
Fixpoint pieces (r : regex) (b : option ascii) (rest : list ascii) (i : nat)
    (skip : nat) (piece : list ascii) : list string :=
  match rest with
  | [] => [text (rev piece)]
  | x :: rest' =>
      match skip with
      | S n => pieces r (Some x) rest' (S i) n piece
      | O =>
          match matchHere r (Cursor b rest i) with
          | Some e =>
              if i <? e
              then text (rev piece) :: pieces r (Some x) rest' (S i) (e - i - 1) []
              else pieces r (Some x) rest' (S i) 0 (x :: piece)
          | None => pieces r (Some x) rest' (S i) 0 (x :: piece)
          end
      end
  end.

(** [s.split(regex)]. *)
Definition split (r : regex) (s : string) : list string :=
  pieces r None (chars s) 0 0 [].

(** [(s.match(regex) || []).length] for a pattern with the [g] flag:
    the matches are the gaps between the pieces. *)
Definition countMatches (r : regex) (s : string) : nat :=
  List.length (split r s) - 1.

(** Building patterns. *)

Definition isChar (c : ascii) : ascii -> bool := fun x => Ascii.eqb x c.
Definition isNot (c : ascii) : ascii -> bool := fun x => negb (Ascii.eqb x c).

(** A literal character under the [i] flag. *)
Definition isIgnoringCase (c : ascii) : ascii -> bool :=
  fun x => Ascii.eqb (toLower x) (toLower c).

Fixpoint lit (s : string) : regex :=
  match s with
  | EmptyString => Eps
  | String c s' => Seq (Chr (isChar c)) (lit s')
  end.

Fixpoint liti (s : string) : regex :=
  match s with
  | EmptyString => Eps
  | String c s' => Seq (Chr (isIgnoringCase c)) (liti s')
  end.

(** [[class]+] *)
Definition Many1 (p : ascii -> bool) : regex := Seq (Chr p) (Many p).

(** [(r1|r2|...)]; the empty alternation matches nothing. *)
Fixpoint oneOf (rs : list regex) : regex :=
  match rs with
  | [] => Chr (fun _ => false)
  | [r] => r
  | r :: rs' => Alt r (oneOf rs')
  end.

(** [s.split(separator)] for a non-empty string separator. *)
Definition splitOn (separator : string) (s : string) : list string :=
  split (lit separator) s.

(** [s.includes(t)] for a non-empty [t]. *)
Definition includes (s t : string) : bool := test (lit t) s.

(** [xs.indexOf(x)] on an array of strings; [None] stands for -1. *)
Fixpoint indexOf (xs : list string) (x : string) : option nat :=
  match xs with
  | [] => None
  | y :: ys =>
      if String.eqb y x then Some 0
      else match indexOf ys x with Some n => Some (S n) | None => None end
  end.


(** [xs.join(separator)] on an array of strings. *)
Fixpoint join (separator : string) (xs : list string) : string :=
  match xs with
  | [] => EmptyString
  | x :: rest =>
      match rest with
      | [] => x
      | _ :: _ => append x (append separator (join separator rest))
      end
  end.


(** ** Capture groups

    [many] and [matchAt] with a continuation that returns a result of
    any type: what a capture group holds is read off the cursors the
    continuations at its two ends receive. *)

Fixpoint manyWith {R : Type} (p : ascii -> bool) (k : cursor -> option R)
    (b : option ascii) (rest : list ascii) (i : nat) : option R :=
  match rest with
  | x :: rest' =>
      if p x then
        match manyWith p k (Some x) rest' (S i) with
        | Some e => Some e
        | None => k (Cursor b rest i)
        end
      else k (Cursor b rest i)
  | [] => k (Cursor b rest i)
  end.

Fixpoint matchWith {R : Type} (r : regex) (c : cursor) (k : cursor -> option R)
  : option R :=
  match r with
  | Eps => k c
  | Chr p =>
      match ahead c with
      | x :: rest => if p x then k (Cursor (Some x) rest (S (index c))) else None
      | [] => None
      end
  | Seq r1 r2 => matchWith r1 c (fun c' => matchWith r2 c' k)
  | Alt r1 r2 =>
      match matchWith r1 c k with
      | Some e => Some e
      | None => matchWith r2 c k
      end
  | Opt r1 =>
      match matchWith r1 c k with
      | Some e => Some e
      | None => k c
      end
  | Many p => manyWith p k (before c) (ahead c) (index c)
  | WordB => if atWordBoundary c then k c else None
  end.

(** The characters between the cursor where a group starts and the
    cursor where it ends. *)
Definition captured (from to : cursor) : string :=
  text (firstn (index to - index from) (ahead from)).

(** The ASCII part of the class [.] without the [s] flag: any character
    but a line terminator. *)
Definition isNotLineTerminator (c : ascii) : bool :=
  negb ((code c =? 10) || (code c =? 13)).

(** ** [parseInt(s, 10)]

    Leading white space is passed over, then a sign, then the digits up
    to the first character that is not one; [None] stands for NaN, the
    result when there is no digit. *)

Fixpoint dropWhile (p : ascii -> bool) (l : list ascii) : list ascii :=
  match l with
  | x :: rest => if p x then dropWhile p rest else l
  | [] => []
  end.

Fixpoint takeWhile (p : ascii -> bool) (l : list ascii) : list ascii :=
  match l with
  | x :: rest => if p x then x :: takeWhile p rest else []
  | [] => []
  end.

Definition digitsValue (digits : list ascii) : Z :=
  fold_left (fun v d => (v * 10 + Z.of_nat (code d - 48))%Z) digits 0%Z.

Definition parseInt (s : string) : option Z :=
  let trimmed := dropWhile isSpace (chars s) in
  let signed :=
    match trimmed with
    | x :: rest =>
        if Ascii.eqb x "-" then (true, rest)
        else if Ascii.eqb x "+" then (false, rest)
        else (false, trimmed)
    | [] => (false, trimmed)
    end in
  match takeWhile isDigit (snd signed) with
  | [] => None
  | digits => Some (if fst signed then (- digitsValue digits)%Z else digitsValue digits)
  end.


(** ** Objects used as tables of counts

    The loops [counts[key] = (counts[key] || 0) + 1] of the scripts
    start from the object literal [{}], which inherits the properties
    of [Object.prototype], and reading a key that names one of them
    gives that property, not [undefined].  For [__proto__] it is the
    prototype itself, and the assignment of the string the addition
    makes of it is ignored by the setter of [__proto__]: the key never
    gets into the table.  For the others it is a function, and the
    string the addition makes of it, the source text of the function
    followed by [1], is stored under the key; every further turn adds
    one more [1] to that string.  A table is the list of the own
    properties of the object in the order of their creation. *)

Definition inheritedFunctions : list string :=
  [ "constructor"; "__defineGetter__"; "__defineSetter__"; "hasOwnProperty";
    "__lookupGetter__"; "__lookupSetter__"; "isPrototypeOf";
    "propertyIsEnumerable"; "toString"; "valueOf"; "toLocaleString" ]%string.

(** What is stored under a key: a number, or the source text of the
    inherited function of that name followed by [ones] characters [1]. *)
Inductive tally : Type :=
| Count (n : nat)
| FunctionText (ones : nat).

(** [(v || 0) + 1] for a value [v] of the table. *)
Definition plusOne (v : tally) : tally :=
  match v with
  | Count n => Count (S n)
  | FunctionText ones => FunctionText (S ones)
  end.

(** [counts[key] = (counts[key] || 0) + 1] *)
Fixpoint increment (counts : list (string * tally)) (key : string)
  : list (string * tally) :=
  match counts with
  | [] =>
      if String.eqb key "__proto__" then []
      else if existsb (String.eqb key) inheritedFunctions then [(key, FunctionText 1)]
      else [(key, Count 1)]
  | (k, v) :: rest =>
      if String.eqb k key then (k, plusOne v) :: rest
      else (k, v) :: increment rest key
  end.

(** [Object.hasOwn(counts, key) ? counts[key] : undefined] *)
Fixpoint own (key : string) (counts : list (string * tally)) : option tally :=
  match counts with
  | [] => None
  | (k, v) :: rest => if String.eqb k key then Some v else own key rest
  end.

(** A key that names no property of [Object.prototype]. *)
Definition ordinaryKey (key : string) : bool :=
  negb (String.eqb key "__proto__" || existsb (String.eqb key) inheritedFunctions).

(** What a table that started empty holds under a key the loop has met
    [turns] times. *)
Definition afterTurns (key : string) (turns : nat) : option tally :=
  match turns with
  | O => None
  | S _ =>
      if String.eqb key "__proto__" then None
      else if existsb (String.eqb key) inheritedFunctions then Some (FunctionText turns)
      else Some (Count turns)
  end.

(** The sum of the numbers of a table. *)
Definition total (counts : list (string * tally)) : nat :=
  list_sum (map (fun e => match snd e with Count n => n | FunctionText _ => 0 end)
                counts).

End JS.

Import JS.
Local Open Scope string_scope.


(* ===================================================================== *)
(** * coherence-check.js *)
(* ===================================================================== *)

Module CoherenceCheck.

Local Open Scope Q_scope.

Definition num (n : nat) : Q := inject_Z (Z.of_nat n).

(** [Math.max(0, Math.min(1, score))] *)
Definition clamp01 (score : Q) : Q := Qmax 0 (Qmin 1 score).

(** ** What a run reads

    The front matter of a content file, as far as the script looks at
    it.  [scope] and [tags] are [None] when the field is absent or
    falsy, and the list of their entries otherwise (a single string
    counts as a one-entry list; an empty array is truthy). *)
Record frontMatter : Type := FrontMatter {
  title : option string;
  scope : option (list string);
  tags : option (list string)
}.

Record article : Type := Article {
  file : string;
  metadata : frontMatter;
  content : string
}.

Record issue : Type := Issue { issue_number : nat }.
Record comment : Type := Comment { comment_login : string }.
Record pull : Type := Pull { pull_number : nat; merged_at : bool }.

(** The repository, the platform and the text helpers as one run of the
    script observes them.  A platform or [git] call that rejects is a
    [Throw].  Times are the values of [new Date(...).getTime()].

    [derivedScopes], [scopePattern], [sectionTopics] and [mainTopics]
    stand for the parts of the bounded-integrity analysis that depend
    on the tokenizer of the [natural] package and on patterns compiled
    at run time from the text: the scope terms taken from the title
    and the introduction, the pattern made of a scope term, the topic
    list of every section of the main article and the topic list of
    its title and tags.  [scopePattern term] is [None] when
    [new RegExp(`\\b${term}\\b`, 'ig')] throws a SyntaxError, as it
    does for a term with a parenthesis or a bracket that is not closed
    or with [+] or [*] after another quantifier; else it tells of a
    text whether [text.match] of the pattern finds something.

    The calls of the file system ([glob], [existsSync],
    [writeFileSync]) are taken to succeed; [readFileSync] and the
    parsing of the front matter are inside a [try] of
    [parseArticleContents], which passes over the file. *)
Record repository : Type := Repository {
  owner : string;
  articles : list article;              (* parseArticleContents *)
  dataFiles : nat;                      (* glob data/**/*.*  *)
  hasDataReadme : bool;                 (* data/README.md exists *)
  codeFiles : nat;                      (* glob code/**/*.{py,R,js,ipynb} *)
  resultFiles : nat;                    (* glob content/**/*.{png,jpg,svg,csv} *)
  listOpenIssues : result (list issue);
  listComments : nat -> result (list comment);
  listClosedIssues : result (list issue);
  gitLogGrep : nat -> result string;    (* git log --grep="#n" --oneline *)
  listClosedPulls : result (list pull);
  listReviewComments : nat -> result (list Z);   (* created_at of each *)
  listCommits : nat -> result (list Z);          (* committer date of each *)
  gitLogSubjects : result string;       (* git log --pretty=format:"%s" *)
  derivedScopes : article -> list string;
  scopePattern : string -> option (string -> bool);
  sectionTopics : article -> list (list string);
  mainTopics : article -> list string
}.

(** ** Configuration *)

Definition thresholds_overall : R := (7 / 10)%R.

Definition weights_signal : R := 1%R.
Definition weights_feedback : R := 1%R.
Definition weights_bounded : R := 1%R.
Definition weights_elastic : R := 1%R.

(** ** Signal alignment *)

Local Open Scope char_scope.

(** [/\[\^[^\]]+\]/] *)
Definition citationRegex : regex :=
  Seq (Chr (isChar "[")) (Seq (Chr (isChar "^"))
    (Seq (Many1 (isNot "]")) (Chr (isChar "]")))).

Definition newline : ascii := "010".
Definition blankLine : string := String newline (String newline EmptyString).

Local Close Scope char_scope.

Record citationAnalysis : Type := CitationAnalysis {
  citations : nat;
  paragraphs : nat;
  density : Q;
  citation_score : Q
}.

Definition analyzeArticleCitations (articles : list article) : citationAnalysis :=
  let totalCitations :=
    fold_left (fun count a => (count + countMatches citationRegex (content a))%nat)
              articles 0%nat in
  let totalParagraphs :=
    fold_left (fun count a => (count + List.length (splitOn blankLine (content a)))%nat)
              articles 0%nat in
  let density :=
    if (0 <? totalParagraphs)%nat then num totalCitations / num totalParagraphs else 0 in
  let score := Qmin 1 (density / (1 # 2)) in
  {| citations := totalCitations;
     paragraphs := totalParagraphs;
     density := density;
     citation_score := clamp01 score |}.

(** The lexicon of [claimIndicators], each entry as the pattern it is. *)
Definition claimIndicators : list regex :=
  [ Seq (liti "show") (Opt (liti "s"));
    Seq (liti "demonstrate") (Opt (liti "s"));
    Seq (liti "prove") (Opt (liti "s"));
    liti "evidence";
    Seq (liti "find") (Seq (Opt (liti "ing")) (Opt (liti "s")));
    Seq (liti "suggest") (Opt (liti "s"));
    Seq (liti "indicate") (Opt (liti "s"));
    Seq (liti "reveal") (Opt (liti "s"));
    Seq (liti "establish") (Opt (Alt (liti "es") (liti "ed")));
    Seq (liti "confirm") (Opt (liti "s"));
    Seq (liti "conclude") (Opt (liti "s")) ].

(** [new RegExp(`\\b(${claimIndicators.join('|')})\\b`, 'ig')] *)
Definition claimRegex : regex := Seq WordB (Seq (oneOf claimIndicators) WordB).

(** [/\.\s+/] *)
Definition sentenceBreak : regex := Seq (Chr (isChar "."%char)) (Many1 isSpace).

(** The variables [findUnsupportedClaims] updates while it walks the
    sentences, with the [lastIndex] of the one [claimRegex] object. *)
Record claimCounters : Type := ClaimCounters {
  lastIndex : nat;
  totalClaims : nat;
  unsupportedCount : nat
}.

(** The body of [sentences.forEach(sentence => ...)]. *)
Definition countSentence (sentences : list string) (st : claimCounters)
    (sentence : string) : claimCounters :=
  let (isClaim, lastIndex') := testGlobal claimRegex (lastIndex st) sentence in
  if isClaim then
    let next :=
      match indexOf sentences sentence with
      | Some i => nth_error sentences (i + 1)
      | None => nth_error sentences 0
      end in
    let hasCitation :=
      test citationRegex sentence ||
      match next with
      | Some following => test citationRegex following
      | None => false
      end in
    {| lastIndex := lastIndex';
       totalClaims := S (totalClaims st);
       unsupportedCount :=
         if hasCitation then unsupportedCount st else S (unsupportedCount st) |}
  else
    {| lastIndex := lastIndex';
       totalClaims := totalClaims st;
       unsupportedCount := unsupportedCount st |}.

(** The body of [articles.forEach(article => ...)]. *)
Definition countArticle (st : claimCounters) (a : article) : claimCounters :=
  let sentences := split sentenceBreak (content a) in
  fold_left (countSentence sentences) sentences st.

Record unsupportedClaims : Type := UnsupportedClaims {
  claims_total : nat;
  claims_unsupported : nat;
  unsupportedRate : Q;
  claims_score : Q
}.

Definition findUnsupportedClaims (articles : list article) : unsupportedClaims :=
  let st := fold_left countArticle articles (ClaimCounters 0 0 0) in
  let unsupportedRate :=
    if (0 <? totalClaims st)%nat
    then num (unsupportedCount st) / num (totalClaims st) else 0 in
  let score := 1 - Qmin 1 (unsupportedRate * 2) in
  {| claims_total := totalClaims st;
     claims_unsupported := unsupportedCount st;
     unsupportedRate := unsupportedRate;
     claims_score := clamp01 score |}.

Definition analyzeDataIntegrity (w : repository) : Q :=
  let score :=
    (1 # 2) + (if (0 <? dataFiles w)%nat then 2 # 10 else 0)
            + (if hasDataReadme w then 2 # 10 else 0)
            + (if (0 <? codeFiles w)%nat then 1 # 10 else 0) in
  Qmin 1 score.

Definition evaluateCodeConsistency (w : repository) : Q :=
  let score :=
    (1 # 2) + (if (0 <? codeFiles w)%nat then 25 # 100 else 0)
            + (if (0 <? resultFiles w)%nat then 25 # 100 else 0) in
  Qmin 1 score.

(** The weighted average of [calculateSignalAlignment]. *)
Definition signalScore (citationScore claimsScore dataScore codeScore : Q) : Q :=
  citationScore * (3 # 10) + claimsScore * (3 # 10)
  + dataScore * (2 # 10) + codeScore * (2 # 10).

Definition calculateSignalAlignment (w : repository) : Q :=
  let citationAnalysis := analyzeArticleCitations (articles w) in
  let unsupportedClaims := findUnsupportedClaims (articles w) in
  let dataIntegrity := analyzeDataIntegrity w in
  let codeConsistency := evaluateCodeConsistency w in
  signalScore (citation_score citationAnalysis) (claims_score unsupportedClaims)
              dataIntegrity codeConsistency.

(** ** Feedback responsiveness *)

Local Open Scope js_scope.

Record openIssuesAnalysis : Type := OpenIssuesAnalysis {
  openIssueCount : nat;
  issuesWithResponses : nat;
  responseRate : Q;
  openIssues_score : Q
}.

Definition isAuthorComment (w : repository) (c : comment) : bool :=
  String.eqb (comment_login c) (owner w) || includes (comment_login c) "author".

(** The [try] block of [analyzeOpenIssues]. *)
Definition tryAnalyzeOpenIssues (w : repository) : result openIssuesAnalysis :=
  openIssues <- listOpenIssues w ;;
  issuesWithResponses <-
    forOf (fun count issue =>
             comments <- listComments w (issue_number issue) ;;
             let authorComments := filter (isAuthorComment w) comments in
             Ok (if (0 <? List.length authorComments)%nat then S count else count))
          openIssues 0%nat ;;
  let responseRate :=
    if (0 <? List.length openIssues)%nat
    then num issuesWithResponses / num (List.length openIssues) else 1 in
  let score := (1 # 2) + responseRate * (1 # 2) in
  Ok {| openIssueCount := List.length openIssues;
        issuesWithResponses := issuesWithResponses;
        responseRate := responseRate;
        openIssues_score := score |}.

Definition analyzeOpenIssues (w : repository) : openIssuesAnalysis :=
  match tryAnalyzeOpenIssues w with
  | Ok analysis => analysis
  | Throw _ =>
      {| openIssueCount := 0;
         issuesWithResponses := 0;
         responseRate := 1;
         openIssues_score := 1 # 2 |}
  end.

Record issueResolutionAnalysis : Type := IssueResolutionAnalysis {
  closedIssueCount : nat;
  issuesWithReferences : nat;
  resolutionRate : Q;
  issueResolution_score : Q
}.

(** [stdout.trim().length > 0] *)
Definition nonBlank (stdout : string) : bool :=
  existsb (fun c => negb (isSpace c)) (chars stdout).

(** The [try] block of [analyzeIssueResolution]; a failing [git log] is
    caught inside the loop and the issue is passed over. *)
Definition tryAnalyzeIssueResolution (w : repository)
  : result issueResolutionAnalysis :=
  closedIssues <- listClosedIssues w ;;
  issuesWithReferences <-
    forOf (fun count issue =>
             match gitLogGrep w (issue_number issue) with
             | Ok stdout => Ok (if nonBlank stdout then S count else count)
             | Throw _ => Ok count
             end)
          closedIssues 0%nat ;;
  let resolutionRate :=
    if (0 <? List.length closedIssues)%nat
    then num issuesWithReferences / num (List.length closedIssues) else 1 in
  let score := (1 # 2) + resolutionRate * (1 # 2) in
  Ok {| closedIssueCount := List.length closedIssues;
        issuesWithReferences := issuesWithReferences;
        resolutionRate := resolutionRate;
        issueResolution_score := score |}.

Definition analyzeIssueResolution (w : repository) : issueResolutionAnalysis :=
  match tryAnalyzeIssueResolution w with
  | Ok analysis => analysis
  | Throw _ =>
      {| closedIssueCount := 0;
         issuesWithReferences := 0;
         resolutionRate := 1;
         issueResolution_score := 1 # 2 |}
  end.

Record prReviewAnalysis : Type := PrReviewAnalysis {
  mergedPRCount : nat;
  prsWithReviewComments : nat;
  prsWithChangesAfterReview : nat;
  integrationRate : Q;
  prReview_score : Q
}.

(** [Math.min(...times)] of a non-empty array. *)
Definition earliest (times : list Z) : Z :=
  match times with
  | [] => 0%Z
  | t :: ts => fold_left Z.min ts t
  end.

(** The body of [for (const pr of mergedPRs)], on the pair of counters
    [(prsWithReviewComments, prsWithChangesAfterReview)]. *)
Definition reviewPull (w : repository) (counts : nat * nat) (pr : pull)
  : result (nat * nat) :=
  reviewComments <- listReviewComments w (pull_number pr) ;;
  if (0 <? List.length reviewComments)%nat then
    let earliestReviewDate := earliest reviewComments in
    commits <- listCommits w (pull_number pr) ;;
    let commitsAfterReview :=
      filter (fun date => (earliestReviewDate <? date)%Z) commits in
    Ok (S (fst counts),
        if (0 <? List.length commitsAfterReview)%nat
        then S (snd counts) else snd counts)
  else Ok counts.

(** The [try] block of [analyzePRReviews]. *)
Definition tryAnalyzePRReviews (w : repository) : result prReviewAnalysis :=
  closed <- listClosedPulls w ;;
  let mergedPRs := filter merged_at closed in
  counts <- forOf (reviewPull w) mergedPRs (0%nat, 0%nat) ;;
  let integrationRate :=
    if (0 <? fst counts)%nat then num (snd counts) / num (fst counts) else 1 in
  let score := (1 # 2) + integrationRate * (1 # 2) in
  Ok {| mergedPRCount := List.length mergedPRs;
        prsWithReviewComments := fst counts;
        prsWithChangesAfterReview := snd counts;
        integrationRate := integrationRate;
        prReview_score := score |}.

Definition analyzePRReviews (w : repository) : prReviewAnalysis :=
  match tryAnalyzePRReviews w with
  | Ok analysis => analysis
  | Throw _ =>
      {| mergedPRCount := 0;
         prsWithReviewComments := 0;
         prsWithChangesAfterReview := 0;
         integrationRate := 1;
         prReview_score := 1 # 2 |}
  end.

(** [/\b(address|fix|improve|update|respond|incorporate|feedback|review|suggestion|comment)\b/i] *)
Definition feedbackRegex : regex :=
  Seq WordB
    (Seq (oneOf (map liti
            ["address"; "fix"; "improve"; "update"; "respond"; "incorporate";
             "feedback"; "review"; "suggestion"; "comment"]))
         WordB).

Record contentHistory : Type := ContentHistory {
  totalCommits : nat;
  feedbackCommits : nat;
  revisionRate : Q;
  history_score : Q
}.

Definition analyzeContentHistory (w : repository) : contentHistory :=
  match gitLogSubjects w with
  | Ok commitMessages =>
      let messages := splitOn (String newline EmptyString) commitMessages in
      let feedbackCommits := filter (test feedbackRegex) messages in
      let totalCommits := List.length messages in
      let revisionRate :=
        if (0 <? totalCommits)%nat
        then num (List.length feedbackCommits) / num totalCommits else 0 in
      let score := Qmin 1 (revisionRate * (25 # 10)) in
      {| totalCommits := totalCommits;
         feedbackCommits := List.length feedbackCommits;
         revisionRate := revisionRate;
         history_score := clamp01 score |}
  | Throw _ =>
      {| totalCommits := 0;
         feedbackCommits := 0;
         revisionRate := 0;
         history_score := 1 # 2 |}
  end.

(** The weighted average of [calculateFeedbackResponsiveness]. *)
Definition feedbackScore
    (openIssuesScore issueResolutionScore prReviewScore historyScore : Q) : Q :=
  openIssuesScore * (2 # 10) + issueResolutionScore * (3 # 10)
  + prReviewScore * (3 # 10) + historyScore * (2 # 10).

Definition calculateFeedbackResponsiveness (w : repository) : Q :=
  let openIssuesAnalysis := analyzeOpenIssues w in
  let issueResolutionAnalysis := analyzeIssueResolution w in
  let prReviewAnalysis := analyzePRReviews w in
  let feedbackInHistory := analyzeContentHistory w in
  feedbackScore (openIssues_score openIssuesAnalysis)
                (issueResolution_score issueResolutionAnalysis)
                (prReview_score prReviewAnalysis)
                (history_score feedbackInHistory).

(** ** Bounded integrity *)

(** [[...new Set(xs)]]: the first occurrence of every string, in order. *)
Definition unique (xs : list string) : list string :=
  fold_left (fun seen x => if existsb (String.eqb x) seen then seen else (seen ++ [x])%list)
            xs [].

Definition declaredScopes (a : article) : list string :=
  (match scope (metadata a) with Some entries => entries | None => [] end
   ++ match tags (metadata a) with Some entries => entries | None => [] end)%list.

(** [uniqueScopes]: the declared scopes and tags, or without any the
    terms taken from the main article, in lower case and once each. *)
Definition uniqueScopes (w : repository) : list string :=
  let declared := flat_map declaredScopes (articles w) in
  let scopes :=
    match declared, articles w with
    | [], mainArticle :: _ => derivedScopes w mainArticle
    | _, _ => declared
    end in
  unique (map toLowerCase scopes).

(** [fullText.match(new RegExp(`\\b${term}\\b`, 'ig'))] finds
    something, for a term whose pattern compiles. *)
Definition mentions (w : repository) (term text : string) : bool :=
  match scopePattern w term with
  | Some found => found text
  | None => false
  end.

(** The [uniqueScopes.forEach] of [analyzeScopeIntegrity] as far as it
    throws: the first term whose pattern does not compile stops the
    function, which has no [try] around the loop, and the calculation
    of the bounded integrity with it. *)
Definition compileScopePatterns (w : repository) : result unit :=
  forOf (fun _ term =>
           match scopePattern w term with
           | Some _ => Ok tt
           | None => Throw ("Invalid regular expression: /\b" ++ term ++ "\b/")
           end)
        (uniqueScopes w) tt.

(** The score [analyzeScopeIntegrity] returns, when it returns:
    [compileScopePatterns] tells whether it does. *)
Definition analyzeScopeIntegrity (w : repository) : Q :=
  let fullText := String.concat " " (map content (articles w)) in
  let uniqueScopes := uniqueScopes w in
  let scopeMatchCount :=
    List.length (filter (fun term => mentions w term fullText) uniqueScopes) in
  let scopeCoverage :=
    if (0 <? List.length uniqueScopes)%nat
    then num scopeMatchCount / num (List.length uniqueScopes) else 0 in
  let hasDeclaredScope :=
    existsb (fun a => match scope (metadata a), tags (metadata a) with
                      | None, None => false
                      | _, _ => true
                      end) (articles w) in
  let scopeScore := (if hasDeclaredScope then 1 # 2 else 3 # 10) + scopeCoverage * (1 # 2) in
  Qmin 1 scopeScore.

(** The Jaccard index of two topic lists.  Two empty lists give 0/0,
    NaN in the script and 0 here; both fail the only test made on the
    result, [overlap >= 0.3]. *)
Definition calculateTopicOverlap (topics1 topics2 : list string) : Q :=
  let common := filter (fun topic => existsb (String.eqb topic) topics2) topics1 in
  let union := unique (topics1 ++ topics2)%list in
  num (List.length common) / num (List.length union).

Definition analyzeTopicDrift (w : repository) : Q :=
  match articles w with
  | [] => 1 # 2
  | mainArticle :: _ =>
      let sections := sectionTopics w mainArticle in
      let cohesive :=
        filter (fun topics =>
                  Qle_bool (3 # 10) (calculateTopicOverlap (mainTopics w mainArticle) topics))
               sections in
      let cohesionRate :=
        if (0 <? List.length sections)%nat
        then num (List.length cohesive) / num (List.length sections) else 0 in
      let driftScore := 1 - cohesionRate in
      let score := 1 - driftScore * (7 # 10) in
      clamp01 score
  end.

Definition evaluateTermConsistency : Q := 85 # 100.
Definition analyzeMethodBoundaries : Q := 9 # 10.

Definition calculateBoundedIntegrity (w : repository) : Q :=
  let scopeScore := analyzeScopeIntegrity w in
  let driftScore := analyzeTopicDrift w in
  let termScore := evaluateTermConsistency in
  let methodScore := analyzeMethodBoundaries in
  scopeScore * (3 # 10) + driftScore * (3 # 10)
  + termScore * (2 # 10) + methodScore * (2 # 10).

(** ** Elastic tolerance *)

Definition analyzeContradictions : Q := 8 # 10.
Definition analyzeMultiplePerspectives : Q := 7 # 10.
Definition evaluateUncertaintyRepresentation : Q := 8 # 10.
Definition analyzeLimitationAcknowledgment : Q := 85 # 100.

Definition calculateElasticTolerance : Q :=
  analyzeContradictions * (25 # 100) + analyzeMultiplePerspectives * (25 # 100)
  + evaluateUncertaintyRepresentation * (25 # 100)
  + analyzeLimitationAcknowledgment * (25 # 100).

(** ** The overall score *)

Local Open Scope R_scope.

(** [x ** y] for a base [0 <= x] and an exponent [0 <= y], the only
    arguments scores in [0, 1] and the configured weights produce. *)
Definition pow (x y : R) : R :=
  if Req_dec_T x 0 then (if Req_dec_T y 0 then 1 else 0) else Rpower x y.

Definition calculateOverallCoherence
    (signalAlignment feedbackResponsiveness boundedIntegrity elasticTolerance : R) : R :=
  let s := pow signalAlignment weights_signal in
  let f := pow feedbackResponsiveness weights_feedback in
  let b := pow boundedIntegrity weights_bounded in
  let l := pow elasticTolerance weights_elastic in
  let totalWeight := weights_signal + weights_feedback + weights_bounded + weights_elastic in
  pow (s * f * b * l) (1 / totalWeight).

Record coherenceReport : Type := CoherenceReport {
  overallScore : R;
  signalAlignment : Q;
  feedbackResponsiveness : Q;
  boundedIntegrity : Q;
  elasticTolerance : Q
}.

(** What a run leaves behind: the report written to
    [meta/coherence.json], if one was written, and the code passed to
    [process.exit]. *)
Record run : Type := Run {
  coherenceOutput : option coherenceReport;
  exitCode : nat
}.

(** The four calculations at the head of the [try] block of
    [checkCoherence], in order.  Each analysis of the platform has a
    [try] of its own; the exception that leaves the block is the one of
    [analyzeScopeIntegrity]. *)
Definition calculateComponents (w : repository) : result (Q * Q * Q * Q) :=
  let signalAlignment := calculateSignalAlignment w in
  let feedbackResponsiveness := calculateFeedbackResponsiveness w in
  bind (compileScopePatterns w) (fun _ =>
  let boundedIntegrity := calculateBoundedIntegrity w in
  let elasticTolerance := calculateElasticTolerance in
  Ok (signalAlignment, feedbackResponsiveness, boundedIntegrity, elasticTolerance)).

Definition checkCoherence (w : repository) : run :=
  match calculateComponents w with
  | Ok (signalAlignment, feedbackResponsiveness, boundedIntegrity, elasticTolerance) =>
      let overallScore :=
        calculateOverallCoherence (Q2R signalAlignment) (Q2R feedbackResponsiveness)
                                  (Q2R boundedIntegrity) (Q2R elasticTolerance) in
      let coherenceReport :=
        {| overallScore := overallScore;
           signalAlignment := signalAlignment;
           feedbackResponsiveness := feedbackResponsiveness;
           boundedIntegrity := boundedIntegrity;
           elasticTolerance := elasticTolerance |} in
      {| coherenceOutput := Some coherenceReport;
         exitCode := if Rlt_dec overallScore thresholds_overall then 1%nat else 0%nat |}
  | Throw _ =>
      (* catch (error) { console.error(...); process.exit(1); } *)
      {| coherenceOutput := None; exitCode := 1%nat |}
  end.

(** ** Notions the properties are stated with *)

Definition plain (text : string) : article :=
  {| file := "content/index.md";
     metadata := FrontMatter None None None;
     content := text |}.

(** [n] paragraphs, the first [k] of which end in a citation marker. *)
Fixpoint paragraphsCiting (n k : nat) : string :=
  match n with
  | O => ""
  | S O => match k with O => "Text" | S _ => "Text [^ref]" end
  | S n' =>
      match k with
      | O => "Text" ++ blankLine ++ paragraphsCiting n' 0
      | S k' => "Text [^ref]" ++ blankLine ++ paragraphsCiting n' k'
      end
  end.

(** The citation density, from the two totals. *)
Definition densityFrom (citations paragraphs : nat) : Q :=
  (if (0 <? paragraphs)%nat then num citations / num paragraphs else 0)%Q.

(** A repository with nothing in it: no content, data, code or result
    files, no issues and no pull requests on the platform, and no
    commit, so that [git log] exits with an error. *)
Definition emptyRepository : repository :=
  {| owner := "recursive-distill";
     articles := [];
     dataFiles := 0;
     hasDataReadme := false;
     codeFiles := 0;
     resultFiles := 0;
     listOpenIssues := Ok [];
     listComments := fun _ => Ok [];
     listClosedIssues := Ok [];
     gitLogGrep := fun _ => Throw "fatal: your current branch does not have any commits yet";
     listClosedPulls := Ok [];
     listReviewComments := fun _ => Ok [];
     listCommits := fun _ => Ok [];
     gitLogSubjects := Throw "fatal: your current branch does not have any commits yet";
     derivedScopes := fun _ => [];
     scopePattern := fun _ => Some (fun _ => false);
     sectionTopics := fun _ => [];
     mainTopics := fun _ => [] |}.

(** What makes a repository empty for the run. *)
Definition isEmptyRepository (w : repository) : Prop :=
  articles w = []
  /\ dataFiles w = 0%nat /\ hasDataReadme w = false
  /\ codeFiles w = 0%nat /\ resultFiles w = 0%nat
  /\ listOpenIssues w = Ok []
  /\ listClosedIssues w = Ok []
  /\ listClosedPulls w = Ok []
  /\ exists message, gitLogSubjects w = Throw message.

(** The empty repository with some content files added. *)
Definition withArticles (arts : list article) : repository :=
  {| owner := owner emptyRepository;
     articles := arts;
     dataFiles := 0;
     hasDataReadme := false;
     codeFiles := 0;
     resultFiles := 0;
     listOpenIssues := listOpenIssues emptyRepository;
     listComments := listComments emptyRepository;
     listClosedIssues := listClosedIssues emptyRepository;
     gitLogGrep := gitLogGrep emptyRepository;
     listClosedPulls := listClosedPulls emptyRepository;
     listReviewComments := listReviewComments emptyRepository;
     listCommits := listCommits emptyRepository;
     gitLogSubjects := gitLogSubjects emptyRepository;
     derivedScopes := derivedScopes emptyRepository;
     scopePattern := scopePattern emptyRepository;
     sectionTopics := fun _ => [[]];
     mainTopics := mainTopics emptyRepository |}.

(** The plain geometric mean of four numbers that are not negative:
    the fourth root of their product. *)
Definition geometricMean (a b c d : R) : R := sqrt (sqrt (a * b * c * d)).

(** The counting of claims as the comments of [findUnsupportedClaims]
    and the specification word it: a sentence is a claim when it
    contains a word of the lexicon, and a claim is supported when it,
    or the sentence right after it, has a citation marker.  The result
    is the number of claims and the number of unsupported ones. *)
Fixpoint claimsAmong (sentences : list string) : nat * nat :=
  match sentences with
  | [] => (0%nat, 0%nat)
  | sentence :: rest =>
      let (total, unsupported) := claimsAmong rest in
      if test claimRegex sentence then
        let supported :=
          test citationRegex sentence
          || match rest with
             | following :: _ => test citationRegex following
             | [] => false
             end in
        (S total, if supported then unsupported else S unsupported)
      else (total, unsupported)
  end.

Definition claimsAsSpecified (articles : list article) : nat * nat :=
  fold_left (fun counts a =>
               let (total, unsupported) := claimsAmong (split sentenceBreak (content a)) in
               ((fst counts + total)%nat, (snd counts + unsupported)%nat))
            articles (0%nat, 0%nat).

(** [1 - min(1, 2 * unsupportedRate)] *)
Definition scoreAsSpecified (articles : list article) : Q :=
  let (total, unsupported) := claimsAsSpecified articles in
  let unsupportedRate :=
    (if (0 <? total)%nat then num unsupported / num total else 0)%Q in
  (1 - Qmin 1 (2 * unsupportedRate))%Q.

(** Two claims, the first with a citation, the second without. *)
Definition twoClaims : article :=
  plain "The survey data shows growth [^1]. This proves nothing.".

(** Ten claim sentences; the citations of the second and the third
    support the first three, the other seven repeat the first. *)
Definition tenClaims : article :=
  plain ("This shows it. That proves it [^1]. Data confirm it [^2]. "
         ++ "This shows it. This shows it. This shows it. This shows it. "
         ++ "This shows it. This shows it. This shows it. ").







(** The citation markers and the paragraphs of a set of articles, as
    they stand in the texts: the matches of [citationRegex] and the
    blocks that blank lines separate. *)
Definition citationMarkers (arts : list article) : nat :=
  list_sum (map (fun a => countMatches citationRegex (content a)) arts).

Definition paragraphBlocks (arts : list article) : nat :=
  list_sum (map (fun a => List.length (splitOn blankLine (content a))) arts).

(** A repository whose main article has a title with a parenthesis
    that is not closed: the term taken from it makes no pattern. *)
Definition unbalancedTitle : repository :=
  {| owner := "recursive-distill";
     articles := [ {| file := "content/index.md";
                      metadata := FrontMatter (Some "Notes (draft") None None;
                      content := "Short notes." |} ];
     dataFiles := 0;
     hasDataReadme := false;
     codeFiles := 0;
     resultFiles := 0;
     listOpenIssues := Ok [];
     listComments := fun _ => Ok [];
     listClosedIssues := Ok [];
     gitLogGrep := fun _ => Ok "";
     listClosedPulls := Ok [];
     listReviewComments := fun _ => Ok [];
     listCommits := fun _ => Ok [];
     gitLogSubjects := Ok "Initial draft";
     derivedScopes := fun _ => ["notes"; "(draft"; "short"; "notes."; "short"; "notes."];
     scopePattern := fun term =>
                       if String.eqb term "(draft" then None
                       else Some (fun _ => String.eqb term "notes"
                                           || String.eqb term "short");
     sectionTopics := fun _ => [["short"; "notes"]];
     mainTopics := fun _ => ["notes"; "draft"] |}.

(** ** Recommendations and status *)

Definition thresholds_signal : Q := 7 # 10.
Definition thresholds_feedback : Q := 7 # 10.
Definition thresholds_bounded : Q := 7 # 10.
Definition thresholds_elastic : Q := 7 # 10.

(** What [generateRecommendations] reads of the object a component
    calculation returns: its [score] and the four entries of its
    [components], in the order they are declared. *)
Record analysis : Type := Analysis {
  score : Q;
  component1 : Q;
  component2 : Q;
  component3 : Q;
  component4 : Q
}.

(** [a < b] on scores. *)
Definition lessThan (a b : Q) : bool := negb (Qle_bool b a).

(** [if (condition) recommendations.push(message)], as the list pushed. *)
Definition pushIf (condition : bool) (message : string) : list string :=
  if condition then [message] else [].

Definition signalMessages : list string :=
  [ "Strengthen citation network by adding more references to support claims";
    "Address unsupported claims by providing evidence or clarifying as hypotheses";
    "Improve data integrity by including source data and validation steps";
    "Ensure code and results are consistent by updating analysis or clarifying discrepancies" ].

Definition feedbackMessages : list string :=
  [ "Address open issues more promptly to improve feedback engagement";
    "Improve issue resolution rate by incorporating feedback into revisions";
    "Better integrate PR review feedback into content updates";
    "Ensure content evolution reflects engagement with critical feedback" ].

Definition boundedMessages : list string :=
  [ "Ensure content stays within declared scope by focusing on core topics";
    "Reduce topic drift by maintaining consistent focus throughout the article";
    "Improve term consistency by using defined terminology throughout the article";
    "Maintain methodological boundaries by clarifying approach limitations" ].

Definition elasticMessages : list string :=
  [ "Better acknowledge and integrate contradictory evidence or perspectives";
    "Include multiple perspectives on controversial or complex topics";
    "More clearly represent uncertainty in findings and conclusions";
    "Acknowledge limitations of the approach, data, or conclusions" ].

(** One of the four blocks of [generateRecommendations]: nothing when
    the score reaches the threshold, else the message of every
    component below 0.7. *)
Definition recommendFor (threshold : Q) (a : analysis) (messages : list string)
  : list string :=
  if lessThan (score a) threshold then
    (pushIf (lessThan (component1 a) (7 # 10)) (nth 0 messages "")
     ++ pushIf (lessThan (component2 a) (7 # 10)) (nth 1 messages "")
     ++ pushIf (lessThan (component3 a) (7 # 10)) (nth 2 messages "")
     ++ pushIf (lessThan (component4 a) (7 # 10)) (nth 3 messages ""))%list
  else [].

Definition generateRecommendations
    (signalAlignment feedbackResponsiveness boundedIntegrity elasticTolerance : analysis)
  : list string :=
  (recommendFor thresholds_signal signalAlignment signalMessages
   ++ recommendFor thresholds_feedback feedbackResponsiveness feedbackMessages
   ++ recommendFor thresholds_bounded boundedIntegrity boundedMessages
   ++ recommendFor thresholds_elastic elasticTolerance elasticMessages)%list.

(** The objects the four component calculations return. *)
Definition signalAnalysis (w : repository) : analysis :=
  {| score := calculateSignalAlignment w;
     component1 := citation_score (analyzeArticleCitations (articles w));
     component2 := claims_score (findUnsupportedClaims (articles w));
     component3 := analyzeDataIntegrity w;
     component4 := evaluateCodeConsistency w |}.

Definition feedbackAnalysis (w : repository) : analysis :=
  {| score := calculateFeedbackResponsiveness w;
     component1 := openIssues_score (analyzeOpenIssues w);
     component2 := issueResolution_score (analyzeIssueResolution w);
     component3 := prReview_score (analyzePRReviews w);
     component4 := history_score (analyzeContentHistory w) |}.

Definition boundedAnalysis (w : repository) : analysis :=
  {| score := calculateBoundedIntegrity w;
     component1 := analyzeScopeIntegrity w;
     component2 := analyzeTopicDrift w;
     component3 := evaluateTermConsistency;
     component4 := analyzeMethodBoundaries |}.

Definition elasticAnalysis : analysis :=
  {| score := calculateElasticTolerance;
     component1 := analyzeContradictions;
     component2 := analyzeMultiplePerspectives;
     component3 := evaluateUncertaintyRepresentation;
     component4 := analyzeLimitationAcknowledgment |}.

(** The [recommendations] field of the report of a run. *)
Definition recommendations (w : repository) : list string :=
  generateRecommendations (signalAnalysis w) (feedbackAnalysis w)
                          (boundedAnalysis w) elasticAnalysis.

(** The three status symbols: a check mark, a warning sign, a cross. *)
Inductive statusSymbol : Type := CheckMark | WarningSign | Cross.

Definition getStatusSymbol (score : R) : statusSymbol :=
  if Rle_dec (85 / 100) score then CheckMark
  else if Rle_dec thresholds_overall score then WarningSign
  else Cross.

(** Two sample analyses, one above and one below the threshold. *)
Definition passing : analysis :=
  Analysis (8 # 10)%Q (9 # 10)%Q (6 # 10)%Q (8 # 10)%Q (9 # 10)%Q.
Definition failing : analysis :=
  Analysis (6 # 10)%Q (9 # 10)%Q (3 # 10)%Q (5 # 10)%Q (7 # 10)%Q.

(** The empty repository, with a [git log] that prints the subjects [out]. *)
Definition withGitLog (out : string) : repository :=
  {| owner := owner emptyRepository;
     articles := [];
     dataFiles := 0;
     hasDataReadme := false;
     codeFiles := 0;
     resultFiles := 0;
     listOpenIssues := listOpenIssues emptyRepository;
     listComments := listComments emptyRepository;
     listClosedIssues := listClosedIssues emptyRepository;
     gitLogGrep := gitLogGrep emptyRepository;
     listClosedPulls := listClosedPulls emptyRepository;
     listReviewComments := listReviewComments emptyRepository;
     listCommits := listCommits emptyRepository;
     gitLogSubjects := Ok out;
     derivedScopes := derivedScopes emptyRepository;
     scopePattern := scopePattern emptyRepository;
     sectionTopics := sectionTopics emptyRepository;
     mainTopics := mainTopics emptyRepository |}.

End CoherenceCheck.

(* ===================================================================== *)
(** * attribution-map.js *)
(* ===================================================================== *)

Module AttributionMap.

(** ** The graph *)

(** A node object; a field the object does not carry is [None]. *)
Record node : Type := Node {
  id : string;
  name : option string;
  email : option string;
  github : option string;
  avatarUrl : option string;
  path : option string;
  title : option string;
  type : string;
  contributions : option nat;
  contributionBreakdown : list (string * tally)
}.

(** A link object, without its free-form [metadata], which no test of
    the script reads. *)
Record link : Type := Link {
  source : string;
  target : string;
  link_type : string;
  weight : Q;
  timestamp : string
}.

(** [graph.metadata.metrics], without the wall-clock [lastUpdated]. *)
Record metrics : Type := Metrics {
  contributorCount : nat;
  totalContributions : nat;
  contentNodes : nat;
  density : number
}.

Record graph : Type := Graph {
  nodes : list node;
  links : list link;
  graph_metrics : option metrics
}.

(** [initializeAttributionGraph] when no graph has been saved yet. *)
Definition emptyGraph : graph := Graph [] [] None.

(** ** Helpers *)

Definition replaceNonAlnum (c : ascii) : ascii :=
  if isAlnum c then c else "_"%char.

(** [`${type}:${name.replace(/[^a-zA-Z0-9]/g, '_')}`] *)
Definition nodeId (type name : string) : string :=
  type ++ ":" ++ text (map replaceNonAlnum (chars name)).

Definition hasNode (g : graph) (i : string) : bool :=
  existsb (fun n => String.eqb (id n) i) (nodes g).

Definition sameLink (l l' : link) : bool :=
  String.eqb (source l) (source l') && String.eqb (target l) (target l')
  && String.eqb (link_type l) (link_type l')
  && String.eqb (timestamp l) (timestamp l').

Definition hasLink (g : graph) (l : link) : bool :=
  existsb (fun l' => sameLink l' l) (links g).

(** The argument of [addContributorNode]; [contributor_name] is falsy
    when it is the empty string. *)
Record contributor : Type := Contributor {
  contributor_name : string;
  contributor_email : option string;
  contributor_github : option string;
  contributor_avatarUrl : option string
}.

Record contentRef : Type := ContentRef {
  content_path : string;
  content_title : option string;
  content_type : string
}.

(** The state of a mapping step that may throw half-way: the graph as
    mutated so far, and whether an exception is propagating. *)
Inductive outcome : Type :=
| Done (g : graph)
| Failed (g : graph).

Definition graphOf (o : outcome) : graph :=
  match o with Done g | Failed g => g end.

Definition step : Type := graph -> outcome.

Definition andThen (p q : step) : step :=
  fun g => match p g with Done g' => q g' | Failed g' => Failed g' end.

Definition skip : step := Done.
Definition throw : step := Failed.

(** [for (const x of xs) { body(x) }] *)
Fixpoint forEach {A : Type} (body : A -> step) (xs : list A) : step :=
  match xs with
  | [] => skip
  | x :: xs' => andThen (body x) (forEach body xs')
  end.

(** [try { p } catch (error) { console.warn(...) }] *)
Definition tryCatch (p : step) : step := fun g => Done (graphOf (p g)).

(** [contributor.name || contributor.github]; [nodeId] throws a
    TypeError when both are missing. *)
Definition addContributorNode (c : contributor) : step :=
  fun g =>
    let key :=
      if String.eqb (contributor_name c) "" then contributor_github c
      else Some (contributor_name c) in
    match key with
    | None => Failed g
    | Some k =>
        let id := nodeId "contributor" k in
        if hasNode g id then Done g
        else Done {| nodes := nodes g ++
                       [ {| id := id;
                            name := Some (contributor_name c);
                            email := contributor_email c;
                            github := contributor_github c;
                            avatarUrl := contributor_avatarUrl c;
                            path := None;
                            title := None;
                            type := "contributor";
                            contributions := Some 0%nat;
                            contributionBreakdown := [] |} ];
                     links := links g;
                     graph_metrics := graph_metrics g |}
    end.

Definition addContentNode (c : contentRef) : step :=
  fun g =>
    let id := nodeId "content" (content_path c) in
    if hasNode g id then Done g
    else Done {| nodes := nodes g ++
                   [ {| id := id;
                        name := None;
                        email := None;
                        github := None;
                        avatarUrl := None;
                        path := Some (content_path c);
                        title := content_title c;
                        type := content_type c;
                        contributions := None;
                        contributionBreakdown := [] |} ];
                 links := links g;
                 graph_metrics := graph_metrics g |}.

Definition addLink (l : link) : step :=
  fun g =>
    if hasLink g l then Done g
    else Done {| nodes := nodes g;
                 links := links g ++ [l];
                 graph_metrics := graph_metrics g |}.

(** The extension of a path, lower-cased: [path.split('.').pop().toLowerCase()]. *)
Definition extension (path : string) : string :=
  toLowerCase (last (splitOn "." path) "").

Definition getFileType (path : string) : string :=
  let ext := extension path in
  let among := existsb (String.eqb ext) in
  if among ["md"; "markdown"] then "markdown"
  else if among ["js"; "jsx"; "ts"; "tsx"] then "javascript"
  else if among ["py"] then "python"
  else if among ["r"] then "r"
  else if among ["ipynb"] then "notebook"
  else if among ["json"; "yaml"; "yml"] then "data"
  else if among ["png"; "jpg"; "jpeg"; "gif"; "svg"] then "image"
  else if among ["css"; "scss"; "less"] then "style"
  else if among ["html"; "htm"] then "html"
  else "other".

(** ** What a run reads *)

Record fileStat : Type := FileStat {
  additions : nat;
  deletions : nat;
  file_path : string
}.

(** A commit as [parseGitLog] returns it.  [isoTime] is the value of
    [new Date(commit.timestamp * 1000).toISOString()], and [None] when
    that call throws a RangeError (a header whose time field is not a
    number). *)
Record commit : Type := Commit {
  author : string;
  commit_email : string;
  isoTime : option string;
  files : list fileStat
}.

Record user : Type := User { login : string; avatar_url : string }.

Record issue : Type := Issue {
  issue_number : nat;
  issue_user : user;
  issue_title : string;
  issue_created_at : string;
  pull_request : bool
}.

Record comment : Type := Comment {
  comment_user : user;
  comment_created_at : string
}.

Record review : Type := Review {
  review_user : user;
  submitted_at : string
}.

Record pullRequest : Type := PullRequest {
  pr_number : nat;
  pr_user : user;
  pr_title : string;
  pr_created_at : string
}.

(** The activity of the repository as one run fetches it: the commits
    [parseGitLog] makes of the output of [git log --numstat], and the
    answers of the platform.  A call that rejects is a [Throw]. *)
Record activity : Type := Activity {
  gitLog : result (list commit);
  fetchAllIssues : result (list issue);
  fetchIssueComments : nat -> result (list comment);
  fetchAllPullRequests : result (list pullRequest);
  fetchPRReviews : nat -> result (list review);
  fetchPRComments : nat -> result (list comment)
}.

(** [String(n)] *)
Definition decimal (n : nat) : string := NilZero.string_of_uint (Nat.to_uint n).

Definition num (n : nat) : Q := inject_Z (Z.of_nat n).

Definition platformContributor (u : user) : contributor :=
  {| contributor_name := login u;
     contributor_email := None;
     contributor_github := Some (login u);
     contributor_avatarUrl := Some (avatar_url u) |}.

(** ** The mapping passes *)

(** The body of [for (const file of commit.files)]. *)
Definition mapFile (c : commit) (f : fileStat) : step :=
  andThen
    (addContentNode {| content_path := file_path f;
                       content_title := None;
                       content_type := getFileType (file_path f) |})
    (match isoTime c with
     | None => throw
     | Some time =>
         addLink {| source := nodeId "contributor" (author c);
                    target := nodeId "content" (file_path f);
                    link_type := "code";
                    weight := num (additions f + deletions f);
                    timestamp := time |}
     end).

(** The body of [for (const commit of commits)]. *)
Definition mapCommit (c : commit) : step :=
  andThen
    (addContributorNode {| contributor_name := author c;
                           contributor_email := Some (commit_email c);
                           contributor_github := None;
                           contributor_avatarUrl := None |})
    (forEach (mapFile c) (files c)).

Definition mapCodeContributions (a : activity) : step :=
  tryCatch
    match gitLog a with
    | Ok commits => forEach mapCommit commits
    | Throw _ => throw
    end.

(** The body of both [for (const comment of comments)] loops. *)
Definition mapComment (contentPath : string) (c : comment) : step :=
  andThen
    (addContributorNode (platformContributor (comment_user c)))
    (addLink {| source := nodeId "contributor" (login (comment_user c));
                target := nodeId "content" contentPath;
                link_type := "comment";
                weight := 1 # 2;
                timestamp := comment_created_at c |}).

(** The body of [for (const issue of issues)]. *)
Definition mapIssue (a : activity) (i : issue) : step :=
  if pull_request i then skip
  else
    let contentPath := "issues/" ++ decimal (issue_number i) in
    andThen (addContributorNode (platformContributor (issue_user i)))
   (andThen (addContentNode {| content_path := contentPath;
                               content_title := Some (issue_title i);
                               content_type := "issue" |})
   (andThen (addLink {| source := nodeId "contributor" (login (issue_user i));
                        target := nodeId "content" contentPath;
                        link_type := "issue";
                        weight := 1;
                        timestamp := issue_created_at i |})
            match fetchIssueComments a (issue_number i) with
            | Ok comments => forEach (mapComment contentPath) comments
            | Throw _ => throw
            end)).

Definition mapIssueContributions (a : activity) : step :=
  tryCatch
    match fetchAllIssues a with
    | Ok issues => forEach (mapIssue a) issues
    | Throw _ => throw
    end.

(** The body of [for (const review of reviews)]. *)
Definition mapReview (contentPath : string) (r : review) : step :=
  andThen
    (addContributorNode (platformContributor (review_user r)))
    (addLink {| source := nodeId "contributor" (login (review_user r));
                target := nodeId "content" contentPath;
                link_type := "review";
                weight := 8 # 10;
                timestamp := submitted_at r |}).

(** The body of [for (const pr of prs)]. *)
Definition mapPR (a : activity) (pr : pullRequest) : step :=
  let contentPath := "pulls/" ++ decimal (pr_number pr) in
  andThen (addContributorNode (platformContributor (pr_user pr)))
 (andThen (addContentNode {| content_path := contentPath;
                             content_title := Some (pr_title pr);
                             content_type := "pull_request" |})
 (andThen (addLink {| source := nodeId "contributor" (login (pr_user pr));
                      target := nodeId "content" contentPath;
                      link_type := "pull_request";
                      weight := 1;
                      timestamp := pr_created_at pr |})
 (andThen match fetchPRReviews a (pr_number pr) with
          | Ok reviews => forEach (mapReview contentPath) reviews
          | Throw _ => throw
          end
          match fetchPRComments a (pr_number pr) with
          | Ok comments => forEach (mapComment contentPath) comments
          | Throw _ => throw
          end))).

Definition mapPRContributions (a : activity) : step :=
  tryCatch
    match fetchAllPullRequests a with
    | Ok prs => forEach (mapPR a) prs
    | Throw _ => throw
    end.

(** A placeholder in the script: it only logs. *)
Definition mapDiscussionContributions (a : activity) : step := tryCatch skip.

(** ** Metrics *)

Definition isContributor (n : node) : bool := String.eqb (type n) "contributor".

(** The body of [for (const node of contributorNodes)]. *)
Definition countContributions (ls : list link) (n : node) : node :=
  if isContributor n then
    let made := filter (fun l => String.eqb (source l) (id n)) ls in
    {| id := id n;
       name := name n;
       email := email n;
       github := github n;
       avatarUrl := avatarUrl n;
       path := path n;
       title := title n;
       type := type n;
       contributions := Some (List.length made);
       contributionBreakdown := fold_left increment (map link_type made) [] |}
  else n.

(** [links.length / (nodes.length * (nodes.length - 1) / 2)] *)
Definition graphDensity (nodeCount linkCount : nat) : number :=
  div (ofNat linkCount)
      (div (mul (ofNat nodeCount) (sub (ofNat nodeCount) (ofNat 1))) (ofNat 2)).

Definition calculateAttributionMetrics (g : graph) : graph :=
  {| nodes := map (countContributions (links g)) (nodes g);
     links := links g;
     graph_metrics :=
       Some {| contributorCount := List.length (filter isContributor (nodes g));
               totalContributions := List.length (links g);
               contentNodes :=
                 List.length (filter (fun n => negb (isContributor n)) (nodes g));
               density := graphDensity (List.length (nodes g)) (List.length (links g)) |} |}.

(** One run of the script on the graph [g] loaded from
    [meta/attribution.json]: the graph it saves. *)
Definition generateAttributionMap (a : activity) (g : graph) : graph :=
  let mapped :=
    andThen (mapCodeContributions a)
   (andThen (mapIssueContributions a)
   (andThen (mapPRContributions a)
            (mapDiscussionContributions a))) g in
  calculateAttributionMetrics (graphOf mapped).

(** ** Notions the properties are stated with *)

(** Two names that agree wherever either has a letter or a digit. *)
Definition agreeOnAlnum (n1 n2 : string) : Prop :=
  Forall2 (fun c d => c = d \/ (isAlnum c = false /\ isAlnum d = false))
          (chars n1) (chars n2).

(** A contributor known by a name only, as a commit author is. *)
Definition contributorNamed (n : string) : contributor :=
  {| contributor_name := n;
     contributor_email := None;
     contributor_github := None;
     contributor_avatarUrl := None |}.

(** The density [calculateAttributionMetrics] stores for a graph. *)
Definition densityOf (g : graph) : option number :=
  option_map density (graph_metrics (calculateAttributionMetrics g)).

(** A sample link and two sample nodes. *)
Definition someLink : link :=
  {| source := "contributor:ann";
     target := "content:index_md";
     link_type := "code";
     weight := 3;
     timestamp := "2024-01-01T00:00:00.000Z" |}.

Definition someNode : node :=
  {| id := "contributor:ann";
     name := Some "ann";
     email := None;
     github := None;
     avatarUrl := None;
     path := None;
     title := None;
     type := "contributor";
     contributions := Some 0%nat;
     contributionBreakdown := [] |}.

(** [covers g g']: every node identifier and every link key of [g] is
    also present in [g']. *)
Definition covers (g g' : graph) : Prop :=
  (forall i, hasNode g i = true -> hasNode g' i = true)
  /\ (forall l, hasLink g l = true -> hasLink g' l = true).

(** The outcome [o], with the graph [g] in the place of its graph. *)
Definition ending (o : outcome) (g : graph) : outcome :=
  match o with Done _ => Done g | Failed _ => Failed g end.

(** A step that only adds what is missing: its result covers the graph
    it started from, and on any graph that covers its result it ends
    the same way without a change. *)
Definition settles (p : step) : Prop :=
  (forall g, covers g (graphOf (p g)))
  /\ (forall g g', covers (graphOf (p g)) g' -> p g' = ending (p g) g').

(** The four mapping passes of [generateAttributionMap], in order. *)
Definition mapContributions (a : activity) : step :=
  andThen (mapCodeContributions a)
 (andThen (mapIssueContributions a)
 (andThen (mapPRContributions a)
          (mapDiscussionContributions a))).

(** Two commits of one author to one file on different days, an issue
    with a comment, and a pull request with a review. *)
Definition sampleActivity : activity :=
  {| gitLog :=
       Ok [ {| author := "Ann Lee"; commit_email := "ann@example.org";
               isoTime := Some "2024-03-02T10:00:00.000Z";
               files := [ {| additions := 4; deletions := 1;
                             file_path := "content/index.md" |} ] |};
            {| author := "Ann Lee"; commit_email := "ann@example.org";
               isoTime := Some "2024-03-01T09:00:00.000Z";
               files := [ {| additions := 120; deletions := 0;
                             file_path := "content/index.md" |} ] |} ];
     fetchAllIssues :=
       Ok [ {| issue_number := 1; issue_user := User "bob" "https://a.example/bob";
               issue_title := "Unclear claim"; issue_created_at := "2024-03-03T08:00:00Z";
               pull_request := false |} ];
     fetchIssueComments :=
       fun _ => Ok [ {| comment_user := User "ann-lee" "https://a.example/ann";
                        comment_created_at := "2024-03-03T09:00:00Z" |} ];
     fetchAllPullRequests :=
       Ok [ {| pr_number := 2; pr_user := User "bob" "https://a.example/bob";
               pr_title := "Clarify claim"; pr_created_at := "2024-03-04T08:00:00Z" |} ];
     fetchPRReviews :=
       fun _ => Ok [ {| review_user := User "ann-lee" "https://a.example/ann";
                        submitted_at := "2024-03-04T10:00:00Z" |} ];
     fetchPRComments := fun _ => Ok [] |}.

(** The quadruple a link is deduplicated on. *)
Definition linkKey (l : link) : string * string * string * string :=
  (source l, target l, link_type l, timestamp l).

(** No two nodes with one identifier, no two links with one key. *)
Definition noDuplicates (g : graph) : Prop :=
  NoDup (map id (nodes g)) /\ NoDup (map linkKey (links g)).

(** The key [addContributorNode] derives the identifier from. *)
Definition contributorKey (c : contributor) : option string :=
  if String.eqb (contributor_name c) "" then contributor_github c
  else Some (contributor_name c).

(** A step that keeps a graph free of duplicates. *)
Definition keeps (p : step) : Prop :=
  forall g, noDuplicates g -> noDuplicates (graphOf (p g)).

(** Every link joins two nodes of the graph. *)
Definition linksResolve (g : graph) : Prop :=
  forall l, In l (links g) ->
    hasNode g (source l) = true /\ hasNode g (target l) = true.

Definition someContent : node :=
  {| id := "content:index_md";
     name := None;
     email := None;
     github := None;
     avatarUrl := None;
     path := Some "index.md";
     title := None;
     type := "markdown";
     contributions := None;
     contributionBreakdown := [] |}.

(** ** Graphs the script builds *)

(** The graphs the script can have saved: the empty one it starts from,
    and the result of a run on a saved graph. *)
Inductive built : graph -> Prop :=
| built_empty : built emptyGraph
| built_run (a : activity) (g : graph) : built g -> built (generateAttributionMap a g).

(** Every node is a contributor with a contributor identifier or
    something else with a content identifier. *)
Definition nodesTyped (g : graph) : Prop :=
  forall n, In n (nodes g) ->
    (isContributor n = true /\ exists k, id n = nodeId "contributor" k)
    \/ (isContributor n = false /\ exists p, id n = nodeId "content" p).

(** Every link goes from a contributor identifier to a content
    identifier, both of nodes of the graph. *)
Definition linksTyped (g : graph) : Prop :=
  forall l, In l (links g) ->
    (exists k, source l = nodeId "contributor" k)
    /\ (exists p, target l = nodeId "content" p)
    /\ hasNode g (source l) = true
    /\ hasNode g (target l) = true.

Definition wellFormed (g : graph) : Prop :=
  noDuplicates g /\ nodesTyped g /\ linksTyped g.

(** The identifiers [is] are all identifiers of nodes of [g]. *)
Definition knows (ids : list string) (g : graph) : Prop :=
  Forall (fun i => hasNode g i = true) ids.

(** Started on a well-formed graph that knows the identifiers [pre],
    the step [p] leaves a well-formed graph that still knows them, and
    that also knows [added] when no exception leaves the step. *)
Definition ensures (pre : list string) (p : step) (added : list string) : Prop :=
  forall g, wellFormed g -> knows pre g ->
    wellFormed (graphOf (p g))
    /\ knows pre (graphOf (p g))
    /\ (forall g', p g = Done g' -> knows (added ++ pre)%list g').

(** [node.contributions || 0] *)
Definition contributionsOf (n : node) : nat :=
  match contributions n with Some k => k | None => 0%nat end.

(** [g'] has the nodes and links of [g], in the same order, followed by
    new ones. *)
Definition extends (g g' : graph) : Prop :=
  exists newNodes newLinks,
    nodes g' = (nodes g ++ newNodes)%list /\ links g' = (links g ++ newLinks)%list.


(** A step that only appends: the nodes and links it is given come
    first in its result, unchanged. *)
Definition grows (p : step) : Prop :=
  forall g, extends g (graphOf (p g)).


(** ** Reading the output of [git log --numstat]

    A field a header line does not have is [undefined], here [None];
    a number [parseInt] could not read is NaN, here [None] too. *)

Record logFile : Type := LogFile {
  log_additions : option Z;
  log_deletions : option Z;
  log_path : string
}.

Record logCommit : Type := LogCommit {
  log_hash : option string;
  log_author : option string;
  log_email : option string;
  log_timestamp : option Z;
  log_message : option string;
  log_files : list logFile
}.

(** [line.match(/^(\d+)\s+(\d+)\s+(.+)$/)] and the file made of its
    three groups.  The pattern starts with [^], so it is tried at the
    start of the line only, and ends with [$], the end of the line. *)
Definition statLine (line : string) : option logFile :=
  let start := Cursor None (chars line) 0 in
  matchWith (Many1 isDigit) start (fun c1 =>
  matchWith (Many1 isSpace) c1 (fun c2 =>
  matchWith (Many1 isDigit) c2 (fun c3 =>
  matchWith (Many1 isSpace) c3 (fun c4 =>
  matchWith (Many1 isNotLineTerminator) c4 (fun c5 =>
    match ahead c5 with
    | [] => Some {| log_additions := parseInt (captured start c1);
                    log_deletions := parseInt (captured c2 c3);
                    log_path := captured c4 c5 |}
    | _ :: _ => None
    end))))).

(** The header [hash|author|email|timestamp|message] of a commit. *)
Definition headerLine (line : string) : logCommit :=
  let parts := splitOn "|" line in
  {| log_hash := nth_error parts 0;
     log_author := nth_error parts 1;
     log_email := nth_error parts 2;
     log_timestamp :=
       match nth_error parts 3 with
       | Some timestamp => parseInt timestamp
       | None => None
       end;
     log_message := nth_error parts 4;
     log_files := [] |}.

Definition pushFile (c : logCommit) (f : logFile) : logCommit :=
  {| log_hash := log_hash c;
     log_author := log_author c;
     log_email := log_email c;
     log_timestamp := log_timestamp c;
     log_message := log_message c;
     log_files := (log_files c ++ [f])%list |}.

(** [if (currentCommit) commits.push(currentCommit)] *)
Definition pushCurrent (commits : list logCommit) (currentCommit : option logCommit)
  : list logCommit :=
  match currentCommit with
  | Some c => (commits ++ [c])%list
  | None => commits
  end.

(** One turn of the loop of [parseGitLog] on the commits pushed so far
    and the current commit. *)
Definition parseLine (state : list logCommit * option logCommit) (line : string)
  : list logCommit * option logCommit :=
  let (commits, currentCommit) := state in
  if includes line "|" then
    (pushCurrent commits currentCommit, Some (headerLine line))
  else if CoherenceCheck.nonBlank line then
    match currentCommit with
    | Some c =>
        match statLine line with
        | Some f => (commits, Some (pushFile c f))
        | None => state
        end
    | None => state
    end
  else state.

Definition parseGitLog (log : string) : list logCommit :=
  let (commits, currentCommit) :=
    fold_left parseLine (splitOn (String CoherenceCheck.newline EmptyString) log)
              ([], None) in
  pushCurrent commits currentCommit.


(** The commits a state of the loop stands for: those pushed and the
    current one. *)
Definition readSoFar (state : list logCommit * option logCommit) : list logCommit :=
  pushCurrent (fst state) (snd state).

Definition isHeader (line : string) : bool := includes line "|".

(** A line that is not a header and that the pattern of a file matches. *)
Definition isStat (line : string) : bool :=
  negb (isHeader line)
  && match statLine line with Some _ => true | None => false end.

Definition fileCount (commits : list logCommit) : nat :=
  list_sum (map (fun c => List.length (log_files c)) commits).

(** A file with two counts that are numbers, not negative, and a path
    that is not empty. *)
Definition countedFile (f : logFile) : Prop :=
  (exists a, log_additions f = Some a /\ (0 <= a)%Z)
  /\ (exists d, log_deletions f = Some d /\ (0 <= d)%Z)
  /\ log_path f <> "".


(** A commit as its header line gave it, before any file was pushed. *)
Definition withoutFiles (c : logCommit) : logCommit :=
  {| log_hash := log_hash c;
     log_author := log_author c;
     log_email := log_email c;
     log_timestamp := log_timestamp c;
     log_message := log_message c;
     log_files := [] |}.

(** A commit with a hash, an author and counted files. *)
Definition wellRead (c : logCommit) : Prop :=
  (exists h, log_hash c = Some h /\ ~ In "|"%char (chars h))
  /\ (exists a, log_author c = Some a /\ ~ In "|"%char (chars a))
  /\ Forall countedFile (log_files c).

End AttributionMap.

(* ===================================================================== *)
(** * residue-analysis.js *)
(* ===================================================================== *)

Module ResidueAnalysis.

Record residueInstance : Type := ResidueInstance {
  id : string;
  classification : string;
  description : string;
  section : string;
  failureMode : string;
  recursiveDepth : string;
  valence : string;
  detected : string;
  reporter : string;
  source : string;
  status : string
}.

Record catalog : Type := Catalog {
  instances : list residueInstance
}.

(** [initializeResidueCatalog] when no catalog has been saved yet. *)
Definition emptyCatalog : catalog := Catalog [].

(** The test of [catalog.instances.some(existing => ...)]. *)
Definition sameResidue (existing instance : residueInstance) : bool :=
  String.eqb (description existing) (description instance)
  && String.eqb (section existing) (section instance).

Definition addResidueInstance (c : catalog) (instance : residueInstance) : catalog :=
  let exists_ := existsb (fun existing => sameResidue existing instance) (instances c) in
  if negb exists_ then {| instances := (instances c ++ [instance])%list |} else c.

(** One run of the analysis, seen from the catalog: whatever the three
    passes over the content, the issues and the pull requests find,
    they hand it to [addResidueInstance] one instance after the other. *)
Definition analyzeResidue (found : list residueInstance) (c : catalog) : catalog :=
  fold_left addResidueInstance found c.

(** The pair an instance is deduplicated on. *)
Definition residueKey (i : residueInstance) : string * string :=
  (description i, section i).

(** ** Notions the properties are stated with *)

(** No two entries of the catalog have the same description and section. *)
Definition noDuplicates (c : catalog) : Prop :=
  NoDup (map residueKey (instances c)).

(** Sample instances: a detected hedge, the same
    hedge as a later run detects it, and a scope remark. *)
Definition hedge : residueInstance :=
  {| id := "residue-detected-1700000000000-k3x9a";
     classification := "Token Hesitation";
     description := "perhaps";
     section := "index.md";
     failureMode := "Explicit uncertainty";
     recursiveDepth := "Surface (linguistic/presentational)";
     valence := "Neutral (neither helps nor hinders)";
     detected := "2023-11-14T22:13:20.000Z";
     reporter := "system";
     source := "detection";
     status := "pending" |}.

Definition hedgeAgain : residueInstance :=
  {| id := "residue-detected-1700086400000-p7q2m";
     classification := "Token Hesitation";
     description := "perhaps";
     section := "index.md";
     failureMode := "Explicit uncertainty";
     recursiveDepth := "Surface (linguistic/presentational)";
     valence := "Neutral (neither helps nor hinders)";
     detected := "2023-11-15T22:13:20.000Z";
     reporter := "system";
     source := "detection";
     status := "pending" |}.

Definition scopeNote : residueInstance :=
  {| id := "residue-detected-1700000000000-b1c2d";
     classification := "Boundary Erosion";
     description := "beyond the scope";
     section := "index.md";
     failureMode := "Boundary acknowledgment";
     recursiveDepth := "Surface (linguistic/presentational)";
     valence := "Neutral (neither helps nor hinders)";
     detected := "2023-11-14T22:13:20.000Z";
     reporter := "system";
     source := "detection";
     status := "pending" |}.

(** ** Classification of a description *)

(** [config.residueTypes] *)
Definition ATTRIBUTION_VOID : string := "Attribution Void".
Definition TOKEN_HESITATION : string := "Token Hesitation".
Definition RECURSIVE_COLLAPSE : string := "Recursive Collapse".
Definition BOUNDARY_EROSION : string := "Boundary Erosion".
Definition PHASE_MISALIGNMENT : string := "Phase Misalignment".

(** The [keywords] object of [detectResidueType], key by key. *)
Definition keywords : list (string * list string) :=
  [ (ATTRIBUTION_VOID,
     ["source"; "attribution"; "citation"; "where"; "provenance"; "origin";
      "evidence"; "support"; "basis"; "missing reference"]);
    (TOKEN_HESITATION,
     ["uncertain"; "unclear"; "ambiguous"; "vague"; "confusing"; "hesitation";
      "imprecise"; "tension"; "ambivalent"; "wavering"]);
    (RECURSIVE_COLLAPSE,
     ["recursive"; "self-reference"; "circular"; "loop"; "regress"; "collapse";
      "depth"; "meta"; "self-aware"; "reflection"; "infinite"]);
    (BOUNDARY_EROSION,
     ["boundary"; "scope"; "limit"; "extent"; "border"; "edge"; "constraint";
      "domain"; "territory"; "definition"; "delineation"]);
    (PHASE_MISALIGNMENT,
     ["inconsistent"; "contradiction"; "misalignment"; "conflict"; "divergent";
      "phase"; "direction"; "vector"; "opposing"; "incoherent"]) ].

(** [new RegExp(`\\b${keyword}\\b`, 'i')]; the keywords are made of
    letters, a blank or a hyphen, which stand for themselves. *)
Definition keywordRegex (keyword : string) : regex :=
  Seq WordB (Seq (liti keyword) WordB).

(** The inner loop: the number of keywords of a type the description
    contains. *)
Definition typeScore (description : string) (typeKeywords : list string) : nat :=
  List.length (filter (fun keyword => test (keywordRegex keyword) description)
                      typeKeywords).

(** The [scores] object, in the order its keys are created. *)
Definition scores (description : string) : list (string * nat) :=
  map (fun entry => (fst entry, typeScore description (snd entry))) keywords.

(** [if (score > maxScore) { maxScore = score; maxType = type; }], on
    the pair [(maxType, maxScore)]. *)
Definition higher (best entry : string * nat) : string * nat :=
  if (snd best <? snd entry)%nat then entry else best.

Definition detectResidueType (description : string) : string :=
  fst (fold_left higher (scores description) (TOKEN_HESITATION, 0%nat)).

(** ** Metrics of the catalog *)

Definition digitValue (c : ascii) : N := N.of_nat (code c - 48).

(** The number a key denotes when it is an array index: a canonical
    decimal numeral not above 2^32 - 2. *)
Definition arrayIndex (key : string) : option N :=
  match chars key with
  | [] => None
  | c :: rest =>
      if forallb isDigit (c :: rest)
         && (negb (Ascii.eqb c "0"%char) || match rest with [] => true | _ => false end)
      then
        let v := fold_left (fun acc d => (acc * 10 + digitValue d)%N) (c :: rest) 0%N in
        if (v <=? 4294967294)%N then Some v else None
      else None
  end.

Fixpoint insertIndex {V : Type} (e : N * (string * V)) (sorted : list (N * (string * V)))
  : list (N * (string * V)) :=
  match sorted with
  | [] => [e]
  | x :: rest =>
      if (fst e <? fst x)%N then e :: x :: rest else x :: insertIndex e rest
  end.

(** [Object.entries(counts)]: the keys that are array indices first, in
    ascending order, then the other keys in the order of creation. *)
Definition objectEntries {V : Type} (counts : list (string * V)) : list (string * V) :=
  let indexed :=
    flat_map (fun e => match arrayIndex (fst e) with
                       | Some v => [(v, e)]
                       | None => []
                       end) counts in
  let named :=
    filter (fun e => match arrayIndex (fst e) with Some _ => false | None => true end)
           counts in
  (map snd (fold_left (fun sorted e => insertIndex e sorted) indexed []) ++ named)%list.

(** [if (count > maxCount) { maxCount = count; dominantClassification =
    classification; }]: a text compared with a number is never
    greater. *)
Definition higherCount (best : string * nat) (entry : string * tally) : string * nat :=
  match snd entry with
  | Count n => higher best (fst entry, n)
  | FunctionText _ => best
  end.

(** The metrics [calculateResidueMetrics] stores in [catalog.meta],
    without [recent] and [lastUpdated], which read the clock. *)
Record residueMetrics : Type := ResidueMetrics {
  count : nat;
  byClassification : list (string * tally);
  byStatus_active : nat;
  byStatus_resolved : nat;
  byStatus_pending : nat;
  byValence_positive : nat;
  byValence_neutral : nat;
  byValence_negative : nat;
  dominantClassification : string
}.

Definition calculateResidueMetrics (c : catalog) : residueMetrics :=
  let classificationCounts :=
    fold_left increment (map classification (instances c)) [] in
  let dominant :=
    fold_left higherCount (objectEntries classificationCounts) ("None", 0%nat) in
  let having (field : residueInstance -> string) (v : string) :=
    List.length (filter (fun i => String.eqb (field i) v) (instances c)) in
  {| count := List.length (instances c);
     byClassification := classificationCounts;
     byStatus_active := having status "active";
     byStatus_resolved := having status "resolved";
     byStatus_pending := having status "pending";
     byValence_positive := having valence "Positive (reveals important boundary)";
     byValence_neutral := having valence "Neutral (neither helps nor hinders)";
     byValence_negative := having valence "Negative (obscures understanding)";
     dominantClassification := fst dominant |}.


(** The loop of [getApproximateLineNumber], from the line of index [i]
    on; [None] stands for [null]. *)
Fixpoint findLine (lines : list string) (substring : string) (i : nat) : option nat :=
  match lines with
  | [] => None
  | line :: rest =>
      if includes line substring then Some (i + 1)%nat
      else findLine rest substring (S i)
  end.

Definition getApproximateLineNumber (text substring : string) : option nat :=
  findLine (splitOn (String CoherenceCheck.newline EmptyString) text) substring 0.


(** The number of instances of a catalog that carry a classification. *)
Definition instancesOf (c : catalog) (k : string) : nat :=
  List.length (filter (fun i => String.eqb (classification i) k) (instances c)).

(** An instance made of an issue, which can carry any text as its
    classification. *)
Definition reported (classification description : string) : residueInstance :=
  {| id := "residue-issue-12";
     classification := classification;
     description := description;
     section := "Introduction";
     failureMode := "Unknown";
     recursiveDepth := "Unknown";
     valence := "Neutral (neither helps nor hinders)";
     detected := "2023-11-14T22:13:20.000Z";
     reporter := "reader";
     source := "issue";
     status := "active" |}.

End ResidueAnalysis.

(* ===================================================================== *)
(** * coherence-report.js *)
(* ===================================================================== *)

Module CoherenceReport.

(** A snapshot of the history.  [timestamp] is the time value of the
    ISO string the entry carries, [new Date(entry.timestamp).getTime()];
    every entry is stamped by [new Date().toISOString()], so the value
    is a number. *)
Record entry : Type := Entry {
  timestamp : Z;
  overallScore : Q;
  components : Q * Q * Q * Q
}.

Record history : Type := History {
  entries : list entry;
  entryCount : option nat
}.

(** [loadCoherenceHistory] when no history has been saved yet. *)
Definition emptyHistory : history := History [] None.

(** The comparator [(a, b) => new Date(a.timestamp) - new Date(b.timestamp)]. *)
Definition compareEntries (a b : entry) : Z := (timestamp a - timestamp b)%Z.

(** [entries.sort(compare)]: the sort is stable, so with a comparator
    that orders by a number its result is the one insertion, after the
    elements that do not compare greater, builds. *)
Fixpoint insertSorted (compare : entry -> entry -> Z) (e : entry) (sorted : list entry)
  : list entry :=
  match sorted with
  | [] => [e]
  | x :: rest =>
      if (compare e x <? 0)%Z then e :: x :: rest
      else x :: insertSorted compare e rest
  end.

Definition sort (compare : entry -> entry -> Z) (l : list entry) : list entry :=
  fold_left (fun sorted e => insertSorted compare e sorted) l [].

Definition addToCoherenceHistory (h : history) (currentCoherence : entry) : history :=
  let pushed := (entries h ++ [currentCoherence])%list in
  let sorted := sort compareEntries pushed in
  {| entries := sorted;
     entryCount := Some (List.length sorted) |}.

(** Ascending by timestamp. *)
Definition ascending (l : list entry) : Prop :=
  Sorted (fun a b => (timestamp a <= timestamp b)%Z) l.

(** The two filters of [generatePeriodReport]. *)
Definition periodEntries (periodStart : Z) (h : history) : list entry :=
  filter (fun e => (periodStart <=? timestamp e)%Z) (entries h).

Definition previousEntries (periodStart : Z) (h : history) : list entry :=
  filter (fun e => (timestamp e <? periodStart)%Z) (entries h).


(** [l.length > 0 ? l[l.length - 1] : null], the way the report picks
    its previous and its current entry. *)
Definition lastOrNull (l : list entry) : option entry :=
  match l with
  | [] => None
  | x :: _ => Some (last l x)
  end.

(** [Object.entries(entry.components)]: the four components, in the
    order coherence-check.js writes them. *)
Definition componentEntries (e : entry) : list (string * Q) :=
  let '(s, f, b, l) := components e in
  [ ("signalAlignment", s); ("feedbackResponsiveness", f);
    ("boundedIntegrity", b); ("elasticTolerance", l) ].

(** [entry.components[component]] *)
Definition componentValue (e : entry) (component : string) : option Q :=
  option_map snd
    (find (fun kv => String.eqb (fst kv) component) (componentEntries e)).

Definition defaultRecommendations : list (string * list string) :=
  [ ("signalAlignment",
     [ "Add more citations to support claims";
       "Include evidence for empirical statements";
       "Link assertions to data or references";
       "Clarify which parts are speculation vs. established fact" ]);
    ("feedbackResponsiveness",
     [ "Address open issues more promptly";
       "Incorporate reviewer feedback more thoroughly";
       "Document changes made in response to feedback";
       "Implement suggestions from past reviews" ]);
    ("boundedIntegrity",
     [ "More clearly define scope boundaries";
       "Reduce topic drift in later sections";
       "Ensure consistent terminology throughout";
       "Clarify what is in-scope vs. out-of-scope" ]);
    ("elasticTolerance",
     [ "Better acknowledge contradictory evidence";
       "Include multiple perspectives on complex topics";
       "More explicitly acknowledge limitations";
       "Represent uncertainty more clearly" ]) ].

(** [defaultRecommendations[component] || []], for a component name
    that is not a property every object inherits. *)
Definition defaultsFor (component : string) : list string :=
  match find (fun kv => String.eqb (fst kv) component) defaultRecommendations with
  | Some kv => snd kv
  | None => []
  end.

Definition generateComponentRecommendations (component : string) (value : Q)
  : list string :=
  if CoherenceCheck.lessThan value (7 # 10) then defaultsFor component
  else if CoherenceCheck.lessThan value (85 # 100) then firstn 2 (defaultsFor component)
  else firstn 1 (defaultsFor component).

Record componentMetric : Type := ComponentMetric {
  current : Q;
  previous : option Q;
  change : option Q;
  metric_recommendations : list string
}.

(** What [fetchRepositoryActivity] resolves to. *)
Record repoActivity : Type := RepoActivity {
  commitCount : nat;
  commits : list string;
  openIssues : nat;
  closedIssues : nat
}.

(** The counts read from [meta/residue.json], or the zeros the report
    starts from. *)
Record residueData : Type := ResidueData {
  residue_new : nat;
  resolved : nat;
  active : nat
}.

(** [x.toFixed(2)] for a number below 10^21 in size: the nearest
    multiple of 0.01, the larger one of two that are as near, with two
    decimals. *)
Definition twoDigits (n : nat) : string :=
  if Nat.ltb n 10 then "0" ++ AttributionMap.decimal n else AttributionMap.decimal n.

Definition toFixed2 (x : Q) : string :=
  let n := Z.to_nat (Qfloor (Qabs x * (100 # 1) + (1 # 2))%Q) in
  (if CoherenceCheck.lessThan x 0 then "-" else "")
  ++ AttributionMap.decimal (n / 100) ++ "." ++ twoDigits (n mod 100).

(** [`${recommendations[0]}`]: the text [undefined] when the list is
    empty. *)
Definition firstOrUndefined (l : list string) : string := nth 0 l "undefined".

Definition improveMessage (component : string) (m : componentMetric) : string :=
  "Improve " ++ component ++ " (" ++ toFixed2 (current m)
  ++ ") by implementing the following: "
  ++ firstOrUndefined (metric_recommendations m).

Definition commitMessage : string :=
  "Increase development activity with regular commits to improve content and address issues".
Definition issuesMessage : string :=
  "Address open issues to improve feedback responsiveness".
Definition residueMessage : string :=
  "Address accumulated symbolic residue to improve conceptual clarity".
Definition maintainMessage : string :=
  "Maintain current coherence practices and continue regular improvements".

Definition pushWhen (condition : bool) (message : string) (l : list string)
  : list string :=
  if condition then (l ++ [message])%list else l.

Definition generateOverallRecommendations
  (componentMetrics : list (string * componentMetric))
  (activity : repoActivity) (residue : residueData) : list string :=
  let r0 :=
    fold_left
      (fun recommendations kv =>
         pushWhen (CoherenceCheck.lessThan (current (snd kv)) (7 # 10))
                  (improveMessage (fst kv) (snd kv)) recommendations)
      componentMetrics [] in
  let r1 := pushWhen (Nat.eqb (commitCount activity) 0) commitMessage r0 in
  let r2 := pushWhen (Nat.eqb (closedIssues activity) 0
                      && Nat.ltb 0 (openIssues activity)) issuesMessage r1 in
  let r3 := pushWhen (Nat.ltb 10 (active residue)
                      && Nat.eqb (resolved residue) 0) residueMessage r2 in
  pushWhen (Nat.eqb (List.length r3) 0) maintainMessage r3.

Definition componentMetrics (currentEntry : entry) (previousEntry : option entry)
  : list (string * componentMetric) :=
  map (fun kv =>
         let before :=
           match previousEntry with
           | Some p => componentValue p (fst kv)
           | None => None
           end in
         (fst kv,
          {| current := snd kv;
             previous := before;
             change := option_map (fun b => (snd kv - b)%Q) before;
             metric_recommendations :=
               generateComponentRecommendations (fst kv) (snd kv) |}))
      (componentEntries currentEntry).

Record report : Type := Report {
  overall_current : Q;
  overall_previous : option Q;
  overall_change : option Q;
  report_components : list (string * componentMetric);
  report_commits : list string;
  issuesAddressed : nat;
  report_openIssues : nat;
  report_residue : residueData;
  report_recommendations : list string;
  coherenceEntries : nat
}.

(** The value [generatePeriodReport] resolves to, for a period that
    starts at [periodStart] and the activity and residue data it has
    fetched; [None] when it throws for want of an entry.  The period
    block, the attribution block and the details of the components,
    copied from the entry, are left out. *)
Definition generatePeriodReport (periodStart : Z) (h : history)
  (activity : repoActivity) (residue : residueData) : option report :=
  let previousEntry := lastOrNull (previousEntries periodStart h) in
  match lastOrNull (entries h) with
  | None => None
  | Some currentEntry =>
      let overallPrevious := option_map overallScore previousEntry in
      let metrics := componentMetrics currentEntry previousEntry in
      Some {| overall_current := overallScore currentEntry;
              overall_previous := overallPrevious;
              overall_change :=
                option_map (fun p => (overallScore currentEntry - p)%Q) overallPrevious;
              report_components := metrics;
              report_commits := commits activity;
              issuesAddressed := closedIssues activity;
              report_openIssues := openIssues activity;
              report_residue := residue;
              report_recommendations :=
                generateOverallRecommendations metrics activity residue;
              coherenceEntries := List.length (periodEntries periodStart h) |}
  end.

(** The arrows of [getChangeIndicator]: none, level, up, down. *)
Inductive changeIndicator : Type := NoArrow | Level | Up | Down.

Definition getChangeIndicator (current : Q) (previous : option Q) : changeIndicator :=
  match previous with
  | None => NoArrow
  | Some p =>
      let change := (current - p)%Q in
      if CoherenceCheck.lessThan (Qabs change) (5 # 100) then Level
      else if CoherenceCheck.lessThan 0 change then Up else Down
  end.


(** ** The main function

    [generatePeriodReport] is an [async] function, and the main
    function calls it without [await]: [report] is bound to the promise
    the call returns, not to the report that promise resolves to (or
    rejects without, when the history has no entry). *)

Inductive jsValue : Type :=
| Undefined
| Promise (resolution : option report).

(** [v.name], for a name that is not one of the methods of a promise:
    a promise has no such property, and reading a property of
    [undefined] throws a TypeError. *)
Definition member (v : jsValue) (name : string) : result jsValue :=
  match v with
  | Undefined =>
      Throw ("Cannot read properties of undefined (reading '" ++ name ++ "')")
  | Promise _ => Ok Undefined
  end.

(** [JSON.stringify(v, null, 2)]: a promise is an object without own
    enumerable properties; of [undefined] the result is [undefined],
    here [None]. *)
Definition stringify (v : jsValue) : option string :=
  match v with
  | Undefined => None
  | Promise _ => Some "{}"
  end.

(** [loadCoherenceHistory], from the stored history when there is one
    that parses. *)
Definition loadCoherenceHistory (stored : option history) : history :=
  match stored with
  | Some h => h
  | None => emptyHistory
  end.

(** [getCurrentCoherence], from the entry made of [meta/coherence.json]
    when the file is there and parses. *)
Definition getCurrentCoherence (coherenceData : option entry) : result entry :=
  match coherenceData with
  | Some e => Ok e
  | None => Throw "Coherence data not found. Run coherence-check.js first."
  end.

(** What a run leaves: the two files it has written, if it has, and
    its exit code. *)
Record reportRun : Type := ReportRun {
  historyFile : option history;
  reportFile : option string;
  exitCode : nat
}.

Definition generateCoherenceReport (stored : option history)
  (coherenceData : option entry) (periodStart : Z)
  (activity : repoActivity) (residue : residueData) : reportRun :=
  let coherenceHistory := loadCoherenceHistory stored in
  match getCurrentCoherence coherenceData with
  | Throw _ => {| historyFile := None; reportFile := None; exitCode := 1 |}
  | Ok currentCoherence =>
      let coherenceHistory := addToCoherenceHistory coherenceHistory currentCoherence in
      let report :=
        Promise (generatePeriodReport periodStart coherenceHistory activity residue) in
      match stringify report with
      | None =>
          {| historyFile := Some coherenceHistory; reportFile := None; exitCode := 1 |}
      | Some json =>
          match bind (member report "overall") (fun overall =>
                bind (member overall "current") (fun current =>
                bind (member overall "previous") (fun previous =>
                Ok (current, previous)))) with
          | Ok _ =>
              {| historyFile := Some coherenceHistory;
                 reportFile := Some json;
                 exitCode := 0 |}
          | Throw _ =>
              {| historyFile := Some coherenceHistory;
                 reportFile := Some json;
                 exitCode := 1 |}
          end
      end
  end.

End CoherenceReport.

(* ===================================================================== *)
(** * Properties of the attribution graph: node identifiers and density *)
(* ===================================================================== *)

Section NodeIdentifiers.

Import AttributionMap.

Lemma replaceNonAlnum_agree (l1 l2 : list ascii) :
  Forall2 (fun c d => c = d \/ (isAlnum c = false /\ isAlnum d = false)) l1 l2 ->
  map replaceNonAlnum l1 = map replaceNonAlnum l2.
Proof.
  induction 1 as [| c d l1 l2 Hcd _ IH]; simpl; [reflexivity|].
  f_equal; [|exact IH].
  destruct Hcd as [-> | [Hc Hd]]; [reflexivity|].
  unfold replaceNonAlnum. now rewrite Hc, Hd.
Qed.

Lemma nodeId_agree (type n1 n2 : string) :
  agreeOnAlnum n1 n2 -> nodeId type n1 = nodeId type n2.
Proof.
  intros H. unfold nodeId. do 3 f_equal. now apply replaceNonAlnum_agree.
Qed.

Lemma hasNode_app (g : graph) (n : node) (i : string) :
  hasNode {| nodes := nodes g ++ [n]; links := links g;
             graph_metrics := graph_metrics g |} i
  = hasNode g i || String.eqb (id n) i.
Proof.
  unfold hasNode; simpl. rewrite existsb_app. simpl. now rewrite orb_false_r.
Qed.

(** Once a contributor has been added, a second one whose key has the
    same identifier changes nothing. *)
Lemma addContributorNode_merged (c1 c2 : contributor) (k1 k2 : string) (g : graph) :
  (if String.eqb (contributor_name c1) "" then contributor_github c1
   else Some (contributor_name c1)) = Some k1 ->
  (if String.eqb (contributor_name c2) "" then contributor_github c2
   else Some (contributor_name c2)) = Some k2 ->
  nodeId "contributor" k1 = nodeId "contributor" k2 ->
  andThen (addContributorNode c1) (addContributorNode c2) g = addContributorNode c1 g.
Proof.
  intros H1 H2 Hid. unfold andThen, addContributorNode.
  rewrite H1, H2, <- Hid.
  destruct (hasNode g (nodeId "contributor" k1)) eqn:Hg.
  - now rewrite Hg.
  - rewrite hasNode_app. simpl. now rewrite String.eqb_refl, orb_true_r.
Qed.

(** C10. A node identifier is the type, a colon, and the name with
    every character outside [a-zA-Z0-9] replaced by an underscore.  The
    function is not injective: names that differ only in characters
    outside that class get the same identifier, as do the distinct
    names a.b and a-b, and contributors so named end up as one node of
    the graph. *)
Theorem nodeId_not_injective :
  (forall type name,
     nodeId type name = type ++ ":" ++ text (map replaceNonAlnum (chars name)))
  /\ (forall type n1 n2, agreeOnAlnum n1 n2 -> nodeId type n1 = nodeId type n2)
  /\ ("a.b" <> "a-b"
      /\ nodeId "contributor" "a.b" = "contributor:a_b"
      /\ nodeId "contributor" "a-b" = "contributor:a_b"
      /\ nodeId "content" "a.b" = nodeId "content" "a-b")
  /\ (forall g,
        andThen (addContributorNode (contributorNamed "a.b"))
                (addContributorNode (contributorNamed "a-b")) g
        = addContributorNode (contributorNamed "a.b") g)
  /\ List.length
       (nodes (graphOf (andThen (addContributorNode (contributorNamed "a.b"))
                                (addContributorNode (contributorNamed "a-b"))
                                emptyGraph))) = 1%nat.
Proof.
  split; [reflexivity|].
  split; [exact nodeId_agree|].
  split; [repeat split; solve [reflexivity | discriminate]|].
  split; [|reflexivity].
  intros g.
  apply (@addContributorNode_merged _ _ "a.b" "a-b"); reflexivity.
Qed.

Lemma nodeId_not_injective_witness :
  agreeOnAlnum "jane doe" "jane-doe"
  /\ nodeId "contributor" "jane doe" = nodeId "contributor" "jane-doe".
Proof.
  assert (H : agreeOnAlnum "jane doe" "jane-doe").
  { unfold agreeOnAlnum; simpl.
    repeat (constructor; [first [left; reflexivity | right; split; reflexivity]|]).
    constructor. }
  split; [exact H|].
  exact (proj1 (proj2 nodeId_not_injective) "contributor" "jane doe" "jane-doe" H).
Defined.

End NodeIdentifiers.

Section Density.

Import AttributionMap.

Lemma isZero_ofNat (n : nat) : isZero (ofNat n) = (n =? 0)%nat.
Proof.
  unfold isZero, ofNat. destruct n as [|n]; [reflexivity|].
  apply not_true_is_false. intros H. apply Qeq_bool_eq in H.
  unfold Qeq in H; simpl in H. lia.
Qed.

Lemma negative_ofNat (n : nat) : negative (ofNat n) = false.
Proof.
  unfold negative, ofNat.
  destruct (Qcompare (inject_Z (Z.of_nat n)) 0) eqn:E; try reflexivity.
  rewrite <- Qlt_alt in E. unfold Qlt in E; simpl in E. lia.
Qed.

Lemma isZero_positive (q : Q) : (0 < q)%Q -> isZero (Finite q) = false.
Proof.
  intros H. simpl. apply not_true_is_false. intros E.
  apply Qeq_bool_eq in E. rewrite E in H. now apply Qlt_irrefl in H.
Qed.

Lemma negative_positive (q : Q) : (0 < q)%Q -> negative (Finite q) = false.
Proof.
  intros H. simpl. destruct (Qcompare q 0) eqn:E; try reflexivity.
  rewrite <- Qlt_alt in E. exfalso. apply (Qlt_irrefl 0). now apply Qlt_trans with q.
Qed.

Lemma graphDensity_no_nodes (l : nat) :
  graphDensity 0 l = if (l =? 0)%nat then NaN else NegInfinity.
Proof.
  unfold graphDensity.
  change (div (mul (ofNat 0) (sub (ofNat 0) (ofNat 1))) (ofNat 2)) with NegZero.
  unfold div. simpl isNaN. simpl isInfinite. simpl orb.
  rewrite negative_ofNat, isZero_ofNat. simpl.
  now destruct (l =? 0)%nat.
Qed.

Lemma graphDensity_one_node (l : nat) :
  graphDensity 1 l = if (l =? 0)%nat then NaN else PosInfinity.
Proof.
  unfold graphDensity.
  change (div (mul (ofNat 1) (sub (ofNat 1) (ofNat 1))) (ofNat 2)) with (Finite 0).
  unfold div. simpl isNaN. simpl isInfinite. simpl orb.
  rewrite negative_ofNat, isZero_ofNat. simpl.
  now destruct (l =? 0)%nat.
Qed.

Lemma mul_positive (p q : Q) :
  (0 < p)%Q -> (0 < q)%Q -> mul (Finite p) (Finite q) = Finite (p * q).
Proof.
  intros Hp Hq. unfold mul.
  rewrite (isZero_positive Hp), (isZero_positive Hq). reflexivity.
Qed.

Lemma div_by_positive (p q : Q) :
  (0 <= p)%Q -> (0 < q)%Q ->
  exists r, div (Finite p) (Finite q) = Finite r /\ (r == p / q)%Q.
Proof.
  intros Hp Hq. unfold div.
  rewrite (isZero_positive Hq), (negative_positive Hq).
  change (isNaN (Finite p) || isNaN (Finite q)) with false.
  change (isInfinite (Finite p)) with false.
  change (isInfinite (Finite q)) with false.
  cbv iota.
  destruct (isZero (Finite p)) eqn:Hz.
  - assert (Hn : negative (Finite p) = false).
    { simpl. destruct (Qcompare p 0) eqn:E; try reflexivity.
      rewrite <- Qlt_alt in E. exfalso. apply (Qlt_irrefl p).
      now apply Qlt_le_trans with 0%Q. }
    rewrite Hn. exists 0%Q. split; [reflexivity|].
    simpl in Hz. apply Qeq_bool_eq in Hz. rewrite Hz.
    unfold Qdiv. now rewrite Qmult_0_l.
  - eexists. split; reflexivity.
Qed.

Lemma sub_one (q : Q) : (2 <= q)%Q -> sub (Finite q) (Finite 1) = Finite (q - 1).
Proof.
  intros Hq. unfold sub.
  change (isNaN (Finite q) || isNaN (Finite 1)) with false.
  change (isInfinite (Finite q)) with false.
  change (isInfinite (Finite 1)) with false.
  cbv iota. change (value (Finite q)) with q. change (value (Finite 1)) with 1%Q.
  destruct (Qeq_bool q 1) eqn:E; [|reflexivity].
  apply Qeq_bool_eq in E. rewrite E in Hq. now compute in Hq.
Qed.

(** With two nodes or more the density is the finite quotient. *)
Lemma graphDensity_two_nodes (n l : nat) :
  (2 <= n)%nat ->
  exists q, graphDensity n l = Finite q
            /\ (q == inject_Z (Z.of_nat l)
                     / (inject_Z (Z.of_nat n) * (inject_Z (Z.of_nat n) - 1) / 2))%Q.
Proof.
  intros Hn. unfold graphDensity, ofNat.
  set (qn := inject_Z (Z.of_nat n)).
  set (ql := inject_Z (Z.of_nat l)).
  assert (Hqn : (2 <= qn)%Q) by (unfold qn, Qle; simpl; lia).
  assert (Hql : (0 <= ql)%Q) by (unfold ql, Qle; simpl; lia).
  change (inject_Z (Z.of_nat 1)) with 1%Q.
  change (inject_Z (Z.of_nat 2)) with 2%Q.
  rewrite (sub_one Hqn).
  rewrite mul_positive by lra.
  assert (Hprod : (0 < qn * (qn - 1))%Q) by nra.
  destruct (@div_by_positive (qn * (qn - 1)) 2) as [d [Hd Hdq]]; [lra|lra|].
  rewrite Hd.
  assert (Hden : (0 < d)%Q).
  { rewrite Hdq. apply Qlt_shift_div_l; lra. }
  destruct (div_by_positive Hql Hden) as [r [Hr Hrq]].
  exists r. split; [exact Hr|]. now rewrite Hrq, Hdq.
Qed.

(** C9 (amended). The division of [calculateAttributionMetrics] is not
    guarded.  On a graph without nodes the divisor is -0 and the
    density is NaN when there are no links either, as in every graph
    whose links join nodes of the graph, and -Infinity otherwise; on a
    graph with one node the divisor is +0 and the density is NaN
    without links and +Infinity with links.  The density is a finite
    number exactly when the graph has two nodes or more, and is then
    the quotient of the formula. *)
Theorem density_finite_iff_two_nodes (g : graph) :
  let n := List.length (nodes g) in
  let l := List.length (links g) in
  densityOf g = Some (graphDensity n l)
  /\ (n = 0%nat -> graphDensity n l = if (l =? 0)%nat then NaN else NegInfinity)
  /\ (n = 0%nat -> linksResolve g -> graphDensity n l = NaN)
  /\ (n = 1%nat -> graphDensity n l = if (l =? 0)%nat then NaN else PosInfinity)
  /\ ((2 <= n)%nat ->
      exists q, graphDensity n l = Finite q
                /\ (q == inject_Z (Z.of_nat l)
                         / (inject_Z (Z.of_nat n) * (inject_Z (Z.of_nat n) - 1) / 2))%Q)
  /\ (isFinite (graphDensity n l) = true <-> (2 <= n)%nat).
Proof.
  intros n l.
  split; [reflexivity|].
  split; [intros ->; apply graphDensity_no_nodes|].
  split.
  { intros Hn Hres. rewrite Hn, graphDensity_no_nodes.
    assert (Hl : links g = []).
    { destruct (links g) as [|k ks] eqn:E; [reflexivity|].
      destruct (Hres k) as [Hs _]; [rewrite E; now left|].
      unfold hasNode in Hs. apply length_zero_iff_nil in Hn. rewrite Hn in Hs.
      discriminate. }
    unfold l. now rewrite Hl. }
  split; [intros ->; apply graphDensity_one_node|].
  split; [apply graphDensity_two_nodes|].
  split.
  - intros Hfin.
    destruct n as [|[|n]]; [| |lia].
    + rewrite graphDensity_no_nodes in Hfin. now destruct (l =? 0)%nat.
    + rewrite graphDensity_one_node in Hfin. now destruct (l =? 0)%nat.
  - intros Hn. destruct (graphDensity_two_nodes l Hn) as [q [-> _]]. reflexivity.
Qed.

Lemma density_finite_iff_two_nodes_witness :
  graphDensity 0 0 = NaN
  /\ linksResolve (Graph [] [] None)
  /\ graphDensity 1 1 = PosInfinity
  /\ isFinite (graphDensity 2 1) = true.
Proof.
  assert (H : linksResolve (Graph [] [] None)) by (intros l []).
  split; [|split; [exact H|split]].
  - exact (proj1 (proj2 (proj2
             (density_finite_iff_two_nodes (Graph [] [] None)))) eq_refl H).
  - exact (proj1 (proj2 (proj2 (proj2
             (density_finite_iff_two_nodes (Graph [someNode] [someLink] None))))) eq_refl).
  - apply (proj2 (proj2 (proj2 (proj2 (proj2
             (density_finite_iff_two_nodes
                (Graph [someNode; someContent] [someLink] None))))))).
    simpl. lia.
Defined.

(** C9, as stated, fails on a graph without nodes that has a link: the
    density is -Infinity there, not NaN. *)
Lemma density_no_nodes_with_link :
  nodes (Graph [] [someLink] None) = []
  /\ densityOf (Graph [] [someLink] None) = Some NegInfinity
  /\ densityOf (Graph [] [someLink] None) <> Some NaN.
Proof.
  split; [reflexivity|]. split; [reflexivity|]. discriminate.
Qed.

End Density.

(* ===================================================================== *)
(** * Properties of the residue catalog *)
(* ===================================================================== *)

Section ResidueCatalog.

Import ResidueAnalysis.

Lemma sameResidue_key (a b : residueInstance) :
  sameResidue a b = true <-> residueKey a = residueKey b.
Proof.
  unfold sameResidue, residueKey. rewrite andb_true_iff, !String.eqb_eq.
  split; [intros [-> ->]; reflexivity | intros H; now inversion H].
Qed.

Lemma known_iff (c : catalog) (i : residueInstance) :
  existsb (fun existing => sameResidue existing i) (instances c) = true
  <-> In (residueKey i) (map residueKey (instances c)).
Proof.
  rewrite existsb_exists, in_map_iff. split.
  - intros [x [Hx Hs]]. exists x. split; [now apply sameResidue_key|exact Hx].
  - intros [x [Hk Hx]]. exists x. split; [exact Hx|now apply sameResidue_key].
Qed.

Lemma addResidueInstance_known (c : catalog) (i : residueInstance) :
  In (residueKey i) (map residueKey (instances c)) -> addResidueInstance c i = c.
Proof.
  intros H. apply known_iff in H. unfold addResidueInstance. now rewrite H.
Qed.

Lemma addResidueInstance_keys (c : catalog) (i : residueInstance) :
  incl (map residueKey (instances c)) (map residueKey (instances (addResidueInstance c i)))
  /\ In (residueKey i) (map residueKey (instances (addResidueInstance c i))).
Proof.
  unfold addResidueInstance.
  destruct (existsb _ (instances c)) eqn:E; simpl.
  - split; [apply incl_refl|]. now apply known_iff.
  - rewrite map_app. split; [now apply incl_appl, incl_refl|].
    apply in_or_app. right. now left.
Qed.

Lemma addResidueInstance_noDuplicates (c : catalog) (i : residueInstance) :
  noDuplicates c -> noDuplicates (addResidueInstance c i).
Proof.
  unfold noDuplicates, addResidueInstance. intros H.
  destruct (existsb _ (instances c)) eqn:E; simpl; [exact H|].
  rewrite map_app. simpl.
  apply NoDup_rev in H. rewrite <- rev_involutive. apply NoDup_rev.
  rewrite rev_app_distr. simpl. constructor; [|exact H].
  rewrite <- in_rev. intros Hin. apply known_iff in Hin. congruence.
Qed.

Lemma analyzeResidue_noDuplicates (found : list residueInstance) (c : catalog) :
  noDuplicates c -> noDuplicates (analyzeResidue found c).
Proof.
  revert c. induction found as [|i found IH]; intros c H; simpl; [exact H|].
  apply IH. now apply addResidueInstance_noDuplicates.
Qed.

Lemma analyzeResidue_keys (found : list residueInstance) (c : catalog) :
  incl (map residueKey (instances c)) (map residueKey (instances (analyzeResidue found c)))
  /\ incl (map residueKey found) (map residueKey (instances (analyzeResidue found c))).
Proof.
  revert c. induction found as [|i found IH]; intros c; simpl.
  - split; [apply incl_refl|]. intros x [].
  - destruct (IH (addResidueInstance c i)) as [H1 H2].
    destruct (addResidueInstance_keys c i) as [H3 H4].
    split.
    + eapply incl_tran; eassumption.
    + intros x [<- | Hx]; [now apply H1|now apply H2].
Qed.

Lemma analyzeResidue_absorbed (found : list residueInstance) (c : catalog) :
  incl (map residueKey found) (map residueKey (instances c)) ->
  analyzeResidue found c = c.
Proof.
  induction found as [|i found IH]; intros H; simpl; [reflexivity|].
  rewrite addResidueInstance_known.
  - apply IH. intros x Hx. apply H. now right.
  - apply H. now left.
Qed.

(** C5. Adding an instance to a catalog that holds no two entries with
    the same description and section gives such a catalog again; so
    does a whole run.  A second run over the same text, which finds
    instances with the same descriptions and sections (their
    identifiers and detection times are fresh), leaves the catalog as
    the first run left it. *)
Theorem addResidueInstance_no_duplicate (c : catalog) :
  noDuplicates c ->
  (forall i, noDuplicates (addResidueInstance c i))
  /\ (forall found, noDuplicates (analyzeResidue found c))
  /\ (forall first second,
        map residueKey second = map residueKey first ->
        analyzeResidue second (analyzeResidue first c) = analyzeResidue first c).
Proof.
  intros H. split; [|split].
  - intros i. now apply addResidueInstance_noDuplicates.
  - intros found. now apply analyzeResidue_noDuplicates.
  - intros first second Hk. apply analyzeResidue_absorbed.
    rewrite Hk. apply analyzeResidue_keys.
Qed.

Lemma addResidueInstance_no_duplicate_witness :
  noDuplicates (Catalog [hedge])
  /\ noDuplicates (addResidueInstance (Catalog [hedge]) hedgeAgain)
  /\ analyzeResidue [hedgeAgain; scopeNote] (analyzeResidue [hedge; scopeNote] (Catalog [hedge]))
     = analyzeResidue [hedge; scopeNote] (Catalog [hedge]).
Proof.
  assert (H : noDuplicates (Catalog [hedge])).
  { unfold noDuplicates; simpl. constructor; [intros []|constructor]. }
  split; [exact H|]. split.
  - exact (proj1 (addResidueInstance_no_duplicate H) hedgeAgain).
  - exact (proj2 (proj2 (addResidueInstance_no_duplicate H))
             [hedge; scopeNote] [hedgeAgain; scopeNote] eq_refl).
Defined.

End ResidueCatalog.

(* ===================================================================== *)
(** * Properties of the coherence history *)
(* ===================================================================== *)

Section History.

Import CoherenceReport.

Lemma insertSorted_perm (e : entry) (l : list entry) :
  Permutation (e :: l) (insertSorted compareEntries e l).
Proof.
  induction l as [|x l IH]; simpl; [apply Permutation_refl|].
  destruct (compareEntries e x <? 0)%Z; [apply Permutation_refl|].
  eapply perm_trans; [apply perm_swap|]. now apply perm_skip.
Qed.

Lemma insertSorted_hd (e x : entry) (l : list entry) :
  (timestamp x <= timestamp e)%Z ->
  HdRel (fun a b => (timestamp a <= timestamp b)%Z) x l ->
  HdRel (fun a b => (timestamp a <= timestamp b)%Z) x (insertSorted compareEntries e l).
Proof.
  intros Hxe Hhd. destruct l as [|y l]; simpl; [now constructor|].
  destruct (compareEntries e y <? 0)%Z; constructor; [exact Hxe|].
  now inversion Hhd.
Qed.

Lemma insertSorted_ascending (e : entry) (l : list entry) :
  ascending l -> ascending (insertSorted compareEntries e l).
Proof.
  unfold ascending. induction l as [|x l IH]; intros H; simpl.
  - repeat constructor.
  - inversion H as [|? ? Hs Hhd]; subst.
    destruct (compareEntries e x <? 0)%Z eqn:E.
    + constructor; [exact H|]. constructor.
      apply Z.ltb_lt in E. unfold compareEntries in E. lia.
    + constructor; [now apply IH|].
      apply insertSorted_hd; [|exact Hhd].
      apply Z.ltb_ge in E. unfold compareEntries in E. lia.
Qed.

Lemma sort_from (l sorted : list entry) :
  ascending sorted ->
  ascending (fold_left (fun s e => insertSorted compareEntries e s) l sorted)
  /\ Permutation (sorted ++ l)
       (fold_left (fun s e => insertSorted compareEntries e s) l sorted).
Proof.
  revert sorted. induction l as [|e l IH]; intros sorted H; simpl.
  - split; [exact H|]. rewrite app_nil_r. apply Permutation_refl.
  - destruct (IH (insertSorted compareEntries e sorted)) as [Ha Hp];
      [now apply insertSorted_ascending|].
    split; [exact Ha|].
    eapply perm_trans; [|exact Hp].
    eapply perm_trans; [apply Permutation_sym, Permutation_middle|].
    apply (Permutation_app_tail l (insertSorted_perm e sorted)).
Qed.

Lemma sort_ascending (l : list entry) :
  ascending (sort compareEntries l) /\ Permutation l (sort compareEntries l).
Proof.
  apply (@sort_from l []). constructor.
Qed.

(** The sort is stable: entries with the same timestamp keep the order
    they had. *)
Lemma insertSorted_filter (t : Z) (e : entry) (l : list entry) :
  ascending l ->
  filter (fun x => (timestamp x =? t)%Z) (insertSorted compareEntries e l)
  = (filter (fun x => (timestamp x =? t)%Z) l
     ++ filter (fun x => (timestamp x =? t)%Z) [e])%list.
Proof.
  unfold ascending. induction l as [|x l IH]; intros H; simpl; [reflexivity|].
  inversion H as [|? ? Hs Hhd]; subst.
  destruct (compareEntries e x <? 0)%Z eqn:E.
  - apply Z.ltb_lt in E. unfold compareEntries in E.
    assert (Hall : Forall (fun y => (timestamp x <= timestamp y)%Z) l).
    { apply Sorted_extends in H; [exact H|]. intros a b c; lia. }
    simpl. destruct (timestamp e =? t)%Z eqn:Et.
    + apply Z.eqb_eq in Et.
      assert (Hx : (timestamp x =? t)%Z = false) by (apply Z.eqb_neq; lia).
      rewrite Hx.
      assert (Hl : filter (fun y => (timestamp y =? t)%Z) l = []).
      { clear - Hall E Et. induction Hall as [|y l Hy _ IHl]; simpl; [reflexivity|].
        assert (Hyt : (timestamp y =? t)%Z = false) by (apply Z.eqb_neq; lia).
        now rewrite Hyt. }
      now rewrite Hl.
    + now rewrite app_nil_r.
  - simpl. rewrite (IH Hs). simpl.
    destruct (timestamp x =? t)%Z; reflexivity.
Qed.

Lemma sort_stable (t : Z) (l sorted : list entry) :
  ascending sorted ->
  filter (fun x => (timestamp x =? t)%Z)
         (fold_left (fun s e => insertSorted compareEntries e s) l sorted)
  = (filter (fun x => (timestamp x =? t)%Z) sorted
     ++ filter (fun x => (timestamp x =? t)%Z) l)%list.
Proof.
  revert sorted. induction l as [|e l IH]; intros sorted H; simpl fold_left.
  - simpl. now rewrite app_nil_r.
  - rewrite IH by now apply insertSorted_ascending.
    rewrite insertSorted_filter by exact H.
    rewrite <- app_assoc. f_equal.
    simpl. now destruct (timestamp e =? t)%Z.
Qed.

(** C8. After every append the entries of the history are in ascending
    order of timestamp, whatever order the history had before.  They
    are the old entries and the new one, those of equal timestamp in
    the order they had, and the recorded count is their number. *)
Theorem addToCoherenceHistory_sorted (h : history) (currentCoherence : entry) :
  ascending (entries (addToCoherenceHistory h currentCoherence))
  /\ Permutation (entries h ++ [currentCoherence])
                 (entries (addToCoherenceHistory h currentCoherence))
  /\ (forall t,
        filter (fun x => (timestamp x =? t)%Z)
               (entries (addToCoherenceHistory h currentCoherence))
        = filter (fun x => (timestamp x =? t)%Z) (entries h ++ [currentCoherence]))
  /\ entryCount (addToCoherenceHistory h currentCoherence)
     = Some (S (List.length (entries h))).
Proof.
  unfold addToCoherenceHistory; simpl.
  destruct (sort_ascending (entries h ++ [currentCoherence])) as [Ha Hp].
  split; [exact Ha|]. split; [exact Hp|]. split.
  - intros t. unfold sort. rewrite sort_stable by constructor. reflexivity.
  - f_equal. rewrite <- (Permutation_length Hp), length_app. simpl. lia.
Qed.

Lemma filter_strongly_sorted (f : entry -> bool) (l : list entry) :
  StronglySorted (fun a b => (timestamp a <= timestamp b)%Z) l ->
  StronglySorted (fun a b => (timestamp a <= timestamp b)%Z) (filter f l).
Proof.
  induction 1 as [|x l Hs IH Hall]; simpl; [constructor|].
  destruct (f x); [|exact IH].
  constructor; [exact IH|].
  rewrite Forall_forall in *. intros y Hy. apply filter_In in Hy. now apply Hall.
Qed.

Lemma last_latest (l : list entry) (e : entry) :
  StronglySorted (fun a b => (timestamp a <= timestamp b)%Z) l ->
  In e l -> (timestamp e <= timestamp (last l e))%Z.
Proof.
  induction 1 as [|x l Hs IH Hall]; intros Hin; [destruct Hin|].
  destruct l as [|y l]; [destruct Hin as [-> | []]; simpl; lia|].
  change (last (x :: y :: l) e) with (last (y :: l) e).
  destruct Hin as [-> | Hin]; [|now apply IH].
  rewrite Forall_forall in Hall. apply Hall.
  destruct (exists_last (l := y :: l)) as [l' [z Hz]]; [discriminate|].
  rewrite Hz, last_last. apply in_or_app. right. now left.
Qed.

Example addToCoherenceHistory_unsorted :
  map timestamp
      (entries (addToCoherenceHistory
                  (History [Entry 30 (7 # 10) (1, 1, 1, 1); Entry 10 (6 # 10) (1, 1, 1, 1)] None)
                  (Entry 20 (8 # 10) (1, 1, 1, 1))))
  = [10%Z; 20%Z; 30%Z].
Proof. reflexivity. Qed.

(** With the entries in ascending order, the entry the report compares
    against, the last of those before the start of the period, is the
    latest of them. *)
Lemma previousEntry_latest (periodStart : Z) (h : history) (e : entry) :
  ascending (entries h) ->
  In e (previousEntries periodStart h) ->
  (timestamp e <= timestamp (last (previousEntries periodStart h) e))%Z.
Proof.
  unfold previousEntries, ascending. intros Hs.
  apply last_latest, filter_strongly_sorted, Sorted_StronglySorted;
    [intros a b c; lia | exact Hs].
Qed.

End History.

(* ===================================================================== *)
(** * Properties of the coherence scores *)
(* ===================================================================== *)

Section SignalAlignment.

Import CoherenceCheck.
Local Open Scope Q_scope.

Lemma num_le (a b : nat) : (a <= b)%nat -> num a <= num b.
Proof. intros H. unfold num, Qle; simpl. lia. Qed.

Lemma num_nonneg (a : nat) : 0 <= num a.
Proof. unfold num, Qle; simpl. lia. Qed.

Lemma num_pos (a : nat) : (0 < a)%nat -> 0 < num a.
Proof. intros H. unfold num, Qlt; simpl. lia. Qed.

Lemma clamp01_bounds (x : Q) : 0 <= clamp01 x <= 1.
Proof.
  unfold clamp01. split.
  - apply Q.le_max_l.
  - apply Q.max_lub; [lra|apply Q.le_min_l].
Qed.

Lemma clamp01_le (x y : Q) : x <= y -> clamp01 x <= clamp01 y.
Proof.
  intros H. unfold clamp01.
  apply Q.max_le_compat_l, Q.min_le_compat_l, H.
Qed.

Lemma clamp01_id (x : Q) : 0 <= x <= 1 -> clamp01 x == x.
Proof.
  intros [H0 H1]. unfold clamp01.
  rewrite (Q.min_r 1 x) by exact H1. now apply Q.max_r.
Qed.

Lemma analyzeArticleCitations_counts (arts : list article) :
  let a := analyzeArticleCitations arts in
  density a = densityFrom (citations a) (paragraphs a)
  /\ citation_score a = clamp01 (Qmin 1 (density a / (1 # 2))).
Proof. split; reflexivity. Qed.

Lemma densityFrom_nonneg (c p : nat) : 0 <= densityFrom c p.
Proof.
  unfold densityFrom. destruct (0 <? p)%nat eqn:E; [|lra].
  apply Nat.ltb_lt in E. apply Qle_shift_div_l; [now apply num_pos|].
  rewrite Qmult_0_l. apply num_nonneg.
Qed.

Lemma densityFrom_le (c1 c2 p : nat) :
  (c1 <= c2)%nat -> densityFrom c1 p <= densityFrom c2 p.
Proof.
  intros H. unfold densityFrom. destruct (0 <? p)%nat eqn:E; [|lra].
  apply Nat.ltb_lt in E. unfold Qdiv. apply Qmult_le_compat_r.
  - now apply num_le.
  - apply Qlt_le_weak, Qinv_lt_0_compat. now apply num_pos.
Qed.

Lemma over_target_le (d1 d2 : Q) : d1 <= d2 -> d1 / (1 # 2) <= d2 / (1 # 2).
Proof.
  intros H. unfold Qdiv. apply Qmult_le_compat_r; [exact H|]. now compute.
Qed.

Lemma over_target_nonneg (d : Q) : 0 <= d -> 0 <= d / (1 # 2).
Proof.
  intros H. apply (over_target_le H).
Qed.

Lemma citation_score_formula (arts : list article) :
  citation_score (analyzeArticleCitations arts)
  == Qmin 1 (density (analyzeArticleCitations arts) / (1 # 2)).
Proof.
  destruct (analyzeArticleCitations_counts arts) as [Hd ->].
  apply clamp01_id.
  pose proof (densityFrom_nonneg (citations (analyzeArticleCitations arts))
                                 (paragraphs (analyzeArticleCitations arts))) as H.
  rewrite <- Hd in H. split.
  - apply Q.min_glb; [lra|now apply over_target_nonneg].
  - apply Q.le_min_l.
Qed.

Lemma citation_score_le (arts1 arts2 : list article) :
  paragraphs (analyzeArticleCitations arts1) = paragraphs (analyzeArticleCitations arts2) ->
  (citations (analyzeArticleCitations arts1)
   <= citations (analyzeArticleCitations arts2))%nat ->
  citation_score (analyzeArticleCitations arts1)
  <= citation_score (analyzeArticleCitations arts2).
Proof.
  intros Hp Hc.
  destruct (analyzeArticleCitations_counts arts1) as [Hd1 ->].
  destruct (analyzeArticleCitations_counts arts2) as [Hd2 ->].
  apply clamp01_le, Q.min_le_compat_l.
  rewrite Hd1, Hd2, Hp.
  apply over_target_le, densityFrom_le, Hc.
Qed.

Lemma signalScore_le (c1 c2 k1 k2 d1 d2 e1 e2 : Q) :
  c1 <= c2 -> k1 == k2 -> d1 == d2 -> e1 == e2 ->
  signalScore c1 k1 d1 e1 <= signalScore c2 k2 d2 e2.
Proof. intros Hc Hk Hd He. unfold signalScore. lra. Qed.

Lemma fold_sum {A : Type} (f : A -> nat) (l : list A) :
  forall n, fold_left (fun count a => (count + f a)%nat) l n = (n + list_sum (map f l))%nat.
Proof.
  induction l as [|a l IH]; intros n; simpl; [lia|]. rewrite IH. lia.
Qed.

(** The two totals of [analyzeArticleCitations] are read off the
    texts. *)
Lemma analyzeArticleCitations_text (arts : list article) :
  citations (analyzeArticleCitations arts) = citationMarkers arts
  /\ paragraphs (analyzeArticleCitations arts) = paragraphBlocks arts.
Proof.
  unfold analyzeArticleCitations, citationMarkers, paragraphBlocks.
  cbn [citations paragraphs]. now rewrite !fold_sum.
Qed.

(** C6. The citation count and the paragraph count of
    [analyzeArticleCitations] are the number of citation markers and
    the number of blocks between blank lines in the texts of the
    articles.  Between two states of the repository with the same
    number of paragraphs and the same claims, data and code scores,
    the one with more citation markers in its texts has a citation
    score and a signal-alignment score at least as high, the
    signal-alignment score being the sum of the four factor scores with
    the weights 0.3, 0.3, 0.2 and 0.2.  With at least one paragraph the
    citation score is min(1, (citations / paragraphs) / 0.5); 5 markers
    over 10 paragraphs give exactly 1, and texts without a marker give
    0. *)
Theorem citation_score_monotone (w1 w2 : repository) :
  let a1 := analyzeArticleCitations (articles w1) in
  let a2 := analyzeArticleCitations (articles w2) in
  paragraphBlocks (articles w1) = paragraphBlocks (articles w2) ->
  (citationMarkers (articles w1) <= citationMarkers (articles w2))%nat ->
  claims_score (findUnsupportedClaims (articles w1))
    == claims_score (findUnsupportedClaims (articles w2)) ->
  analyzeDataIntegrity w1 == analyzeDataIntegrity w2 ->
  evaluateCodeConsistency w1 == evaluateCodeConsistency w2 ->
  citations a2 = citationMarkers (articles w2)
  /\ paragraphs a2 = paragraphBlocks (articles w2)
  /\ citation_score a1 <= citation_score a2
  /\ calculateSignalAlignment w1 <= calculateSignalAlignment w2
  /\ calculateSignalAlignment w2
     == (3 # 10) * citation_score a2
        + (3 # 10) * claims_score (findUnsupportedClaims (articles w2))
        + (2 # 10) * analyzeDataIntegrity w2 + (2 # 10) * evaluateCodeConsistency w2
  /\ ((0 < paragraphBlocks (articles w2))%nat ->
      citation_score a2
      == Qmin 1 ((num (citationMarkers (articles w2))
                  / num (paragraphBlocks (articles w2))) / (1 # 2)))
  /\ (citationMarkers (articles w2) = 5%nat -> paragraphBlocks (articles w2) = 10%nat ->
      citation_score a2 == 1)
  /\ (citationMarkers (articles w2) = 0%nat -> citation_score a2 == 0).
Proof.
  intros a1 a2 Hp Hc Hk Hd He.
  destruct (analyzeArticleCitations_text (articles w1)) as [Hc1 Hp1].
  destruct (analyzeArticleCitations_text (articles w2)) as [Hc2 Hp2].
  fold a1 in Hc1, Hp1. fold a2 in Hc2, Hp2.
  split; [exact Hc2|]. split; [exact Hp2|].
  assert (Hle : citation_score a1 <= citation_score a2).
  { apply citation_score_le; fold a1 a2; [now rewrite Hp1, Hp2|now rewrite Hc1, Hc2]. }
  split; [exact Hle|]. split; [now apply signalScore_le|].
  split; [unfold calculateSignalAlignment, signalScore; fold a2; ring|].
  assert (Hf : (0 < paragraphBlocks (articles w2))%nat ->
               citation_score a2
               == Qmin 1 ((num (citationMarkers (articles w2))
                           / num (paragraphBlocks (articles w2))) / (1 # 2))).
  { intros Hpos. rewrite <- Hc2, <- Hp2. rewrite <- Hp2 in Hpos.
    unfold a2 in *. rewrite citation_score_formula.
    destruct (analyzeArticleCitations_counts (articles w2)) as [-> _].
    unfold densityFrom. apply Nat.ltb_lt in Hpos. now rewrite Hpos. }
  split; [exact Hf|]. split.
  - intros H5 H10. rewrite Hf by lia. rewrite H5, H10. reflexivity.
  - intros H0. unfold a2. rewrite citation_score_formula.
    destruct (analyzeArticleCitations_counts (articles w2)) as [-> _].
    fold a2. rewrite Hc2, H0. unfold densityFrom.
    destruct (0 <? paragraphs a2)%nat; reflexivity.
Qed.

Lemma citation_score_monotone_witness :
  citation_score (analyzeArticleCitations [plain (paragraphsCiting 10 3)])
  <= citation_score (analyzeArticleCitations [plain (paragraphsCiting 10 5)])
  /\ calculateSignalAlignment (withArticles [plain (paragraphsCiting 10 3)])
     <= calculateSignalAlignment (withArticles [plain (paragraphsCiting 10 5)])
  /\ citation_score (analyzeArticleCitations [plain (paragraphsCiting 10 5)]) == 1.
Proof.
  pose proof (@citation_score_monotone
                (withArticles [plain (paragraphsCiting 10 3)])
                (withArticles [plain (paragraphsCiting 10 5)])) as H.
  cbv zeta in H.
  assert (Hp : paragraphBlocks (articles (withArticles [plain (paragraphsCiting 10 3)]))
               = paragraphBlocks (articles (withArticles [plain (paragraphsCiting 10 5)])))
    by (vm_compute; reflexivity).
  assert (Hc : (citationMarkers (articles (withArticles [plain (paragraphsCiting 10 3)]))
               <= citationMarkers
                    (articles (withArticles [plain (paragraphsCiting 10 5)])))%nat)
    by (vm_compute; lia).
  specialize (H Hp Hc).
  assert (Hk : claims_score (findUnsupportedClaims
                  (articles (withArticles [plain (paragraphsCiting 10 3)])))
               == claims_score (findUnsupportedClaims
                   (articles (withArticles [plain (paragraphsCiting 10 5)]))))
    by (vm_compute; reflexivity).
  specialize (H Hk (Qeq_refl _) (Qeq_refl _)).
  destruct H as (_ & _ & H1 & H2 & _ & _ & H4 & _).
  split; [exact H1|]. split; [exact H2|].
  apply H4; vm_compute; reflexivity.
Defined.

End SignalAlignment.

Section OverallCoherence.

Import CoherenceCheck Lra.
Local Open Scope R_scope.

Lemma pow_weight_one (x : R) : 0 <= x -> pow x 1 = x.
Proof.
  intros Hx. unfold pow. destruct (Req_dec_T x 0) as [-> | Hne].
  - destruct (Req_dec_T 1 0) as [H | _]; [lra|reflexivity].
  - apply Rpower_1. lra.
Qed.

Lemma pow_quarter (p : R) : 0 <= p -> pow p (/ 4) = sqrt (sqrt p).
Proof.
  intros Hp. unfold pow. destruct (Req_dec_T p 0) as [-> | Hne].
  - destruct (Req_dec_T (/ 4) 0) as [H | _]; [lra|].
    now rewrite sqrt_0, sqrt_0.
  - assert (Hpos : 0 < p) by lra.
    replace (/ 4) with (/ 2 * / 2) by lra.
    rewrite <- Rpower_mult, (Rpower_sqrt p Hpos).
    apply Rpower_sqrt. now apply sqrt_lt_R0.
Qed.

Lemma product_bounds (a b c d : R) :
  0 <= a <= 1 -> 0 <= b <= 1 -> 0 <= c <= 1 -> 0 <= d <= 1 ->
  0 <= a * b * c * d <= 1.
Proof.
  intros Ha Hb Hc Hd.
  assert (Hab : 0 <= a * b <= 1) by nra.
  assert (Habc : 0 <= a * b * c <= 1) by nra.
  nra.
Qed.

Lemma geometricMean_fourth_power (a b c d : R) :
  0 <= a * b * c * d ->
  geometricMean a b c d * geometricMean a b c d
  * (geometricMean a b c d * geometricMean a b c d) = a * b * c * d.
Proof.
  intros Hp. unfold geometricMean.
  rewrite sqrt_sqrt by apply sqrt_pos. now apply sqrt_sqrt.
Qed.

(** With the weights at 1.0 the script computes the fourth root of the
    product. *)
Lemma calculateOverallCoherence_fourth_root (S F B L : R) :
  0 <= S -> 0 <= F -> 0 <= B -> 0 <= L ->
  calculateOverallCoherence S F B L = geometricMean S F B L.
Proof.
  intros HS HF HB HL.
  assert (Hp : 0 <= S * F * B * L).
  { repeat apply Rmult_le_pos; assumption. }
  unfold calculateOverallCoherence, weights_signal, weights_feedback,
    weights_bounded, weights_elastic, geometricMean.
  rewrite !pow_weight_one by assumption.
  replace (1 / (1 + 1 + 1 + 1)) with (/ 4) by lra.
  now apply pow_quarter.
Qed.

(** C1. With the configured weights, all 1.0, the overall coherence of
    four sub-scores in [0, 1] is their plain geometric mean, the fourth
    root of their product; it lies in [0, 1] and is 0 as soon as one
    of the four is 0. *)
Theorem calculateOverallCoherence_geometric_mean (S F B L : R) :
  0 <= S <= 1 -> 0 <= F <= 1 -> 0 <= B <= 1 -> 0 <= L <= 1 ->
  calculateOverallCoherence S F B L = geometricMean S F B L
  /\ geometricMean S F B L * geometricMean S F B L
     * (geometricMean S F B L * geometricMean S F B L) = S * F * B * L
  /\ 0 <= calculateOverallCoherence S F B L <= 1
  /\ (S = 0 \/ F = 0 \/ B = 0 \/ L = 0 -> calculateOverallCoherence S F B L = 0).
Proof.
  intros HS HF HB HL.
  pose proof (product_bounds HS HF HB HL) as Hp.
  assert (Heq : calculateOverallCoherence S F B L = geometricMean S F B L)
    by (apply calculateOverallCoherence_fourth_root; lra).
  split; [exact Heq|].
  split; [apply geometricMean_fourth_power; lra|].
  rewrite Heq. unfold geometricMean. split; [split|].
  - apply sqrt_pos.
  - assert (H1 : sqrt (S * F * B * L) <= 1).
    { apply Rle_trans with (sqrt 1); [apply sqrt_le_1_alt; lra|].
      rewrite sqrt_1. lra. }
    apply Rle_trans with (sqrt 1); [now apply sqrt_le_1_alt|].
    rewrite sqrt_1. lra.
  - intros Hz.
    assert (H0 : S * F * B * L = 0).
    { destruct Hz as [-> | [-> | [-> | ->]]]; ring. }
    now rewrite H0, sqrt_0, sqrt_0.
Qed.

Lemma calculateOverallCoherence_geometric_mean_witness :
  calculateOverallCoherence (1 / 2) (9 / 10) 0 1 = 0
  /\ 0 <= calculateOverallCoherence (1 / 4) 1 1 (1 / 4) <= 1.
Proof.
  assert (Hhalf : 0 <= 1 / 2 <= 1) by lra.
  assert (Hnine : 0 <= 9 / 10 <= 1) by lra.
  assert (Hquarter : 0 <= 1 / 4 <= 1) by lra.
  assert (Hzero : 0 <= 0 <= 1) by lra.
  assert (Hone : 0 <= 1 <= 1) by lra.
  split.
  - exact (proj2 (proj2 (proj2
             (calculateOverallCoherence_geometric_mean Hhalf Hnine Hzero Hone)))
             (or_intror (or_intror (or_introl eq_refl)))).
  - exact (proj1 (proj2 (proj2
             (calculateOverallCoherence_geometric_mean Hquarter Hone Hone Hquarter)))).
Defined.

End OverallCoherence.

Section UnsupportedClaims.

Import CoherenceCheck.
Local Open Scope Q_scope.

Example split_sentences :
  split sentenceBreak "A b.  C d. E." = ["A b"; "C d"; "E."].
Proof. reflexivity. Qed.

(** The [lastIndex] a match leaves behind hides a claim word that comes
    earlier in the next sentence. *)
Example testGlobal_carries_lastIndex :
  testGlobal claimRegex 0 "The survey data shows growth [^1]" = (true, 21%nat)
  /\ testGlobal claimRegex 21 "This proves nothing." = (false, 0%nat)
  /\ testGlobal claimRegex 0 "This proves nothing." = (true, 11%nat).
Proof. repeat split. Qed.

(** The score is 1 - min(1, 2 * unsupportedRate) of the rate the
    function arrives at. *)
Lemma claims_score_formula (arts : list article) :
  let r := findUnsupportedClaims arts in
  claims_score r == 1 - Qmin 1 (unsupportedRate r * 2)
  /\ (claims_total r = 10%nat -> claims_unsupported r = 7%nat ->
      unsupportedRate r == 7 # 10 /\ claims_score r == 0).
Proof.
  intros r.
  assert (Hs : claims_score r = clamp01 (1 - Qmin 1 (unsupportedRate r * 2)))
    by reflexivity.
  assert (Hr : unsupportedRate r
               = if (0 <? claims_total r)%nat
                 then num (claims_unsupported r) / num (claims_total r) else 0)
    by reflexivity.
  assert (Hnn : 0 <= unsupportedRate r).
  { rewrite Hr. destruct (0 <? claims_total r)%nat eqn:E; [|lra].
    apply Nat.ltb_lt in E. apply Qle_shift_div_l; [now apply num_pos|].
    rewrite Qmult_0_l. apply num_nonneg. }
  split.
  - rewrite Hs. apply clamp01_id. split.
    + pose proof (Q.le_min_l 1 (unsupportedRate r * 2)). lra.
    + assert (0 <= Qmin 1 (unsupportedRate r * 2)) by (apply Q.min_glb; lra). lra.
  - intros Ht Hu.
    assert (Hrate : unsupportedRate r == 7 # 10).
    { rewrite Hr, Ht, Hu. reflexivity. }
    split; [exact Hrate|].
    rewrite Hs.
    assert (Hmin : Qmin 1 (unsupportedRate r * 2) == 1).
    { apply Q.min_l. rewrite Hrate. now compute. }
    unfold clamp01.
    assert (Hz : 1 - Qmin 1 (unsupportedRate r * 2) == 0) by (rewrite Hmin; reflexivity).
    rewrite (Q.min_r 1 _) by (rewrite Hz; now compute).
    rewrite Q.max_l; [reflexivity|]. rewrite Hz. apply Qle_refl.
Qed.

(** C3 (the script departs from it). On a text of two claim sentences,
    the first cited and the second not, the script counts one claim,
    none unsupported, and scores 1, where the wording makes it two
    claims, one unsupported, rate 0.5 and score 0: the pattern carries
    the [g] flag, so after a match the next [test] starts at the
    [lastIndex] left behind and misses the claim word of the second
    sentence.  On ten claim sentences, three of them supported, the
    script counts five claims, none unsupported, and scores 1 instead
    of rate 0.7 and score 0: besides the skipped sentences, the
    follower of a repeated sentence is looked up with [indexOf], which
    finds the follower of its first occurrence. *)
Theorem findUnsupportedClaims_misses_claims :
  (split sentenceBreak (content twoClaims)
     = ["The survey data shows growth [^1]"; "This proves nothing."]
   /\ test claimRegex "The survey data shows growth [^1]" = true
   /\ test claimRegex "This proves nothing." = true
   /\ claimsAsSpecified [twoClaims] = (2%nat, 1%nat)
   /\ scoreAsSpecified [twoClaims] == 0
   /\ claims_total (findUnsupportedClaims [twoClaims]) = 1%nat
   /\ claims_unsupported (findUnsupportedClaims [twoClaims]) = 0%nat
   /\ claims_score (findUnsupportedClaims [twoClaims]) == 1)
  /\ (claimsAsSpecified [tenClaims] = (10%nat, 7%nat)
      /\ scoreAsSpecified [tenClaims] == 0
      /\ claims_total (findUnsupportedClaims [tenClaims]) = 5%nat
      /\ claims_unsupported (findUnsupportedClaims [tenClaims]) = 0%nat
      /\ unsupportedRate (findUnsupportedClaims [tenClaims]) == 0
      /\ claims_score (findUnsupportedClaims [tenClaims]) == 1).
Proof.
  repeat split; vm_compute; reflexivity.
Qed.

End UnsupportedClaims.

Section Runs.

Import CoherenceCheck.


Lemma compileScopePatterns_cases (w : repository) :
  compileScopePatterns w = Ok tt \/ exists m, compileScopePatterns w = Throw m.
Proof.
  destruct (compileScopePatterns w) as [[]|m]; [now left|right; now exists m].
Qed.

(** A run in which every pattern compiles writes its report. *)
Lemma checkCoherence_done (w : repository) :
  compileScopePatterns w = Ok tt ->
  checkCoherence w
  = let overallScore :=
      calculateOverallCoherence (Q2R (calculateSignalAlignment w))
        (Q2R (calculateFeedbackResponsiveness w))
        (Q2R (calculateBoundedIntegrity w)) (Q2R calculateElasticTolerance) in
    {| coherenceOutput :=
         Some {| overallScore := overallScore;
                 signalAlignment := calculateSignalAlignment w;
                 feedbackResponsiveness := calculateFeedbackResponsiveness w;
                 boundedIntegrity := calculateBoundedIntegrity w;
                 elasticTolerance := calculateElasticTolerance |};
       exitCode := if Rlt_dec overallScore thresholds_overall then 1%nat else 0%nat |}.
Proof.
  intros H. unfold checkCoherence, calculateComponents. now rewrite H.
Qed.

(** A run in which a pattern does not compile ends in the [catch]. *)
Lemma checkCoherence_caught (w : repository) (m : string) :
  compileScopePatterns w = Throw m ->
  checkCoherence w = {| coherenceOutput := None; exitCode := 1%nat |}.
Proof.
  intros H. unfold checkCoherence, calculateComponents. now rewrite H.
Qed.


End Runs.

Section FeedbackResponsiveness.

Import CoherenceCheck.
Local Open Scope Q_scope.








End FeedbackResponsiveness.

Section EmptyRepository.

Import CoherenceCheck Lra.
Local Open Scope R_scope.

Lemma empty_signal (w : repository) :
  isEmptyRepository w -> calculateSignalAlignment w = calculateSignalAlignment emptyRepository.
Proof.
  intros (Ha & Hd & Hr & Hc & Hres & _).
  unfold calculateSignalAlignment, analyzeDataIntegrity, evaluateCodeConsistency.
  now rewrite Ha, Hd, Hr, Hc, Hres.
Qed.

Lemma empty_feedback (w : repository) :
  isEmptyRepository w ->
  calculateFeedbackResponsiveness w = calculateFeedbackResponsiveness emptyRepository.
Proof.
  intros (_ & _ & _ & _ & _ & Ho & Hc & Hp & [m Hg]).
  unfold calculateFeedbackResponsiveness, analyzeOpenIssues, tryAnalyzeOpenIssues,
    analyzeIssueResolution, tryAnalyzeIssueResolution,
    analyzePRReviews, tryAnalyzePRReviews, analyzeContentHistory.
  now rewrite Ho, Hc, Hp, Hg.
Qed.

Lemma empty_bounded (w : repository) :
  isEmptyRepository w ->
  calculateBoundedIntegrity w = calculateBoundedIntegrity emptyRepository.
Proof.
  intros (Ha & _).
  unfold calculateBoundedIntegrity, analyzeScopeIntegrity, analyzeTopicDrift,
    uniqueScopes.
  now rewrite Ha.
Qed.

(** Without an article there is no scope term, and no pattern to
    compile. *)
Lemma empty_scopes (w : repository) :
  isEmptyRepository w -> uniqueScopes w = [] /\ compileScopePatterns w = Ok tt.
Proof.
  intros (Ha & _).
  assert (E : uniqueScopes w = []) by (unfold uniqueScopes; now rewrite Ha).
  split; [exact E|]. unfold compileScopePatterns. now rewrite E.
Qed.

Lemma fourth_root_below (p t : R) : 0 <= p -> 0 <= t -> p < t * t * (t * t) -> sqrt (sqrt p) < t.
Proof.
  intros Hp Ht Hlt.
  assert (Htt : 0 <= t * t) by nra.
  apply Rlt_le_trans with (sqrt (t * t)); [|rewrite (sqrt_square t Ht); lra].
  apply sqrt_lt_1_alt. split; [apply sqrt_pos|].
  apply Rlt_le_trans with (sqrt (t * t * (t * t)));
    [|rewrite (sqrt_square (t * t) Htt); lra].
  apply sqrt_lt_1_alt. split; [exact Hp|exact Hlt].
Qed.

(** C7 (amended). On an empty repository no calculation of the check
    throws: there is no scope term whose pattern could fail to
    compile.  The four sub-scores are fixed numbers, 0.5 for signal
    alignment, 0.9 for feedback responsiveness, 0.59 for bounded
    integrity and 0.7875 for elastic tolerance, which mix the neutral
    0.5 of the factors that have nothing to analyse with the scores of
    the other factors; the overall score is their geometric mean,
    which is below the threshold 0.7 of the script and so below the
    publication threshold 0.8 of the workflow; [checkCoherence] writes
    its report and exits with code 1.  This is of the script with the
    repeated line of [analyzeTopicDrift] taken out: as it stands in
    the bundle the script does not parse, and no run gets this far. *)
Theorem empty_repository_run (w : repository) :
  isEmptyRepository w ->
  uniqueScopes w = []
  /\ compileScopePatterns w = Ok tt
  /\ exists report,
       checkCoherence w = {| coherenceOutput := Some report; exitCode := 1 |}
       /\ (signalAlignment report == 1 # 2)%Q
       /\ (feedbackResponsiveness report == 9 # 10)%Q
       /\ (boundedIntegrity report == 59 # 100)%Q
       /\ (elasticTolerance report == 7875 # 10000)%Q
       /\ overallScore report
          = geometricMean (1 / 2) (9 / 10) (59 / 100) (7875 / 10000)
       /\ overallScore report < thresholds_overall
       /\ overallScore report < 8 / 10.
Proof.
  intros H.
  destruct (empty_scopes H) as [Hu Hc].
  split; [exact Hu|]. split; [exact Hc|].
  pose proof (empty_signal H) as Hs.
  pose proof (empty_feedback H) as Hf.
  pose proof (empty_bounded H) as Hb.
  assert (HS : Q2R (calculateSignalAlignment w) = 1 / 2).
  { rewrite Hs. vm_compute calculateSignalAlignment. unfold Q2R; simpl. lra. }
  assert (HF : Q2R (calculateFeedbackResponsiveness w) = 9 / 10).
  { rewrite Hf. vm_compute calculateFeedbackResponsiveness. unfold Q2R; simpl. lra. }
  assert (HB : Q2R (calculateBoundedIntegrity w) = 59 / 100).
  { rewrite Hb. vm_compute calculateBoundedIntegrity. unfold Q2R; simpl. lra. }
  assert (HL : Q2R calculateElasticTolerance = 7875 / 10000).
  { vm_compute calculateElasticTolerance. unfold Q2R; simpl. lra. }
  assert (Ho : calculateOverallCoherence (Q2R (calculateSignalAlignment w))
                 (Q2R (calculateFeedbackResponsiveness w))
                 (Q2R (calculateBoundedIntegrity w)) (Q2R calculateElasticTolerance)
               = geometricMean (1 / 2) (9 / 10) (59 / 100) (7875 / 10000)).
  { rewrite HS, HF, HB, HL.
    apply calculateOverallCoherence_fourth_root; lra. }
  assert (Hlt : geometricMean (1 / 2) (9 / 10) (59 / 100) (7875 / 10000) < 7 / 10).
  { unfold geometricMean. apply fourth_root_below; lra. }
  eexists. split; [|split; [|split; [|split; [|split; [|split]]]]].
  - rewrite (@checkCoherence_done w Hc). cbv zeta. rewrite Ho.
    destruct (Rlt_dec _ thresholds_overall) as [_ | Hn]; [reflexivity|].
    exfalso. apply Hn. exact Hlt.
  - simpl. rewrite Hs. vm_compute. reflexivity.
  - simpl. rewrite Hf. vm_compute. reflexivity.
  - simpl. rewrite Hb. vm_compute. reflexivity.
  - simpl. vm_compute. reflexivity.
  - reflexivity.
  - split; [exact Hlt|]. simpl. lra.
Qed.

Lemma empty_repository_run_witness :
  isEmptyRepository emptyRepository
  /\ exitCode (checkCoherence emptyRepository) = 1%nat.
Proof.
  assert (H : isEmptyRepository emptyRepository).
  { unfold isEmptyRepository; simpl. repeat split; try reflexivity.
    eexists; reflexivity. }
  split; [exact H|].
  destruct (empty_repository_run H) as (_ & _ & report & Hrun & _).
  rewrite Hrun. reflexivity.
Defined.

(** C7, as stated, fails: on the empty repository three of the four
    sub-scores are not the neutral 0.5, and the factors behind them are
    not all neutral either: the open-issue factor has the perfect score
    1 and the citation factor the score 0. *)
Lemma empty_repository_not_neutral :
  isEmptyRepository emptyRepository
  /\ ~ (calculateFeedbackResponsiveness emptyRepository == 1 # 2)%Q
  /\ ~ (calculateBoundedIntegrity emptyRepository == 1 # 2)%Q
  /\ ~ (calculateElasticTolerance == 1 # 2)%Q
  /\ (openIssues_score (analyzeOpenIssues emptyRepository) == 1)%Q
  /\ (citation_score (analyzeArticleCitations (articles emptyRepository)) == 0)%Q.
Proof.
  split.
  { unfold isEmptyRepository; simpl. repeat split; try reflexivity.
    eexists; reflexivity. }
  repeat split; try (vm_compute; reflexivity); vm_compute; discriminate.
Qed.

End EmptyRepository.

(* ===================================================================== *)
(** * Idempotence of the attribution graph builder *)
(* ===================================================================== *)

Section Idempotence.

Import AttributionMap.

Lemma covers_refl (g : graph) : covers g g.
Proof. split; auto. Qed.

Lemma covers_trans (g1 g2 g3 : graph) : covers g1 g2 -> covers g2 g3 -> covers g1 g3.
Proof. intros [H1 H2] [H3 H4]. split; auto. Qed.

Lemma sameLink_refl (l : link) : sameLink l l = true.
Proof. unfold sameLink. now rewrite !String.eqb_refl. Qed.

Lemma hasLink_app (g : graph) (l k : link) :
  hasLink {| nodes := nodes g; links := links g ++ [l];
             graph_metrics := graph_metrics g |} k
  = hasLink g k || sameLink l k.
Proof.
  unfold hasLink; simpl. rewrite existsb_app. simpl. now rewrite orb_false_r.
Qed.

Lemma settles_skip : settles skip.
Proof. split; [intros g; apply covers_refl | reflexivity]. Qed.

Lemma settles_throw : settles throw.
Proof. split; [intros g; apply covers_refl | reflexivity]. Qed.

Lemma settles_addContributorNode (c : contributor) : settles (addContributorNode c).
Proof.
  unfold settles, addContributorNode.
  destruct (if String.eqb (contributor_name c) "" then contributor_github c
            else Some (contributor_name c)) as [k|].
  2: { split; [intros g; apply covers_refl | reflexivity]. }
  split.
  - intros g. destruct (hasNode g (nodeId "contributor" k)); simpl;
      [apply covers_refl|].
    split; [|auto]. intros i Hi. rewrite hasNode_app, Hi. reflexivity.
  - intros g g' [Hn _].
    assert (H : hasNode g' (nodeId "contributor" k) = true).
    { apply Hn. destruct (hasNode g (nodeId "contributor" k)) eqn:E; simpl;
        [exact E|].
      rewrite hasNode_app. simpl. now rewrite String.eqb_refl, orb_true_r. }
    rewrite H. now destruct (hasNode g (nodeId "contributor" k)).
Qed.

Lemma settles_addContentNode (c : contentRef) : settles (addContentNode c).
Proof.
  unfold settles, addContentNode. split.
  - intros g. destruct (hasNode g (nodeId "content" (content_path c))); simpl;
      [apply covers_refl|].
    split; [|auto]. intros i Hi. rewrite hasNode_app, Hi. reflexivity.
  - intros g g' [Hn _].
    assert (H : hasNode g' (nodeId "content" (content_path c)) = true).
    { apply Hn. destruct (hasNode g (nodeId "content" (content_path c))) eqn:E; simpl;
        [exact E|].
      rewrite hasNode_app. simpl. now rewrite String.eqb_refl, orb_true_r. }
    rewrite H. now destruct (hasNode g (nodeId "content" (content_path c))).
Qed.

Lemma settles_addLink (l : link) : settles (addLink l).
Proof.
  unfold settles, addLink. split.
  - intros g. destruct (hasLink g l); simpl; [apply covers_refl|].
    split; [auto|]. intros k Hk. rewrite hasLink_app, Hk. reflexivity.
  - intros g g' [_ Hl].
    assert (H : hasLink g' l = true).
    { apply Hl. destruct (hasLink g l) eqn:E; simpl; [exact E|].
      rewrite hasLink_app, sameLink_refl. now rewrite orb_true_r. }
    rewrite H. now destruct (hasLink g l).
Qed.

Lemma settles_andThen (p q : step) : settles p -> settles q -> settles (andThen p q).
Proof.
  intros [Hp1 Hp2] [Hq1 Hq2]. unfold andThen. split.
  - intros g. specialize (Hp1 g). destruct (p g) as [g1 | g1]; simpl in *.
    + eapply covers_trans; [exact Hp1|apply Hq1].
    + exact Hp1.
  - intros g g' Hc. specialize (Hp2 g g'). specialize (Hq1 (graphOf (p g))).
    destruct (p g) as [g1 | g1] eqn:E; simpl in *.
    + rewrite Hp2 by (eapply covers_trans; [exact Hq1|exact Hc]).
      now apply Hq2.
    + now rewrite Hp2.
Qed.

Lemma settles_forEach {A : Type} (body : A -> step) (xs : list A) :
  (forall x, settles (body x)) -> settles (forEach body xs).
Proof.
  intros H. induction xs as [|x xs IH]; simpl.
  - apply settles_skip.
  - apply settles_andThen; [apply H|exact IH].
Qed.

Lemma settles_tryCatch (p : step) : settles p -> settles (tryCatch p).
Proof.
  intros [H1 H2]. unfold tryCatch. split.
  - intros g. apply H1.
  - intros g g' Hc. simpl in *. rewrite (H2 g g' Hc).
    now destruct (p g).
Qed.

Create HintDb settle.

#[local] Hint Resolve settles_skip settles_throw settles_addContributorNode
  settles_addContentNode settles_addLink : settle.

Lemma settles_mapFile (c : commit) (f : fileStat) : settles (mapFile c f).
Proof.
  unfold mapFile. apply settles_andThen; [auto with settle|].
  destruct (isoTime c); auto with settle.
Qed.

Lemma settles_mapCommit (c : commit) : settles (mapCommit c).
Proof.
  unfold mapCommit. apply settles_andThen; [auto with settle|].
  apply settles_forEach, settles_mapFile.
Qed.

Lemma settles_mapComment (contentPath : string) (c : comment) :
  settles (mapComment contentPath c).
Proof. unfold mapComment. apply settles_andThen; auto with settle. Qed.

Lemma settles_mapReview (contentPath : string) (r : review) :
  settles (mapReview contentPath r).
Proof. unfold mapReview. apply settles_andThen; auto with settle. Qed.

Lemma settles_mapIssue (a : activity) (i : issue) : settles (mapIssue a i).
Proof.
  unfold mapIssue. destruct (pull_request i); [apply settles_skip|].
  do 3 (apply settles_andThen; [auto with settle|]).
  destruct (fetchIssueComments a (issue_number i)); [|apply settles_throw].
  apply settles_forEach, settles_mapComment.
Qed.

Lemma settles_mapPR (a : activity) (pr : pullRequest) : settles (mapPR a pr).
Proof.
  unfold mapPR.
  do 3 (apply settles_andThen; [auto with settle|]).
  apply settles_andThen.
  - destruct (fetchPRReviews a (pr_number pr)); [|apply settles_throw].
    apply settles_forEach, settles_mapReview.
  - destruct (fetchPRComments a (pr_number pr)); [|apply settles_throw].
    apply settles_forEach, settles_mapComment.
Qed.

Lemma settles_mapContributions (a : activity) : settles (mapContributions a).
Proof.
  unfold mapContributions, mapCodeContributions, mapIssueContributions,
    mapPRContributions, mapDiscussionContributions.
  apply settles_andThen; [apply settles_tryCatch|].
  2: apply settles_andThen; [apply settles_tryCatch|].
  3: apply settles_andThen; apply settles_tryCatch.
  - destruct (gitLog a); [|apply settles_throw].
    apply settles_forEach, settles_mapCommit.
  - destruct (fetchAllIssues a); [|apply settles_throw].
    apply settles_forEach, settles_mapIssue.
  - destruct (fetchAllPullRequests a); [|apply settles_throw].
    apply settles_forEach, settles_mapPR.
  - apply settles_skip.
Qed.

(** The passes catch what they throw: the run always reaches the metrics. *)
Lemma mapContributions_done (a : activity) (g : graph) :
  exists g', mapContributions a g = Done g'.
Proof.
  unfold mapContributions, andThen, mapCodeContributions, mapIssueContributions,
    mapPRContributions, mapDiscussionContributions, tryCatch.
  eexists. reflexivity.
Qed.

Lemma id_countContributions (ls : list link) (n : node) :
  id (countContributions ls n) = id n.
Proof. unfold countContributions. now destruct (isContributor n). Qed.

Lemma isContributor_countContributions (ls : list link) (n : node) :
  isContributor (countContributions ls n) = isContributor n.
Proof.
  unfold countContributions. destruct (isContributor n) eqn:E; [|exact E].
  exact E.
Qed.

Lemma countContributions_idem (ls : list link) (n : node) :
  countContributions ls (countContributions ls n) = countContributions ls n.
Proof.
  unfold countContributions at 1. rewrite isContributor_countContributions.
  destruct (isContributor n) eqn:E.
  - unfold countContributions. rewrite E. reflexivity.
  - unfold countContributions. now rewrite E.
Qed.

Lemma filter_length_map {A : Type} (f : A -> bool) (h : A -> A) (l : list A) :
  (forall x, f (h x) = f x) ->
  List.length (filter f (map h l)) = List.length (filter f l).
Proof.
  intros H. induction l as [|x l IH]; simpl; [reflexivity|].
  rewrite H. destruct (f x); simpl; now rewrite IH.
Qed.

Lemma hasNode_metrics (g : graph) (i : string) :
  hasNode (calculateAttributionMetrics g) i = hasNode g i.
Proof.
  unfold hasNode; simpl. induction (nodes g) as [|n ns IH]; simpl; [reflexivity|].
  now rewrite id_countContributions, IH.
Qed.

Lemma covers_metrics (g : graph) : covers g (calculateAttributionMetrics g).
Proof.
  split; [intros i Hi; now rewrite hasNode_metrics | auto].
Qed.

(** Counting again, on the same links, changes nothing. *)
Lemma calculateAttributionMetrics_idem (g : graph) :
  calculateAttributionMetrics (calculateAttributionMetrics g)
  = calculateAttributionMetrics g.
Proof.
  unfold calculateAttributionMetrics; simpl.
  rewrite map_map, length_map.
  rewrite !filter_length_map
    by (intros x; now rewrite isContributor_countContributions).
  f_equal. apply map_ext. intros n. apply countContributions_idem.
Qed.

Lemma generateAttributionMap_passes (a : activity) (g : graph) :
  generateAttributionMap a g
  = calculateAttributionMetrics (graphOf (mapContributions a g)).
Proof. reflexivity. Qed.

Lemma generateAttributionMap_again (a : activity) (g : graph) :
  generateAttributionMap a (generateAttributionMap a g) = generateAttributionMap a g.
Proof.
  rewrite !generateAttributionMap_passes.
  destruct (settles_mapContributions a) as [_ Hs].
  rewrite (Hs g (calculateAttributionMetrics (graphOf (mapContributions a g))))
    by apply covers_metrics.
  destruct (mapContributions a g); simpl; apply calculateAttributionMetrics_idem.
Qed.

(** ** No duplicates *)

Lemma hasNode_In (g : graph) (i : string) :
  hasNode g i = true <-> In i (map id (nodes g)).
Proof.
  unfold hasNode. rewrite existsb_exists, in_map_iff. split.
  - intros [n [Hn He]]. apply String.eqb_eq in He. now exists n.
  - intros [n [He Hn]]. exists n. split; [exact Hn|now apply String.eqb_eq].
Qed.

Lemma sameLink_key (l k : link) : sameLink l k = true <-> linkKey l = linkKey k.
Proof.
  unfold sameLink, linkKey. rewrite !andb_true_iff, !String.eqb_eq. split.
  - intros [[[-> ->] ->] ->]. reflexivity.
  - intros H. inversion H. auto.
Qed.

Lemma hasLink_In (g : graph) (l : link) :
  hasLink g l = true <-> In (linkKey l) (map linkKey (links g)).
Proof.
  unfold hasLink. rewrite existsb_exists, in_map_iff. split.
  - intros [k [Hk He]]. apply sameLink_key in He. now exists k.
  - intros [k [He Hk]]. exists k. split; [exact Hk|now apply sameLink_key].
Qed.

Lemma NoDup_snoc {A : Type} (l : list A) (x : A) :
  NoDup l -> ~ In x l -> NoDup (l ++ [x]).
Proof.
  intros Hl Hx. apply NoDup_rev in Hl.
  rewrite <- (rev_involutive (l ++ [x])). apply NoDup_rev.
  rewrite rev_app_distr. simpl. constructor; [|exact Hl].
  now rewrite <- in_rev.
Qed.

Lemma keeps_addContributorNode (c : contributor) : keeps (addContributorNode c).
Proof.
  intros g [Hn Hl]. unfold addContributorNode.
  destruct (if String.eqb (contributor_name c) "" then contributor_github c
            else Some (contributor_name c)) as [k|]; [|now split].
  destruct (hasNode g (nodeId "contributor" k)) eqn:E; [now split|].
  split; [|exact Hl]. cbn [graphOf nodes]. rewrite map_app.
  apply NoDup_snoc; [exact Hn|]. cbn [map id].
  rewrite <- hasNode_In. congruence.
Qed.

Lemma keeps_addContentNode (c : contentRef) : keeps (addContentNode c).
Proof.
  intros g [Hn Hl]. unfold addContentNode.
  destruct (hasNode g (nodeId "content" (content_path c))) eqn:E; [now split|].
  split; [|exact Hl]. cbn [graphOf nodes]. rewrite map_app.
  apply NoDup_snoc; [exact Hn|]. cbn [map id].
  rewrite <- hasNode_In. congruence.
Qed.

Lemma keeps_addLink (l : link) : keeps (addLink l).
Proof.
  intros g [Hn Hl]. unfold addLink.
  destruct (hasLink g l) eqn:E; [now split|].
  split; [exact Hn|]. cbn [graphOf links]. rewrite map_app.
  apply NoDup_snoc; [exact Hl|]. cbn [map].
  rewrite <- hasLink_In. congruence.
Qed.

Lemma keeps_skip : keeps skip.
Proof. intros g H. exact H. Qed.

Lemma keeps_throw : keeps throw.
Proof. intros g H. exact H. Qed.

Lemma keeps_andThen (p q : step) : keeps p -> keeps q -> keeps (andThen p q).
Proof.
  intros Hp Hq g H. unfold andThen. specialize (Hp g H).
  destruct (p g) as [g1 | g1]; simpl in *; [now apply Hq|exact Hp].
Qed.

Lemma keeps_forEach {A : Type} (body : A -> step) (xs : list A) :
  (forall x, keeps (body x)) -> keeps (forEach body xs).
Proof.
  intros H. induction xs as [|x xs IH]; simpl;
    [apply keeps_skip|apply keeps_andThen; [apply H|exact IH]].
Qed.

Lemma keeps_tryCatch (p : step) : keeps p -> keeps (tryCatch p).
Proof. intros Hp g H. exact (Hp g H). Qed.

#[local] Hint Resolve keeps_skip keeps_throw keeps_addContributorNode
  keeps_addContentNode keeps_addLink : settle.

Lemma keeps_mapComment (contentPath : string) (c : comment) :
  keeps (mapComment contentPath c).
Proof. unfold mapComment. apply keeps_andThen; auto with settle. Qed.

Lemma keeps_mapContributions (a : activity) : keeps (mapContributions a).
Proof.
  unfold mapContributions, mapCodeContributions, mapIssueContributions,
    mapPRContributions, mapDiscussionContributions.
  apply keeps_andThen; [apply keeps_tryCatch|].
  2: apply keeps_andThen; [apply keeps_tryCatch|].
  3: apply keeps_andThen; apply keeps_tryCatch.
  - destruct (gitLog a); [|apply keeps_throw].
    apply keeps_forEach. intros c. unfold mapCommit.
    apply keeps_andThen; [auto with settle|].
    apply keeps_forEach. intros f. unfold mapFile.
    apply keeps_andThen; [auto with settle|].
    destruct (isoTime c); auto with settle.
  - destruct (fetchAllIssues a); [|apply keeps_throw].
    apply keeps_forEach. intros i. unfold mapIssue.
    destruct (pull_request i); [apply keeps_skip|].
    do 3 (apply keeps_andThen; [auto with settle|]).
    destruct (fetchIssueComments a (issue_number i)); [|apply keeps_throw].
    apply keeps_forEach, keeps_mapComment.
  - destruct (fetchAllPullRequests a); [|apply keeps_throw].
    apply keeps_forEach. intros pr. unfold mapPR.
    do 3 (apply keeps_andThen; [auto with settle|]).
    apply keeps_andThen.
    + destruct (fetchPRReviews a (pr_number pr)); [|apply keeps_throw].
      apply keeps_forEach. intros r. unfold mapReview.
      apply keeps_andThen; auto with settle.
    + destruct (fetchPRComments a (pr_number pr)); [|apply keeps_throw].
      apply keeps_forEach, keeps_mapComment.
  - apply keeps_skip.
Qed.

Lemma generateAttributionMap_noDuplicates (a : activity) (g : graph) :
  noDuplicates g -> noDuplicates (generateAttributionMap a g).
Proof.
  intros H. rewrite generateAttributionMap_passes.
  destruct (keeps_mapContributions a H) as [Hn Hl].
  split; simpl; [|exact Hl].
  rewrite map_map. erewrite map_ext; [exact Hn|].
  intros n. apply id_countContributions.
Qed.

(** C2. A second run of the builder on the same activity leaves the
    saved graph as the first run left it: the same nodes, with the same
    contribution counts, the same links and the same metrics, density
    included (the wall-clock [lastUpdated] is not part of the model).
    A contributor or content node whose identifier is in the graph is
    not added again, nor is a link whose source, target, type and
    timestamp are those of a link of the graph; and a graph without
    duplicate identifiers and link keys stays so. *)
Theorem generateAttributionMap_idempotent (a : activity) (g : graph) :
  let first := generateAttributionMap a g in
  let second := generateAttributionMap a first in
  second = first
  /\ map contributions (nodes second) = map contributions (nodes first)
  /\ densityOf second = densityOf first
  /\ option_map density (graph_metrics second) = option_map density (graph_metrics first)
  /\ (forall c k h, contributorKey c = Some k ->
        hasNode h (nodeId "contributor" k) = true -> addContributorNode c h = Done h)
  /\ (forall c h, hasNode h (nodeId "content" (content_path c)) = true ->
        addContentNode c h = Done h)
  /\ (forall l h, In (linkKey l) (map linkKey (links h)) -> addLink l h = Done h)
  /\ (noDuplicates g -> noDuplicates first /\ noDuplicates second).
Proof.
  intros first second.
  assert (H : second = first) by apply generateAttributionMap_again.
  split; [exact H|]. rewrite H.
  split; [reflexivity|]. split; [reflexivity|]. split; [reflexivity|].
  split; [|split; [|split]].
  - intros c k h Hk Hh. unfold addContributorNode. unfold contributorKey in Hk.
    now rewrite Hk, Hh.
  - intros c h Hh. unfold addContentNode. now rewrite Hh.
  - intros l h Hh. apply hasLink_In in Hh. unfold addLink. now rewrite Hh.
  - intros Hg. split; now apply generateAttributionMap_noDuplicates.
Qed.

(** Two commits by one author to one file on different days: one
    contributor node with two contributions, one content node, two
    links. *)
Example two_commits_one_author :
  let g := generateAttributionMap
             {| gitLog := gitLog sampleActivity;
                fetchAllIssues := Ok [];
                fetchIssueComments := fun _ => Ok [];
                fetchAllPullRequests := Ok [];
                fetchPRReviews := fun _ => Ok [];
                fetchPRComments := fun _ => Ok [] |} emptyGraph in
  map id (nodes g) = ["contributor:Ann_Lee"; "content:content_index_md"]
  /\ map contributions (nodes g) = [Some 2%nat; None]
  /\ map timestamp (links g) = ["2024-03-02T10:00:00.000Z"; "2024-03-01T09:00:00.000Z"]
  /\ densityOf g = Some (Finite (4 # 2)).
Proof. repeat split. Qed.

Lemma generateAttributionMap_idempotent_witness :
  noDuplicates emptyGraph
  /\ noDuplicates (generateAttributionMap sampleActivity emptyGraph)
  /\ generateAttributionMap sampleActivity
       (generateAttributionMap sampleActivity emptyGraph)
     = generateAttributionMap sampleActivity emptyGraph
  /\ addLink someLink (Graph [] [someLink] None) = Done (Graph [] [someLink] None).
Proof.
  assert (H : noDuplicates emptyGraph) by (split; constructor).
  pose proof (generateAttributionMap_idempotent sampleActivity emptyGraph) as T.
  cbv zeta in T.
  destruct T as [Hsame [_ [_ [_ [_ [_ [Hlink Hdup]]]]]]].
  split; [exact H|]. split; [exact (proj1 (Hdup H))|]. split; [exact Hsame|].
  apply Hlink. simpl. left. reflexivity.
Defined.

End Idempotence.

(* ===================================================================== *)
(** * Further properties of coherence-check.js *)
(* ===================================================================== *)

Section ScoreBounds.

Import CoherenceCheck.
Local Open Scope Q_scope.

(** A loop that keeps an invariant of its state, when it ends normally. *)
Lemma forOf_invariant {A S : Type} (P : S -> Prop) (body : S -> A -> result S)
    (xs : list A) :
  (forall s x s', P s -> body s x = Ok s' -> P s') ->
  forall s s', P s -> forOf body xs s = Ok s' -> P s'.
Proof.
  intros Hbody. induction xs as [|x xs IH]; intros s s' Hs Hrun; simpl in Hrun.
  - now inversion Hrun; subst.
  - destruct (body s x) as [s1 | m] eqn:E; simpl in Hrun; [|discriminate].
    apply (IH s1 s'); [|exact Hrun]. now apply (Hbody s x).
Qed.

(** A loop that counts some of its items counts no more than there are. *)
Lemma forOf_counts {A : Type} (body : nat -> A -> result nat) (xs : list A) :
  (forall n x n', body n x = Ok n' -> (n <= n' <= S n)%nat) ->
  forall s s', forOf body xs s = Ok s' -> (s <= s' <= s + List.length xs)%nat.
Proof.
  intros Hbody. induction xs as [|x xs IH]; intros s s' Hrun; simpl in Hrun.
  - inversion Hrun; subst. simpl. lia.
  - destruct (body s x) as [s1 | m] eqn:E; simpl in Hrun; [|discriminate].
    apply Hbody in E. apply IH in Hrun. simpl. lia.
Qed.

Lemma rate_bounds (a b : nat) :
  (a <= b)%nat ->
  0 <= (if (0 <? b)%nat then num a / num b else 1) <= 1.
Proof.
  intros H. destruct (0 <? b)%nat eqn:E; [|lra].
  apply Nat.ltb_lt in E. split.
  - apply Qle_shift_div_l; [now apply num_pos|].
    rewrite Qmult_0_l. apply num_nonneg.
  - apply Qle_shift_div_r; [now apply num_pos|].
    rewrite Qmult_1_l. now apply num_le.
Qed.

Lemma rate0_bounds (a b : nat) :
  (a <= b)%nat ->
  0 <= (if (0 <? b)%nat then num a / num b else 0) <= 1.
Proof.
  intros H. destruct (0 <? b)%nat eqn:E; [|lra].
  apply Nat.ltb_lt in E. split.
  - apply Qle_shift_div_l; [now apply num_pos|].
    rewrite Qmult_0_l. apply num_nonneg.
  - apply Qle_shift_div_r; [now apply num_pos|].
    rewrite Qmult_1_l. now apply num_le.
Qed.

Lemma filter_length_le {A : Type} (f : A -> bool) (l : list A) :
  (List.length (filter f l) <= List.length l)%nat.
Proof.
  induction l as [|x l IH]; simpl; [lia|]. destruct (f x); simpl; lia.
Qed.

Lemma openIssues_score_bounds (w : repository) :
  1 # 2 <= openIssues_score (analyzeOpenIssues w) <= 1.
Proof.
  unfold analyzeOpenIssues, tryAnalyzeOpenIssues.
  destruct (listOpenIssues w) as [openIssues | m]; simpl; [|lra].
  match goal with |- context [forOf ?b openIssues 0%nat] =>
    destruct (forOf b openIssues 0%nat) as [n | m] eqn:E end; simpl; [|lra].
  apply forOf_counts in E.
  - pose proof (@rate_bounds n (List.length openIssues)) as Hr.
    simpl in E. specialize (Hr (proj2 E)). lra.
  - intros k x k' Hk. destruct (listComments w (issue_number x)); simpl in Hk;
      [|discriminate].
    inversion Hk; subst.
    destruct (0 <? List.length (filter (isAuthorComment w) a))%nat; lia.
Qed.

Lemma issueResolution_score_bounds (w : repository) :
  1 # 2 <= issueResolution_score (analyzeIssueResolution w) <= 1.
Proof.
  unfold analyzeIssueResolution, tryAnalyzeIssueResolution.
  destruct (listClosedIssues w) as [closedIssues | m]; simpl; [|lra].
  match goal with |- context [forOf ?b closedIssues 0%nat] =>
    destruct (forOf b closedIssues 0%nat) as [n | m] eqn:E end; simpl; [|lra].
  apply forOf_counts in E.
  - pose proof (@rate_bounds n (List.length closedIssues)) as Hr.
    simpl in E. specialize (Hr (proj2 E)). lra.
  - intros k x k' Hk. destruct (gitLogGrep w (issue_number x)) as [stdout | m'];
      inversion Hk; subst; [destruct (nonBlank stdout)|]; lia.
Qed.

Lemma reviewPull_counts (w : repository) (counts counts' : nat * nat) (pr : pull) :
  (snd counts <= fst counts)%nat ->
  reviewPull w counts pr = Ok counts' ->
  (snd counts' <= fst counts')%nat.
Proof.
  intros H. unfold reviewPull.
  destruct (listReviewComments w (pull_number pr)) as [reviewComments | m]; simpl;
    [|discriminate].
  destruct (0 <? List.length reviewComments)%nat.
  - destruct (listCommits w (pull_number pr)) as [commits | m]; simpl; [|discriminate].
    intros E. inversion E; subst; simpl.
    destruct (0 <? List.length _)%nat; lia.
  - intros E. now inversion E; subst.
Qed.

Lemma prReview_score_bounds (w : repository) :
  1 # 2 <= prReview_score (analyzePRReviews w) <= 1.
Proof.
  unfold analyzePRReviews, tryAnalyzePRReviews.
  destruct (listClosedPulls w) as [closed | m]; simpl; [|lra].
  destruct (forOf (reviewPull w) (filter merged_at closed) (0%nat, 0%nat))
    as [counts | m] eqn:E; simpl; [|lra].
  apply (forOf_invariant (fun c : nat * nat => (snd c <= fst c)%nat)) in E.
  - pose proof (rate_bounds E) as Hr. lra.
  - intros s x s' Hs Hx. now apply (reviewPull_counts w s x).
  - simpl. lia.
Qed.

Lemma history_score_bounds (w : repository) :
  0 <= history_score (analyzeContentHistory w) <= 1.
Proof.
  unfold analyzeContentHistory.
  destruct (gitLogSubjects w); simpl; [apply clamp01_bounds|lra].
Qed.

Lemma dataIntegrity_bounds (w : repository) : 1 # 2 <= analyzeDataIntegrity w <= 1.
Proof.
  unfold analyzeDataIntegrity. split; [|apply Q.le_min_l].
  apply Q.min_glb; [lra|].
  destruct (0 <? dataFiles w)%nat, (hasDataReadme w), (0 <? codeFiles w)%nat; lra.
Qed.

Lemma codeConsistency_bounds (w : repository) : 1 # 2 <= evaluateCodeConsistency w <= 1.
Proof.
  unfold evaluateCodeConsistency. split; [|apply Q.le_min_l].
  apply Q.min_glb; [lra|].
  destruct (0 <? codeFiles w)%nat, (0 <? resultFiles w)%nat; lra.
Qed.

Lemma scopeIntegrity_bounds (w : repository) : 3 # 10 <= analyzeScopeIntegrity w <= 1.
Proof.
  unfold analyzeScopeIntegrity. split; [|apply Q.le_min_l].
  apply Q.min_glb; [lra|].
  match goal with |- context [if (0 <? ?b)%nat then num ?a / _ else 0] =>
    pose proof (@rate0_bounds a b) as Hr end.
  cbv zeta in Hr. specialize (Hr (filter_length_le _ _)).
  destruct (existsb _ (articles w)); lra.
Qed.

Lemma topicDrift_bounds (w : repository) : 3 # 10 <= analyzeTopicDrift w <= 1.
Proof.
  unfold analyzeTopicDrift. destruct (articles w) as [|mainArticle rest]; [lra|].
  match goal with |- context [if (0 <? ?b)%nat then num ?a / _ else 0] =>
    pose proof (@rate0_bounds a b) as Hr end.
  cbv zeta in Hr. specialize (Hr (filter_length_le _ _)).
  split; [|apply clamp01_bounds].
  unfold clamp01. eapply Qle_trans; [|apply Q.le_max_r].
  apply Q.min_glb; lra.
Qed.

End ScoreBounds.

Section RunScores.

Import CoherenceCheck Lra.
Local Open Scope Q_scope.

Lemma signal_bounds (w : repository) : 2 # 10 <= calculateSignalAlignment w <= 1.
Proof.
  unfold calculateSignalAlignment, signalScore.
  pose proof (dataIntegrity_bounds w) as Hd.
  pose proof (codeConsistency_bounds w) as Hc.
  assert (Hcit : 0 <= citation_score (analyzeArticleCitations (articles w)) <= 1)
    by apply clamp01_bounds.
  assert (Hcl : 0 <= claims_score (findUnsupportedClaims (articles w)) <= 1)
    by apply clamp01_bounds.
  Lqa.lra.
Qed.

Lemma feedback_bounds (w : repository) : 4 # 10 <= calculateFeedbackResponsiveness w <= 1.
Proof.
  unfold calculateFeedbackResponsiveness, feedbackScore.
  pose proof (openIssues_score_bounds w).
  pose proof (issueResolution_score_bounds w).
  pose proof (prReview_score_bounds w).
  pose proof (history_score_bounds w).
  Lqa.lra.
Qed.

Lemma bounded_bounds (w : repository) : 53 # 100 <= calculateBoundedIntegrity w <= 1.
Proof.
  unfold calculateBoundedIntegrity, evaluateTermConsistency, analyzeMethodBoundaries.
  pose proof (scopeIntegrity_bounds w).
  pose proof (topicDrift_bounds w).
  Lqa.lra.
Qed.

(** X1. Whatever the repository and the platform return, the four
    component scores of a run lie in [0, 1]: signal alignment is at
    least 0.2, feedback responsiveness at least 0.4, bounded integrity
    at least 0.53 and elastic tolerance is the constant 0.7875. *)
Theorem component_scores_bounded (w : repository) :
  2 # 10 <= calculateSignalAlignment w <= 1
  /\ 4 # 10 <= calculateFeedbackResponsiveness w <= 1
  /\ 53 # 100 <= calculateBoundedIntegrity w <= 1
  /\ calculateElasticTolerance == 7875 # 10000.
Proof.
  split; [apply signal_bounds|]. split; [apply feedback_bounds|].
  split; [apply bounded_bounds|]. vm_compute. reflexivity.
Qed.

Local Open Scope R_scope.





(** X3. The exit code of the check is 1 exactly when no report was
    written, the run having ended in the [catch], or the overall score
    of the report gets the cross in the printed table; it is 0 exactly
    when a report was written whose overall score does not get the
    cross.  A score gets the check mark exactly from 0.85 on. *)
Theorem exit_code_matches_status (w : repository) :
  (exitCode (checkCoherence w) = 1%nat
   <-> coherenceOutput (checkCoherence w) = None
       \/ exists report, coherenceOutput (checkCoherence w) = Some report
                         /\ getStatusSymbol (overallScore report) = Cross)
  /\ (exitCode (checkCoherence w) = 0%nat
      <-> exists report, coherenceOutput (checkCoherence w) = Some report
                         /\ getStatusSymbol (overallScore report) <> Cross)
  /\ (forall score, getStatusSymbol score = CheckMark <-> 85 / 100 <= score)
  /\ exitCode (checkCoherence unbalancedTitle) = 1%nat.
Proof.
  assert (Hcross : forall o,
             (if Rlt_dec o thresholds_overall then 1%nat else 0%nat) = 1%nat
             <-> getStatusSymbol o = Cross).
  { intros o. unfold getStatusSymbol, thresholds_overall.
    destruct (Rlt_dec o (7 / 10)); destruct (Rle_dec (85 / 100) o);
      destruct (Rle_dec (7 / 10) o); try lra;
      split; intros; congruence || discriminate || reflexivity. }
  split; [|split; [|split; [|reflexivity]]].
  - destruct (compileScopePatterns_cases w) as [H | [m H]].
    + rewrite (@checkCoherence_done w H). cbv zeta. cbn [coherenceOutput exitCode].
      rewrite Hcross. split.
      * intros Hc. right. eexists. split; [reflexivity|exact Hc].
      * intros [Hn | (report & Hr & Hc)]; [discriminate|].
        injection Hr as <-. exact Hc.
    + rewrite (@checkCoherence_caught w m H). cbn [coherenceOutput exitCode].
      split; [now left|reflexivity].
  - destruct (compileScopePatterns_cases w) as [H | [m H]].
    + rewrite (@checkCoherence_done w H). cbv zeta. cbn [coherenceOutput exitCode].
      split.
      * intros He. eexists. split; [reflexivity|]. cbn [overallScore].
        intros Hc. apply Hcross in Hc. congruence.
      * intros (report & Hr & Hc). injection Hr as <-. cbn [overallScore] in Hc.
        destruct (Rlt_dec _ thresholds_overall) as [Hlt|Hge] eqn:E; [|reflexivity].
        exfalso. apply Hc. apply Hcross. now rewrite E.
    + rewrite (@checkCoherence_caught w m H). cbn [coherenceOutput exitCode].
      split; [discriminate|]. intros (report & Hr & _). discriminate.
  - intros score. unfold getStatusSymbol, thresholds_overall.
    destruct (Rle_dec (85 / 100) score); destruct (Rle_dec (7 / 10) score);
      split; intros; try lra; try reflexivity; discriminate.
Qed.

End RunScores.

Section Recommendations.

Import CoherenceCheck.
Local Open Scope Q_scope.

Lemma lessThan_true (a b : Q) : lessThan a b = true <-> a < b.
Proof.
  unfold lessThan. rewrite negb_true_iff. split.
  - intros H. apply Qnot_le_lt. intros Hle. apply Qle_bool_iff in Hle. congruence.
  - intros H. apply not_true_is_false. intros Hle. apply Qle_bool_iff in Hle.
    now apply (Qlt_not_le a b).
Qed.

Lemma lessThan_false (a b : Q) : lessThan a b = false <-> b <= a.
Proof.
  unfold lessThan. rewrite negb_false_iff. apply Qle_bool_iff.
Qed.

Lemma pushIf_In (condition : bool) (message m : string) :
  In m (pushIf condition message) -> condition = true /\ m = message.
Proof.
  destruct condition; simpl; [intros [<- | []]; now split | intros []].
Qed.

Lemma pushIf_length (condition : bool) (message : string) :
  (List.length (pushIf condition message) <= 1)%nat.
Proof. destruct condition; simpl; lia. Qed.

Lemma recommendFor_length (t : Q) (a : analysis) (messages : list string) :
  (List.length (recommendFor t a messages) <= 4)%nat.
Proof.
  unfold recommendFor. destruct (lessThan (score a) t); simpl; [|lia].
  rewrite !length_app.
  pose proof (pushIf_length (lessThan (component1 a) (7 # 10)) (nth 0 messages "")).
  pose proof (pushIf_length (lessThan (component2 a) (7 # 10)) (nth 1 messages "")).
  pose proof (pushIf_length (lessThan (component3 a) (7 # 10)) (nth 2 messages "")).
  pose proof (pushIf_length (lessThan (component4 a) (7 # 10)) (nth 3 messages "")).
  lia.
Qed.

(** A block is empty exactly when the score reaches the threshold or no
    component is below 0.7. *)
Lemma recommendFor_nil (t : Q) (a : analysis) (messages : list string) :
  recommendFor t a messages = [] <->
  (t <= score a
   \/ (7 # 10 <= component1 a /\ 7 # 10 <= component2 a
       /\ 7 # 10 <= component3 a /\ 7 # 10 <= component4 a)).
Proof.
  unfold recommendFor. destruct (lessThan (score a) t) eqn:Es.
  - apply lessThan_true in Es. split.
    + intros H. right.
      destruct (lessThan (component1 a) (7 # 10)) eqn:E1; [discriminate|].
      destruct (lessThan (component2 a) (7 # 10)) eqn:E2; [discriminate|].
      destruct (lessThan (component3 a) (7 # 10)) eqn:E3; [discriminate|].
      destruct (lessThan (component4 a) (7 # 10)) eqn:E4; [discriminate|].
      apply lessThan_false in E1, E2, E3, E4. tauto.
    + intros [H | (H1 & H2 & H3 & H4)]; [lra|].
      apply lessThan_false in H1, H2, H3, H4. now rewrite H1, H2, H3, H4.
  - apply lessThan_false in Es. split; [now left|reflexivity].
Qed.

(** A block speaks of a component only when both the score is below
    the threshold and that component is below 0.7. *)
Lemma recommendFor_In (t : Q) (a : analysis) (messages : list string) (m : string) :
  In m (recommendFor t a messages) ->
  score a < t
  /\ ((component1 a < 7 # 10 /\ m = nth 0 messages "")
      \/ (component2 a < 7 # 10 /\ m = nth 1 messages "")
      \/ (component3 a < 7 # 10 /\ m = nth 2 messages "")
      \/ (component4 a < 7 # 10 /\ m = nth 3 messages "")).
Proof.
  unfold recommendFor. destruct (lessThan (score a) t) eqn:Es; [|intros []].
  apply lessThan_true in Es. intros H. split; [exact Es|].
  repeat (apply in_app_or in H; destruct H as [H | H]);
    apply pushIf_In in H; destruct H as [Hc ->]; apply lessThan_true in Hc; tauto.
Qed.

(** X4. [generateRecommendations] returns at most sixteen messages, and
    none at all when every component score reaches its threshold 0.7;
    a message of a block appears only when the score of the block is
    below the threshold. *)
Theorem generateRecommendations_quiet (s f b l : analysis) :
  (List.length (generateRecommendations s f b l) <= 16)%nat
  /\ (7 # 10 <= score s -> 7 # 10 <= score f -> 7 # 10 <= score b -> 7 # 10 <= score l ->
      generateRecommendations s f b l = [])
  /\ (forall m, In m (generateRecommendations s f b l) ->
        score s < 7 # 10 \/ score f < 7 # 10 \/ score b < 7 # 10 \/ score l < 7 # 10).
Proof.
  unfold generateRecommendations, thresholds_signal, thresholds_feedback,
    thresholds_bounded, thresholds_elastic.
  split; [|split].
  - rewrite !length_app.
    pose proof (recommendFor_length (7 # 10) s signalMessages).
    pose proof (recommendFor_length (7 # 10) f feedbackMessages).
    pose proof (recommendFor_length (7 # 10) b boundedMessages).
    pose proof (recommendFor_length (7 # 10) l elasticMessages).
    lia.
  - intros Hs Hf Hb Hl.
    rewrite (proj2 (recommendFor_nil (7 # 10) s signalMessages)) by now left.
    rewrite (proj2 (recommendFor_nil (7 # 10) f feedbackMessages)) by now left.
    rewrite (proj2 (recommendFor_nil (7 # 10) b boundedMessages)) by now left.
    rewrite (proj2 (recommendFor_nil (7 # 10) l elasticMessages)) by now left.
    reflexivity.
  - intros m H.
    repeat (apply in_app_or in H; destruct H as [H | H]);
      apply recommendFor_In in H; tauto.
Qed.

Lemma generateRecommendations_quiet_witness :
  generateRecommendations passing passing passing passing = []
  /\ (score failing < 7 # 10 \/ score passing < 7 # 10
      \/ score passing < 7 # 10 \/ score passing < 7 # 10).
Proof.
  split.
  - apply (proj1 (proj2 (generateRecommendations_quiet passing passing passing passing)));
      now compute.
  - apply (proj2 (proj2 (generateRecommendations_quiet failing passing passing passing))
             (nth 1 signalMessages "")).
    simpl. left. reflexivity.
Defined.

(** X5. In the report of a run a component below 0.7 always comes with
    at least one recommendation of its block, because its score is a
    weighted mean of its factors; so the list is empty exactly when
    signal alignment, feedback responsiveness and bounded integrity
    all reach 0.7.  The elastic-tolerance block never speaks, and no
    run recommends on term consistency or on methodological
    boundaries: their factors are constants of 0.7 or more. *)
Theorem recommendations_of_a_run (w : repository) :
  (recommendations w = [] <->
     7 # 10 <= calculateSignalAlignment w
     /\ 7 # 10 <= calculateFeedbackResponsiveness w
     /\ 7 # 10 <= calculateBoundedIntegrity w)
  /\ (forall m, In m elasticMessages -> ~ In m (recommendations w))
  /\ ~ In (nth 2 boundedMessages "") (recommendations w)
  /\ ~ In (nth 3 boundedMessages "") (recommendations w).
Proof.
  assert (Hel : recommendFor thresholds_elastic elasticAnalysis elasticMessages = [])
    by reflexivity.
  assert (Hs : recommendFor thresholds_signal (signalAnalysis w) signalMessages = []
               <-> 7 # 10 <= calculateSignalAlignment w).
  { rewrite recommendFor_nil. unfold thresholds_signal.
    cbn [score component1 component2 component3 component4 signalAnalysis].
    split; [|now left]. intros [H | (H1 & H2 & H3 & H4)]; [exact H|].
    unfold calculateSignalAlignment, signalScore. lra. }
  assert (Hf : recommendFor thresholds_feedback (feedbackAnalysis w) feedbackMessages = []
               <-> 7 # 10 <= calculateFeedbackResponsiveness w).
  { rewrite recommendFor_nil. unfold thresholds_feedback.
    cbn [score component1 component2 component3 component4 feedbackAnalysis].
    split; [|now left]. intros [H | (H1 & H2 & H3 & H4)]; [exact H|].
    unfold calculateFeedbackResponsiveness, feedbackScore. lra. }
  assert (Hb : recommendFor thresholds_bounded (boundedAnalysis w) boundedMessages = []
               <-> 7 # 10 <= calculateBoundedIntegrity w).
  { rewrite recommendFor_nil. unfold thresholds_bounded.
    cbn [score component1 component2 component3 component4 boundedAnalysis].
    split; [|now left]. intros [H | (H1 & H2 & H3 & H4)]; [exact H|].
    unfold calculateBoundedIntegrity. lra. }
  assert (Hin : forall m, In m (recommendations w) ->
            In m (recommendFor thresholds_signal (signalAnalysis w) signalMessages)
            \/ In m (recommendFor thresholds_feedback (feedbackAnalysis w) feedbackMessages)
            \/ In m (recommendFor thresholds_bounded (boundedAnalysis w) boundedMessages)).
  { intros m H. unfold recommendations, generateRecommendations in H.
    rewrite Hel, app_nil_r in H.
    repeat (apply in_app_or in H; destruct H as [H | H]); tauto. }
  assert (Hnot : forall m,
            In m (recommendations w) ->
            In m signalMessages \/ In m feedbackMessages
            \/ m = nth 0 boundedMessages "" \/ m = nth 1 boundedMessages "").
  { intros m H. apply Hin in H. destruct H as [H | [H | H]];
      apply recommendFor_In in H; destruct H as [_ H].
    - left. destruct H as [[_ ->] | [[_ ->] | [[_ ->] | [_ ->]]]]; simpl; tauto.
    - right; left.
      destruct H as [[_ ->] | [[_ ->] | [[_ ->] | [_ ->]]]]; simpl; tauto.
    - right; right.
      destruct H as [[_ ->] | [[_ ->] | [[H _] | [H _]]]]; [tauto|tauto| |];
        exfalso; simpl in H; revert H; now compute. }
  split; [|split; [|split]].
  - unfold recommendations, generateRecommendations. rewrite Hel, app_nil_r.
    rewrite <- Hs, <- Hf, <- Hb. split.
    + intros H. apply app_eq_nil in H. destruct H as [H1 H].
      apply app_eq_nil in H. tauto.
    + intros (H1 & H2 & H3). now rewrite H1, H2, H3.
  - intros m Hm H. apply Hnot in H. simpl in Hm, H.
    repeat (destruct Hm as [<- | Hm]; [intuition discriminate|]). exact Hm.
  - intros H. apply Hnot in H. simpl in H. intuition discriminate.
  - intros H. apply Hnot in H. simpl in H. intuition discriminate.
Qed.

End Recommendations.

Section CountsOfText.

Import CoherenceCheck.
Local Open Scope Q_scope.

(** [split] never returns the empty array. *)
Lemma pieces_nonempty (r : regex) (rest : list ascii) :
  forall b i skip piece, (1 <= List.length (pieces r b rest i skip piece))%nat.
Proof.
  induction rest as [|x rest IH]; intros b i skip piece; simpl; [lia|].
  destruct skip as [|n]; [|apply IH].
  destruct (matchHere r (Cursor b (x :: rest) i)) as [e|]; [|apply IH].
  destruct (i <? e)%nat; [simpl; lia|apply IH].
Qed.

Lemma split_nonempty (r : regex) (s : string) : (1 <= List.length (split r s))%nat.
Proof. apply pieces_nonempty. Qed.

Lemma fold_count_ge {A : Type} (f : A -> nat) (l : list A) (n : nat) :
  (forall a, 1 <= f a)%nat ->
  (n + List.length l <= fold_left (fun count a => (count + f a)%nat) l n)%nat.
Proof.
  intros Hf. revert n. induction l as [|a l IH]; intros n; simpl; [lia|].
  specialize (IH (n + f a)%nat). specialize (Hf a). lia.
Qed.

(** X6. Every article counts for at least one paragraph, so the
    paragraph total is 0 only when there is no article: the guard of
    the density falls back to 0 exactly on an empty article list, and
    with an article the density is the quotient of the two totals.
    Without a citation marker the score is 0. *)
Theorem analyzeArticleCitations_paragraphs (arts : list article) :
  let a := analyzeArticleCitations arts in
  (List.length arts <= paragraphs a)%nat
  /\ (paragraphs a = 0%nat <-> arts = [])
  /\ (arts <> [] -> density a == num (citations a) / num (paragraphs a))
  /\ (citations a = 0%nat -> citation_score a == 0).
Proof.
  intros a.
  assert (Hlen : (List.length arts <= paragraphs a)%nat).
  { unfold a, analyzeArticleCitations; simpl.
    apply (@fold_count_ge article
             (fun x => List.length (splitOn blankLine (content x))) arts 0%nat).
    intros x. apply split_nonempty. }
  split; [exact Hlen|]. split; [|split].
  - split.
    + intros H0. rewrite H0 in Hlen. apply length_zero_iff_nil. lia.
    + intros ->. reflexivity.
  - intros Hne.
    destruct (analyzeArticleCitations_counts arts) as [Hd _]. fold a in Hd.
    rewrite Hd. unfold densityFrom.
    assert (Hpos : (0 < paragraphs a)%nat).
    { assert (0 < List.length arts)%nat
        by (clear - Hne; destruct arts; [congruence|simpl; lia]).
      lia. }
    apply Nat.ltb_lt in Hpos. now rewrite Hpos.
  - intros Hc.
    destruct (analyzeArticleCitations_counts arts) as [Hd Hs]. fold a in Hd, Hs.
    rewrite Hs, Hd, Hc. unfold densityFrom.
    destruct (0 <? paragraphs a)%nat; now compute.
Qed.

Lemma analyzeArticleCitations_paragraphs_witness :
  density (analyzeArticleCitations [plain (paragraphsCiting 10 3)]) == 3 # 10.
Proof.
  assert (Hne : [plain (paragraphsCiting 10 3)] <> []) by discriminate.
  rewrite (proj1 (proj2 (proj2
             (analyzeArticleCitations_paragraphs [plain (paragraphsCiting 10 3)]))) Hne).
  vm_compute. reflexivity.
Defined.

(** X7. When [git log] succeeds, [analyzeContentHistory] counts at
    least one commit (an empty output is one empty subject), the
    feedback commits are among them, and the score is
    min(1, 2.5 * revisionRate): it is 1 exactly when two commits in
    five or more are feedback commits.  When [git log] fails the score
    is the neutral 0.5 with no commit counted. *)
Theorem analyzeContentHistory_rate (w : repository) :
  let h := analyzeContentHistory w in
  (forall out, gitLogSubjects w = Ok out ->
     (1 <= totalCommits h)%nat
     /\ (feedbackCommits h <= totalCommits h)%nat
     /\ revisionRate h == num (feedbackCommits h) / num (totalCommits h)
     /\ 0 <= revisionRate h <= 1
     /\ history_score h == Qmin 1 (revisionRate h * (25 # 10))
     /\ (history_score h == 1 <-> 2 # 5 <= revisionRate h))
  /\ (forall m, gitLogSubjects w = Throw m ->
        totalCommits h = 0%nat /\ history_score h = 1 # 2).
Proof.
  intros h. split.
  - intros out Hout. unfold h, analyzeContentHistory. rewrite Hout.
    cbn [totalCommits feedbackCommits revisionRate history_score].
    set (messages := splitOn (String newline EmptyString) out).
    set (fb := filter (test feedbackRegex) messages).
    assert (H1 : (1 <= List.length messages)%nat) by apply split_nonempty.
    assert (H2 : (List.length fb <= List.length messages)%nat)
      by apply filter_length_le.
    assert (Hpos : (0 <? List.length messages)%nat = true) by now apply Nat.ltb_lt.
    rewrite Hpos.
    pose proof (rate0_bounds H2) as Hr. rewrite Hpos in Hr.
    set (rate := num (List.length fb) / num (List.length messages)) in *.
    assert (Hs : clamp01 (Qmin 1 (rate * (25 # 10))) == Qmin 1 (rate * (25 # 10))).
    { apply clamp01_id. split; [apply Q.min_glb; lra|apply Q.le_min_l]. }
    split; [exact H1|]. split; [exact H2|]. split; [reflexivity|].
    split; [exact Hr|]. split; [exact Hs|].
    rewrite Hs. split.
    + intros H. pose proof (Q.le_min_r 1 (rate * (25 # 10))) as Hm.
      rewrite H in Hm. lra.
    + intros H. apply Q.min_l. lra.
  - intros m Hm. unfold h, analyzeContentHistory. rewrite Hm. split; reflexivity.
Qed.

Lemma analyzeContentHistory_rate_witness :
  totalCommits (analyzeContentHistory (withGitLog "")) = 1%nat
  /\ history_score (analyzeContentHistory (withGitLog "")) == 0
  /\ history_score (analyzeContentHistory emptyRepository) = 1 # 2.
Proof.
  destruct (analyzeContentHistory_rate (withGitLog "")) as [Hok _].
  destruct (Hok ""%string eq_refl) as (H1 & H2 & H3 & H4 & H5 & H6).
  destruct (analyzeContentHistory_rate emptyRepository) as [_ Hfail].
  split; [|split].
  - vm_compute. reflexivity.
  - rewrite H5. vm_compute. reflexivity.
  - exact (proj2 (Hfail _ eq_refl)).
Defined.

End CountsOfText.

(* ===================================================================== *)
(** * Further properties of residue-analysis.js *)
(* ===================================================================== *)

Section ResidueClassification.

Import ResidueAnalysis.
Local Open Scope nat_scope.

(** What the loop [if (score > maxScore) ...] computes: the start value
    when no entry exceeds it, else the first entry of the highest
    score. *)
Lemma fold_higher (entries : list (string * nat)) :
  forall best,
    let r := fold_left higher entries best in
    (r = best /\ Forall (fun e => snd e <= snd best) entries)
    \/ (snd best < snd r
        /\ exists before after,
             entries = (before ++ r :: after)%list
             /\ Forall (fun e => snd e < snd r) before
             /\ Forall (fun e => snd e <= snd r) after).
Proof.
  induction entries as [|e es IH]; intros best; simpl.
  - left. split; [reflexivity|constructor].
  - destruct (snd best <? snd e) eqn:E.
    + assert (Hh : higher best e = e) by (unfold higher; now rewrite E).
      rewrite Hh. apply Nat.ltb_lt in E. right.
      destruct (IH e) as [[Hr Hall] | [Hlt (b & a & Hes & Hb & Ha)]].
      * rewrite Hr. split; [exact E|]. exists [], es.
        split; [reflexivity|]. split; [constructor|exact Hall].
      * split; [lia|]. exists (e :: b), a.
        split; [simpl; now f_equal|]. split; [constructor; assumption|exact Ha].
    + assert (Hh : higher best e = best) by (unfold higher; now rewrite E).
      rewrite Hh. apply Nat.ltb_ge in E.
      destruct (IH best) as [[Hr Hall] | [Hlt (b & a & Hes & Hb & Ha)]].
      * left. split; [exact Hr|]. constructor; assumption.
      * right. split; [exact Hlt|]. exists (e :: b), a.
        split; [simpl; now f_equal|]. split; [constructor; [lia|exact Hb]|exact Ha].
Qed.

Lemma scores_types (description : string) :
  map fst (scores description)
  = [ATTRIBUTION_VOID; TOKEN_HESITATION; RECURSIVE_COLLAPSE; BOUNDARY_EROSION;
     PHASE_MISALIGNMENT].
Proof. reflexivity. Qed.

(** X8. [detectResidueType] returns one of the five residue types.  It
    is Token Hesitation when no keyword of any type occurs in the
    description; otherwise it is the type with the most keywords
    present, the one declared first among those with the most. *)
Theorem detectResidueType_vote (description : string) :
  let t := detectResidueType description in
  In t (map fst (scores description))
  /\ ((Forall (fun e => snd e = 0) (scores description) /\ t = TOKEN_HESITATION)
      \/ (exists s before after,
            0 < s
            /\ scores description = (before ++ (t, s) :: after)%list
            /\ Forall (fun e => snd e < s) before
            /\ Forall (fun e => snd e <= s) after)).
Proof.
  intros t. unfold t, detectResidueType.
  destruct (fold_higher (scores description) (TOKEN_HESITATION, 0))
    as [[Hr Hall] | [Hlt (b & a & Hes & Hb & Ha)]].
  - rewrite Hr. split; [rewrite scores_types; simpl; tauto|].
    left. split; [|reflexivity].
    eapply Forall_impl; [|exact Hall]. simpl. intros e He. lia.
  - set (r := fold_left higher (scores description) (TOKEN_HESITATION, 0)) in *.
    split.
    + rewrite Hes, map_app. apply in_or_app. right. now left.
    + right. exists (snd r), b, a. simpl in Hlt.
      split; [exact Hlt|]. split; [|split; assumption].
      rewrite <- (surjective_pairing r). exact Hes.
Qed.

Example detectResidueType_examples :
  detectResidueType "The source is unclear and ambiguous" = TOKEN_HESITATION
  /\ detectResidueType "source unclear" = ATTRIBUTION_VOID
  /\ detectResidueType "Resources were sourced" = TOKEN_HESITATION.
Proof. repeat split. Qed.

End ResidueClassification.

Section CountTables.

Local Open Scope nat_scope.

Lemma own_increment (key k : string) (counts : list (string * tally)) :
  own key (increment counts k)
  = if String.eqb k key
    then match own key counts with
         | Some v => Some (plusOne v)
         | None => afterTurns key 1
         end
    else own key counts.
Proof.
  induction counts as [|[k' v] rest IH].
  - cbn [increment own afterTurns].
    destruct (String.eqb k key) eqn:E.
    + apply String.eqb_eq in E. subst k.
      destruct (String.eqb key "__proto__"); [reflexivity|].
      destruct (existsb (String.eqb key) inheritedFunctions);
        cbn [own]; now rewrite String.eqb_refl.
    + destruct (String.eqb k "__proto__"); [reflexivity|].
      destruct (existsb (String.eqb k) inheritedFunctions); cbn [own]; now rewrite E.
  - cbn [increment own]. destruct (String.eqb k' k) eqn:E.
    + apply String.eqb_eq in E. subst k'. cbn [own].
      now destruct (String.eqb k key).
    + cbn [own]. destruct (String.eqb k' key) eqn:E'; [|exact IH].
      apply String.eqb_eq in E'. subst k'.
      rewrite String.eqb_sym in E. now rewrite E.
Qed.

Lemma afterTurns_next (key : string) (n : nat) :
  match afterTurns key n with
  | Some v => Some (plusOne v)
  | None => afterTurns key 1
  end = afterTurns key (S n).
Proof.
  destruct n as [|n]; cbn [afterTurns]; [reflexivity|].
  destruct (String.eqb key "__proto__"); [reflexivity|].
  now destruct (existsb (String.eqb key) inheritedFunctions).
Qed.

(** A table that started empty holds under every key what the number
    of turns for that key makes of it. *)
Lemma own_fold (key : string) (ks : list string) :
  own key (fold_left increment ks [])
  = afterTurns key (List.length (filter (fun k => String.eqb k key) ks)).
Proof.
  induction ks as [|k ks IH] using rev_ind; [reflexivity|].
  rewrite fold_left_app, filter_app, length_app. cbn [fold_left filter].
  rewrite own_increment, IH.
  destruct (String.eqb k key); cbn [List.length].
  - rewrite afterTurns_next. f_equal. lia.
  - f_equal. lia.
Qed.

Lemma afterTurns_ordinary (key : string) (n : nat) :
  ordinaryKey key = true -> afterTurns key (S n) = Some (Count (S n)).
Proof.
  unfold ordinaryKey, afterTurns. intros H.
  apply negb_true_iff, orb_false_iff in H. destruct H as [-> ->]. reflexivity.
Qed.

Lemma afterTurns_inherited (key : string) (n : nat) :
  ordinaryKey key = false ->
  afterTurns key n = None \/ afterTurns key n = Some (FunctionText n).
Proof.
  unfold ordinaryKey, afterTurns. intros H.
  apply negb_false_iff in H. destruct n as [|n]; [now left|].
  destruct (String.eqb key "__proto__") eqn:E1; [now left|].
  destruct (existsb (String.eqb key) inheritedFunctions) eqn:E2; [now right|].
  discriminate.
Qed.

Lemma afterTurns_Count (key : string) (n m : nat) :
  afterTurns key n = Some (Count m) -> ordinaryKey key = true /\ m = n /\ 0 < n.
Proof.
  intros H. destruct (ordinaryKey key) eqn:E.
  - destruct n as [|n]; [discriminate|].
    rewrite (@afterTurns_ordinary key n E) in H. injection H as <-.
    repeat split. lia.
  - destruct (@afterTurns_inherited key n E) as [E' | E']; rewrite E' in H; discriminate.
Qed.

Lemma increment_keys (k : string) (counts : list (string * tally)) :
  (forall x, In x (map fst (increment counts k)) -> x = k \/ In x (map fst counts))
  /\ (NoDup (map fst counts) -> NoDup (map fst (increment counts k))).
Proof.
  induction counts as [|[k' v] rest [IH1 IH2]]; cbn [increment].
  - destruct (String.eqb k "__proto__"); [split; [intros x []|auto]|].
    destruct (existsb (String.eqb k) inheritedFunctions); simpl;
      (split; [intros x [<- | []]; now left
              |intros _; constructor; [intros []|constructor]]).
  - destruct (String.eqb k' k) eqn:E; simpl.
    + split; [intros x [<- | H]; auto|tauto].
    + split.
      * intros x [<- | H]; [auto|]. apply IH1 in H. tauto.
      * intros H. inversion H as [|? ? Hnot Hnd]; subst.
        constructor; [|now apply IH2].
        intros Hin. apply IH1 in Hin. destruct Hin as [-> | Hin]; [|contradiction].
        now rewrite String.eqb_refl in E.
Qed.

Lemma fold_increment_NoDup (ks : list string) :
  NoDup (map fst (fold_left increment ks [])).
Proof.
  induction ks as [|k ks IH] using rev_ind; [constructor|].
  rewrite fold_left_app. cbn [fold_left]. now apply increment_keys.
Qed.

Lemma own_In (key : string) (v : tally) (counts : list (string * tally)) :
  NoDup (map fst counts) -> (In (key, v) counts <-> own key counts = Some v).
Proof.
  induction counts as [|[k u] rest IH]; cbn [own map]; intros Hnd.
  - split; [intros []|discriminate].
  - inversion Hnd as [|? ? Hnot Hnd']; subst.
    destruct (String.eqb k key) eqn:E.
    + apply String.eqb_eq in E. subst k. split.
      * intros [H | H]; [now injection H as ->|].
        exfalso. apply Hnot. apply in_map_iff. now exists (key, v).
      * intros H. injection H as ->. now left.
    + rewrite <- (IH Hnd'). split; [|now right].
      intros [H | H]; [|exact H]. injection H as -> _.
      now rewrite String.eqb_refl in E.
Qed.

Lemma total_increment (k : string) (counts : list (string * tally)) :
  total (increment counts k)
  = total counts
    + match own k counts with
      | Some (Count _) => 1
      | Some (FunctionText _) => 0
      | None => if ordinaryKey k then 1 else 0
      end.
Proof.
  unfold total. induction counts as [|[k' v] rest IH]; cbn [increment own].
  - unfold ordinaryKey.
    destruct (String.eqb k "__proto__"); [reflexivity|].
    now destruct (existsb (String.eqb k) inheritedFunctions).
  - destruct (String.eqb k' k); cbn [map list_sum fold_right snd].
    + destruct v; cbn [plusOne]; lia.
    + change (fold_right Nat.add 0 ?l) with (list_sum l) in *. rewrite IH. lia.
Qed.

(** The numbers of a table that started empty add up to the number of
    turns for keys that name no inherited property. *)
Lemma total_fold (ks : list string) :
  total (fold_left increment ks []) = List.length (filter ordinaryKey ks).
Proof.
  induction ks as [|k ks IH] using rev_ind; [reflexivity|].
  rewrite fold_left_app, filter_app, length_app. cbn [fold_left filter].
  rewrite total_increment, IH, own_fold. f_equal.
  destruct (ordinaryKey k) eqn:E.
  - destruct (List.length (filter (fun k0 => String.eqb k0 k) ks)) as [|n];
      [reflexivity|].
    now rewrite (@afterTurns_ordinary k n E).
  - destruct (@afterTurns_inherited k
                (List.length (filter (fun k0 => String.eqb k0 k) ks)) E) as [-> | ->];
      reflexivity.
Qed.

End CountTables.

Section ResidueMetrics.

Import ResidueAnalysis.
Local Open Scope nat_scope.

Lemma insertIndex_perm {V : Type} (e : N * (string * V)) (l : list (N * (string * V))) :
  Permutation (e :: l) (insertIndex e l).
Proof.
  induction l as [|x l IH]; simpl; [apply Permutation_refl|].
  destruct (fst e <? fst x)%N; [apply Permutation_refl|].
  eapply perm_trans; [apply perm_swap|]. now apply perm_skip.
Qed.

Lemma sortIndex_perm {V : Type} (l : list (N * (string * V))) :
  forall sorted,
    Permutation (sorted ++ l) (fold_left (fun s e => insertIndex e s) l sorted).
Proof.
  induction l as [|e l IH]; intros sorted; simpl.
  - rewrite app_nil_r. apply Permutation_refl.
  - eapply perm_trans; [|apply IH].
    eapply perm_trans; [apply Permutation_sym, Permutation_middle|].
    apply (Permutation_app_tail l (insertIndex_perm e sorted)).
Qed.

(** [Object.entries] lists every entry of the object once. *)
Lemma objectEntries_perm {V : Type} (counts : list (string * V)) :
  Permutation counts (objectEntries counts).
Proof.
  unfold objectEntries.
  eapply perm_trans;
    [|apply Permutation_app_tail, Permutation_map, (sortIndex_perm _ [])].
  simpl. induction counts as [|e counts IH]; simpl; [apply Permutation_refl|].
  destruct (arrayIndex (fst e)); simpl.
  - now apply perm_skip.
  - now apply Permutation_cons_app.
Qed.

(** The loop over the entries looks at the numbers only. *)
Lemma fold_higherCount (entries : list (string * tally)) :
  forall best,
    fold_left higherCount entries best
    = fold_left higher
        (flat_map (fun e => match snd e with
                            | Count n => [(fst e, n)]
                            | FunctionText _ => []
                            end) entries)
        best.
Proof.
  induction entries as [|[k v] entries IH]; intros best; [reflexivity|].
  cbn [fold_left flat_map fst snd]. rewrite IH. unfold higherCount. cbn [fst snd].
  destruct v; reflexivity.
Qed.

Lemma numbered_In (entries : list (string * tally)) (k : string) (n : nat) :
  In (k, n) (flat_map (fun e => match snd e with
                                | Count n => [(fst e, n)]
                                | FunctionText _ => []
                                end) entries)
  <-> In (k, Count n) entries.
Proof.
  rewrite in_flat_map. split.
  - intros ([k' v] & Hin & H). cbn [fst snd] in H.
    destruct v; [|destruct H]. destruct H as [H | []].
    injection H as -> ->. exact Hin.
  - intros H. exists (k, Count n). split; [exact H|]. now left.
Qed.

Lemma instancesOf_positive (c : catalog) (k : string) :
  0 < instancesOf c k -> In k (map classification (instances c)).
Proof.
  unfold instancesOf. intros H.
  destruct (filter _ (instances c)) as [|i others] eqn:Ef; [simpl in H; lia|].
  assert (Hi : In i (filter (fun i => String.eqb (classification i) k) (instances c)))
    by (rewrite Ef; now left).
  apply filter_In in Hi. destruct Hi as [Hi He]. apply String.eqb_eq in He.
  rewrite <- He. now apply in_map.
Qed.

Lemma byClassification_own (c : catalog) (k : string) :
  own k (byClassification (calculateResidueMetrics c)) = afterTurns k (instancesOf c k).
Proof.
  cbn [calculateResidueMetrics byClassification]. rewrite own_fold. f_equal.
  unfold instancesOf. induction (instances c) as [|i others IH]; [reflexivity|].
  cbn [map filter]. destruct (String.eqb (classification i) k); cbn [List.length];
    now rewrite IH.
Qed.

(** X9. The table of the classifications holds, under every
    classification that names no property every object inherits, the
    number of instances that carry it, and these numbers add up to the
    number of such instances.  A classification that names an inherited
    function, [constructor] for one, gets a text in the place of a
    number, and [__proto__] gets no entry.  The dominant
    classification is "None" when no instance has a classification
    that is counted; otherwise it is one of the counted classifications
    of the catalog, and no counted classification has more instances:
    two instances classified [constructor] do not outnumber one
    classified otherwise. *)
Theorem calculateResidueMetrics_counts (c : catalog) :
  let m := calculateResidueMetrics c in
  count m = List.length (instances c)
  /\ (forall k, own k (byClassification m) = afterTurns k (instancesOf c k))
  /\ (forall k, ordinaryKey k = true -> 0 < instancesOf c k ->
        own k (byClassification m) = Some (Count (instancesOf c k)))
  /\ total (byClassification m)
     = List.length (filter (fun i => ordinaryKey (classification i)) (instances c))
  /\ ((forall i, In i (instances c) -> ordinaryKey (classification i) = false) ->
      dominantClassification m = "None")
  /\ ((exists i, In i (instances c) /\ ordinaryKey (classification i) = true) ->
      In (dominantClassification m) (map classification (instances c))
      /\ ordinaryKey (dominantClassification m) = true
      /\ forall k, ordinaryKey k = true ->
                   instancesOf c k <= instancesOf c (dominantClassification m))
  /\ (let sample := Catalog [ reported "constructor" "first";
                              reported "constructor" "second";
                              reported "Unclassified" "third" ] in
      own "constructor" (byClassification (calculateResidueMetrics sample))
      = Some (FunctionText 2)
      /\ dominantClassification (calculateResidueMetrics sample) = "Unclassified").
Proof.
  intros m.
  set (counts := byClassification m).
  assert (Hown : forall k, own k counts = afterTurns k (instancesOf c k))
    by (intros k; apply byClassification_own).
  assert (Hnd : NoDup (map fst counts)) by apply fold_increment_NoDup.
  assert (Hin : forall k n, In (k, Count n) counts
                            <-> ordinaryKey k = true /\ n = instancesOf c k /\ 0 < n).
  { intros k n. rewrite (@own_In k (Count n) counts Hnd), Hown. split.
    - intros H. apply afterTurns_Count in H. destruct H as (Ho & -> & Hp). now repeat split.
    - intros (Ho & -> & Hp). destruct (instancesOf c k) as [|j]; [lia|].
      now apply (@afterTurns_ordinary k j). }
  split; [reflexivity|]. split; [exact Hown|]. split.
  { intros k Ho Hp. rewrite Hown. destruct (instancesOf c k) as [|j]; [lia|].
    now apply (@afterTurns_ordinary k j). }
  split.
  { unfold counts, m. cbn [calculateResidueMetrics byClassification].
    rewrite total_fold. clear. induction (instances c) as [|i others IH]; [reflexivity|].
    cbn [map filter]. destruct (ordinaryKey (classification i)); cbn [List.length];
      now rewrite IH. }
  assert (Hdom : dominantClassification m
                 = fst (fold_left higher
                          (flat_map (fun e => match snd e with
                                              | Count n => [(fst e, n)]
                                              | FunctionText _ => []
                                              end) (objectEntries counts))
                          ("None"%string, 0))).
  { unfold counts, m. cbn [calculateResidueMetrics dominantClassification byClassification].
    now rewrite fold_higherCount. }
  pose proof (objectEntries_perm counts) as Hperm.
  assert (Hnum : forall k n,
             In (k, n) (flat_map (fun e => match snd e with
                                           | Count n => [(fst e, n)]
                                           | FunctionText _ => []
                                           end) (objectEntries counts))
             <-> ordinaryKey k = true /\ n = instancesOf c k /\ 0 < n).
  { intros k n. rewrite numbered_In, <- Hin. split; intros H.
    - exact (Permutation_in _ (Permutation_sym Hperm) H).
    - exact (Permutation_in _ Hperm H). }
  destruct (fold_higher
              (flat_map (fun e => match snd e with
                                  | Count n => [(fst e, n)]
                                  | FunctionText _ => []
                                  end) (objectEntries counts))
              ("None"%string, 0))
    as [[Hr Hall] | [Hlt (b & a & Hes & Hb & Ha)]].
  - split; [intros _; now rewrite Hdom, Hr|]. split; [|split; reflexivity].
    intros (i & Hi & Ho). exfalso.
    assert (Hp : 0 < instancesOf c (classification i)).
    { unfold instancesOf.
      assert (Hf : In i (filter (fun j => String.eqb (classification j) (classification i))
                                (instances c)))
        by (apply filter_In; split; [exact Hi|apply String.eqb_refl]).
      destruct (filter _ (instances c)); [destruct Hf|simpl; lia]. }
    assert (Hk : In (classification i, instancesOf c (classification i))
                    (flat_map (fun e => match snd e with
                                        | Count n => [(fst e, n)]
                                        | FunctionText _ => []
                                        end) (objectEntries counts)))
      by (apply Hnum; now repeat split).
    rewrite Forall_forall in Hall. apply Hall in Hk. simpl in Hk. lia.
  - set (r := fold_left higher _ ("None"%string, 0)) in *.
    assert (Hrin : In (fst r, snd r)
                      (flat_map (fun e => match snd e with
                                          | Count n => [(fst e, n)]
                                          | FunctionText _ => []
                                          end) (objectEntries counts))).
    { rewrite <- surjective_pairing, Hes. apply in_or_app. right. now left. }
    apply Hnum in Hrin. destruct Hrin as (Ho & Hn & Hp).
    split.
    { intros Hnone. exfalso.
      pose proof (instancesOf_positive c (fst r)) as Hc.
      rewrite <- Hn in Hc. specialize (Hc Hp).
      apply in_map_iff in Hc. destruct Hc as (i & Hci & Hi).
      specialize (Hnone i Hi). congruence. }
    split; [|split; reflexivity].
    intros _. rewrite Hdom. fold r.
    split; [apply instancesOf_positive; now rewrite <- Hn|].
    split; [exact Ho|].
    intros k Hk. rewrite <- Hn.
    destruct (instancesOf c k) as [|j] eqn:Ek; [lia|].
    assert (Hkin : In (k, S j)
                      (flat_map (fun e => match snd e with
                                          | Count n => [(fst e, n)]
                                          | FunctionText _ => []
                                          end) (objectEntries counts)))
      by (apply Hnum; repeat split; [exact Hk|now rewrite Ek|lia]).
    rewrite Hes in Hkin. apply in_app_or in Hkin. rewrite Forall_forall in Hb, Ha.
    destruct Hkin as [Hkin | [Hkin | Hkin]].
    + apply Hb in Hkin. simpl in Hkin. lia.
    + rewrite Hkin. simpl. lia.
    + apply Ha in Hkin. simpl in Hkin. lia.
Qed.

Lemma calculateResidueMetrics_counts_witness :
  own "Token Hesitation"
      (byClassification (calculateResidueMetrics (Catalog [hedge; scopeNote; hedgeAgain])))
  = Some (Count 2)
  /\ dominantClassification (calculateResidueMetrics (Catalog [hedge; scopeNote; hedgeAgain]))
     = "Token Hesitation".
Proof.
  split; [|reflexivity].
  apply (proj1 (proj2 (proj2
           (calculateResidueMetrics_counts (Catalog [hedge; scopeNote; hedgeAgain]))))).
  - reflexivity.
  - unfold instancesOf. simpl. lia.
Defined.

(** X10. The catalog is append-only: a run leaves the instances it
    found in the catalog first and unchanged, adds after them only
    instances it found, and ends with every description and section it
    found present. *)
Theorem analyzeResidue_appends (found : list residueInstance) (c : catalog) :
  exists added,
    instances (analyzeResidue found c) = (instances c ++ added)%list
    /\ incl added found
    /\ List.length added <= List.length found
    /\ incl (map residueKey found) (map residueKey (instances (analyzeResidue found c))).
Proof.
  assert (H : exists added,
            instances (analyzeResidue found c) = (instances c ++ added)%list
            /\ incl added found /\ List.length added <= List.length found).
  { revert c. induction found as [|i found IH]; intros c; simpl.
    - exists []. rewrite app_nil_r.
      split; [reflexivity|split; [apply incl_refl|simpl; lia]].
    - destruct (IH (addResidueInstance c i)) as (added & Heq & Hincl & Hlen).
      unfold addResidueInstance in Heq |- *.
      destruct (negb (existsb (fun existing => sameResidue existing i) (instances c))).
      + exists (i :: added). simpl in Heq. rewrite Heq, <- app_assoc. simpl.
        split; [reflexivity|split; [|lia]].
        intros x [<- | Hx]; [now left|right; now apply Hincl].
      + exists added. split; [exact Heq|split; [|simpl; lia]].
        intros x Hx. right. now apply Hincl. }
  destruct H as (added & H1 & H2 & H3). exists added.
  split; [exact H1|split; [exact H2|split; [exact H3|]]]. apply analyzeResidue_keys.
Qed.

End ResidueMetrics.

(* ===================================================================== *)
(** * Further properties of attribution-map.js *)
(* ===================================================================== *)

Section BuiltGraphs.

Import AttributionMap.
Local Open Scope nat_scope.

Lemma nodeId_kinds_apart_aux (contributorName contentPath : string) :
  nodeId "contributor" contributorName <> nodeId "content" contentPath.
Proof. unfold nodeId. simpl. intros H. inversion H. Qed.

Lemma getFileType_not_contributor (p : string) :
  String.eqb (getFileType p) "contributor" = false.
Proof.
  unfold getFileType.
  repeat match goal with
         | |- context [if ?b then _ else _] => destruct b
         end; reflexivity.
Qed.

Lemma knows_app (a b : list string) (g : graph) :
  knows (a ++ b) g <-> knows a g /\ knows b g.
Proof. unfold knows. apply Forall_app. Qed.

Lemma knows_covers (ids : list string) (g g' : graph) :
  covers g g' -> knows ids g -> knows ids g'.
Proof.
  intros [Hc _] H. unfold knows in *. eapply Forall_impl; [|exact H].
  intros i Hi. now apply Hc.
Qed.

Lemma wellFormed_addNode (g : graph) (n : node) :
  wellFormed g ->
  hasNode g (id n) = false ->
  ((isContributor n = true /\ exists k, id n = nodeId "contributor" k)
   \/ (isContributor n = false /\ exists p, id n = nodeId "content" p)) ->
  wellFormed {| nodes := nodes g ++ [n]; links := links g;
                graph_metrics := graph_metrics g |}.
Proof.
  intros ((Hn & Hl) & Hnodes & Hlinks) Hnew Htyped. split; [split|split].
  - cbn [nodes]. rewrite map_app. apply NoDup_snoc; [exact Hn|].
    cbn [map]. rewrite <- hasNode_In. congruence.
  - exact Hl.
  - intros m Hm. cbn [nodes] in Hm. apply in_app_or in Hm.
    destruct Hm as [Hm | [<- | []]]; [now apply Hnodes|exact Htyped].
  - intros l Hin. destruct (Hlinks l Hin) as (Hs & Ht & Hhs & Hht).
    rewrite !hasNode_app, Hhs, Hht. auto.
Qed.

Lemma wellFormed_addLink (g : graph) (l : link) :
  wellFormed g ->
  hasLink g l = false ->
  (exists k, source l = nodeId "contributor" k) ->
  (exists p, target l = nodeId "content" p) ->
  hasNode g (source l) = true -> hasNode g (target l) = true ->
  wellFormed {| nodes := nodes g; links := links g ++ [l];
                graph_metrics := graph_metrics g |}.
Proof.
  intros ((Hn & Hl) & Hnodes & Hlinks) Hnew Hs Ht Hhs Hht. split; [split|split].
  - exact Hn.
  - cbn [links]. rewrite map_app. apply NoDup_snoc; [exact Hl|].
    cbn [map]. rewrite <- hasLink_In. congruence.
  - exact Hnodes.
  - intros k Hin. cbn [links] in Hin. apply in_app_or in Hin.
    destruct Hin as [Hin | [<- | []]].
    + destruct (Hlinks k Hin) as (H1 & H2 & H3 & H4). auto.
    + auto.
Qed.

Lemma ensures_skip (pre : list string) : ensures pre skip [].
Proof. intros g Hw Hk. simpl. split; [exact Hw|]. split; [exact Hk|]. intros g' E. now inversion E; subst. Qed.

Lemma ensures_throw (pre added : list string) : ensures pre throw added.
Proof. intros g Hw Hk. simpl. split; [exact Hw|]. split; [exact Hk|]. intros g' E. discriminate. Qed.

Lemma ensures_forget (pre added : list string) (p : step) :
  ensures pre p added -> ensures pre p [].
Proof.
  intros H g Hw Hk. destruct (H g Hw Hk) as (H1 & H2 & H3).
  split; [exact H1|]. split; [exact H2|].
  intros g' E. rewrite E in H2. exact H2.
Qed.

Lemma ensures_andThen (pre a1 a2 : list string) (p q : step) :
  ensures pre p a1 -> ensures (a1 ++ pre) q a2 -> ensures pre (andThen p q) (a2 ++ a1).
Proof.
  intros Hp Hq g Hw Hk. unfold andThen.
  destruct (Hp g Hw Hk) as (H1 & H2 & H3).
  destruct (p g) as [g1 | g1] eqn:E; simpl in *.
  - specialize (H3 g1 eq_refl).
    destruct (Hq g1 H1 H3) as (I1 & I2 & I3).
    split; [exact I1|]. split.
    + apply knows_app in I2. tauto.
    + intros g' E'. rewrite <- app_assoc. now apply I3.
  - split; [exact H1|]. split; [exact H2|]. intros g' E'. discriminate.
Qed.

Lemma ensures_forEach {A : Type} (pre : list string) (body : A -> step) (xs : list A) :
  (forall x, ensures pre (body x) []) -> ensures pre (forEach body xs) [].
Proof.
  intros H. induction xs as [|x xs IH]; simpl; [apply ensures_skip|].
  apply (@ensures_andThen pre [] [] (body x) (forEach body xs)); [apply H|exact IH].
Qed.

Lemma ensures_tryCatch (pre added : list string) (p : step) :
  ensures pre p added -> ensures pre (tryCatch p) [].
Proof.
  intros H g Hw Hk. destruct (H g Hw Hk) as (H1 & H2 & _). unfold tryCatch.
  split; [exact H1|]. split; [exact H2|].
  intros g' E. inversion E; subst. exact H2.
Qed.

Lemma ensures_addContributorNode (pre : list string) (c : contributor) :
  ensures pre (addContributorNode c)
          match contributorKey c with
          | Some k => [nodeId "contributor" k]
          | None => []
          end.
Proof.
  intros g Hw Hk. unfold addContributorNode, contributorKey.
  destruct (if String.eqb (contributor_name c) "" then contributor_github c
            else Some (contributor_name c)) as [k|].
  2: { simpl. split; [exact Hw|]. split; [exact Hk|]. intros g' E. discriminate. }
  destruct (hasNode g (nodeId "contributor" k)) eqn:E; simpl.
  - split; [exact Hw|]. split; [exact Hk|].
    intros g' E'. inversion E'; subst. constructor; assumption.
  - set (g1 := {| nodes := _; links := links g; graph_metrics := graph_metrics g |}).
    assert (Hc : covers g g1).
    { split; [|auto]. intros i Hi. unfold g1. rewrite hasNode_app, Hi. reflexivity. }
    split; [|split].
    + apply wellFormed_addNode; [exact Hw|exact E|].
      left. split; [reflexivity|]. now exists k.
    + now apply (knows_covers Hc).
    + intros g' E'. inversion E'; subst g'. constructor.
      * unfold g1. rewrite hasNode_app. simpl. now rewrite String.eqb_refl, orb_true_r.
      * now apply (knows_covers Hc).
Qed.

Lemma ensures_addContentNode (pre : list string) (c : contentRef) :
  String.eqb (content_type c) "contributor" = false ->
  ensures pre (addContentNode c) [nodeId "content" (content_path c)].
Proof.
  intros Hty g Hw Hk. unfold addContentNode.
  destruct (hasNode g (nodeId "content" (content_path c))) eqn:E; simpl.
  - split; [exact Hw|]. split; [exact Hk|].
    intros g' E'. inversion E'; subst. constructor; assumption.
  - set (g1 := {| nodes := _; links := links g; graph_metrics := graph_metrics g |}).
    assert (Hc : covers g g1).
    { split; [|auto]. intros i Hi. unfold g1. rewrite hasNode_app, Hi. reflexivity. }
    split; [|split].
    + apply wellFormed_addNode; [exact Hw|exact E|].
      right. split; [exact Hty|]. now exists (content_path c).
    + now apply (knows_covers Hc).
    + intros g' E'. inversion E'; subst g'. constructor.
      * unfold g1. rewrite hasNode_app. simpl. now rewrite String.eqb_refl, orb_true_r.
      * now apply (knows_covers Hc).
Qed.

Lemma ensures_addLink (pre : list string) (l : link) :
  (exists k, source l = nodeId "contributor" k) ->
  (exists p, target l = nodeId "content" p) ->
  In (source l) pre -> In (target l) pre ->
  ensures pre (addLink l) [].
Proof.
  intros Hs Ht Hins Hint g Hw Hk. unfold addLink.
  assert (Hhs : hasNode g (source l) = true)
    by (unfold knows in Hk; rewrite Forall_forall in Hk; now apply Hk).
  assert (Hht : hasNode g (target l) = true)
    by (unfold knows in Hk; rewrite Forall_forall in Hk; now apply Hk).
  destruct (hasLink g l) eqn:E; simpl.
  - split; [exact Hw|]. split; [exact Hk|]. intros g' E'. now inversion E'; subst.
  - split; [now apply wellFormed_addLink|]. split; [exact Hk|].
    intros g' E'. inversion E'; subst. exact Hk.
Qed.

Lemma ensures_ext (pre added : list string) (p q : step) :
  (forall g, p g = q g) -> ensures pre p added -> ensures pre q added.
Proof. intros E H g Hw Hk. rewrite <- E. now apply H. Qed.

Lemma contributorKey_platform (u : user) :
  contributorKey (platformContributor u) = Some (login u).
Proof.
  unfold contributorKey, platformContributor; simpl.
  now destruct (String.eqb (login u) "").
Qed.

(** A platform user is added and linked to a content node the graph
    knows. *)
Lemma ensures_userLink (pre : list string) (u : user) (l : link) :
  source l = nodeId "contributor" (login u) ->
  (exists p, target l = nodeId "content" p) ->
  In (target l) pre ->
  ensures pre (andThen (addContributorNode (platformContributor u)) (addLink l))
          [nodeId "contributor" (login u)].
Proof.
  intros Hs Ht Hin.
  pose proof (@ensures_addContributorNode pre (platformContributor u)) as H1.
  rewrite contributorKey_platform in H1.
  apply (@ensures_andThen pre _ [] _ _ H1).
  apply ensures_addLink; [now exists (login u)|exact Ht| |].
  - rewrite Hs. now left.
  - right. exact Hin.
Qed.

Lemma ensures_mapComment (pre : list string) (contentPath : string) (c : comment) :
  In (nodeId "content" contentPath) pre ->
  ensures pre (mapComment contentPath c) [].
Proof.
  intros Hin. unfold mapComment. eapply ensures_forget.
  apply ensures_userLink; simpl; [reflexivity|now exists contentPath|exact Hin].
Qed.

Lemma ensures_mapReview (pre : list string) (contentPath : string) (r : review) :
  In (nodeId "content" contentPath) pre ->
  ensures pre (mapReview contentPath r) [].
Proof.
  intros Hin. unfold mapReview. eapply ensures_forget.
  apply ensures_userLink; simpl; [reflexivity|now exists contentPath|exact Hin].
Qed.

Lemma ensures_mapFile (pre : list string) (c : commit) (f : fileStat) :
  In (nodeId "contributor" (author c)) pre ->
  ensures pre (mapFile c f) [].
Proof.
  intros Hin. unfold mapFile. eapply ensures_forget.
  eapply ensures_andThen.
  - apply ensures_addContentNode. simpl. apply getFileType_not_contributor.
  - destruct (isoTime c) as [time|]; [|apply (@ensures_throw _ [])].
    apply ensures_addLink; simpl.
    + now exists (author c).
    + now exists (file_path f).
    + right. exact Hin.
    + now left.
Qed.

Lemma ensures_mapCommit (pre : list string) (c : commit) :
  ensures pre (mapCommit c) [].
Proof.
  unfold mapCommit.
  set (who := {| contributor_name := author c;
                 contributor_email := Some (commit_email c);
                 contributor_github := None;
                 contributor_avatarUrl := None |}).
  pose proof (@ensures_addContributorNode pre who) as H1.
  destruct (String.eqb (author c) "") eqn:E.
  - apply (@ensures_ext pre [] throw); [|apply ensures_throw].
    intros g. unfold andThen, addContributorNode; simpl. now rewrite E.
  - assert (Hk : contributorKey who = Some (author c))
      by (unfold contributorKey; simpl; now rewrite E).
    rewrite Hk in H1. eapply ensures_forget.
    apply (@ensures_andThen pre _ [] _ _ H1).
    apply ensures_forEach. intros f. apply ensures_mapFile. now left.
Qed.

Lemma ensures_mapIssue (pre : list string) (a : activity) (i : issue) :
  ensures pre (mapIssue a i) [].
Proof.
  unfold mapIssue. destruct (pull_request i); [apply ensures_skip|].
  set (contentPath := "issues/" ++ decimal (issue_number i)).
  pose proof (@ensures_addContributorNode pre (platformContributor (issue_user i))) as H1.
  rewrite contributorKey_platform in H1.
  eapply ensures_forget.
  eapply ensures_andThen; [exact H1|].
  eapply ensures_andThen.
  - apply ensures_addContentNode. reflexivity.
  - eapply ensures_andThen.
    + apply ensures_addLink; simpl.
      * now exists (login (issue_user i)).
      * now exists contentPath.
      * right. now left.
      * now left.
    + destruct (fetchIssueComments a (issue_number i)) as [comments | m];
        [|apply (@ensures_throw _ [])].
      apply ensures_forEach. intros c. apply ensures_mapComment. simpl. now left.
Qed.

Lemma ensures_mapPR (pre : list string) (a : activity) (pr : pullRequest) :
  ensures pre (mapPR a pr) [].
Proof.
  unfold mapPR.
  set (contentPath := "pulls/" ++ decimal (pr_number pr)).
  pose proof (@ensures_addContributorNode pre (platformContributor (pr_user pr))) as H1.
  rewrite contributorKey_platform in H1.
  eapply ensures_forget.
  eapply ensures_andThen; [exact H1|].
  eapply ensures_andThen.
  - apply ensures_addContentNode. reflexivity.
  - eapply ensures_andThen.
    + apply ensures_addLink; simpl.
      * now exists (login (pr_user pr)).
      * now exists contentPath.
      * right. now left.
      * now left.
    + eapply ensures_andThen.
      * destruct (fetchPRReviews a (pr_number pr)) as [reviews | m];
          [|apply (@ensures_throw _ [])].
        apply ensures_forEach. intros r. apply ensures_mapReview. simpl. now left.
      * destruct (fetchPRComments a (pr_number pr)) as [comments | m];
          [|apply (@ensures_throw _ [])].
        apply ensures_forEach. intros c. apply ensures_mapComment. simpl. now left.
Qed.

Lemma ensures_mapContributions (a : activity) : ensures [] (mapContributions a) [].
Proof.
  unfold mapContributions, mapCodeContributions, mapIssueContributions,
    mapPRContributions, mapDiscussionContributions.
  apply (@ensures_andThen [] [] []).
  { eapply ensures_tryCatch.
    destruct (gitLog a); [|apply (@ensures_throw _ [])].
    apply ensures_forEach. intros c. apply ensures_mapCommit. }
  apply (@ensures_andThen [] [] []).
  { eapply ensures_tryCatch.
    destruct (fetchAllIssues a); [|apply (@ensures_throw _ [])].
    apply ensures_forEach. intros i. apply ensures_mapIssue. }
  apply (@ensures_andThen [] [] []).
  { eapply ensures_tryCatch.
    destruct (fetchAllPullRequests a); [|apply (@ensures_throw _ [])].
    apply ensures_forEach. intros pr. apply ensures_mapPR. }
  eapply ensures_tryCatch. apply ensures_skip.
Qed.

Lemma wellFormed_metrics (g : graph) :
  wellFormed g -> wellFormed (calculateAttributionMetrics g).
Proof.
  intros ((Hn & Hl) & Hnodes & Hlinks). split; [split|split].
  - simpl. rewrite map_map. erewrite map_ext; [exact Hn|].
    intros n. apply id_countContributions.
  - exact Hl.
  - intros n Hin. simpl in Hin. apply in_map_iff in Hin.
    destruct Hin as [m [<- Hm]].
    rewrite id_countContributions, isContributor_countContributions.
    now apply Hnodes.
  - intros l Hin. simpl in Hin. destruct (Hlinks l Hin) as (H1 & H2 & H3 & H4).
    rewrite !hasNode_metrics. auto.
Qed.

Lemma wellFormed_run (a : activity) (g : graph) :
  wellFormed g -> wellFormed (generateAttributionMap a g).
Proof.
  intros H. rewrite generateAttributionMap_passes. apply wellFormed_metrics.
  apply (@ensures_mapContributions a g H). constructor.
Qed.

Lemma wellFormed_empty : wellFormed emptyGraph.
Proof.
  split; [split; constructor|]. split; intros x [].
Qed.

Lemma built_wellFormed (g : graph) : built g -> wellFormed g.
Proof.
  induction 1; [apply wellFormed_empty|now apply wellFormed_run].
Qed.

Lemma two_nodes (ns : list node) (n1 n2 : node) :
  In n1 ns -> In n2 ns -> n1 <> n2 -> 2 <= List.length ns.
Proof.
  intros H1 H2 Hne. destruct ns as [|a [|b rest]]; simpl; [destruct H1| |lia].
  exfalso. destruct H1 as [E1 | []], H2 as [E2 | []]. congruence.
Qed.

Lemma hasNode_exists (g : graph) (i : string) :
  hasNode g i = true -> exists n, In n (nodes g) /\ id n = i.
Proof.
  unfold hasNode. rewrite existsb_exists. intros [n [Hn He]].
  apply String.eqb_eq in He. now exists n.
Qed.

Lemma wellFormed_links (g : graph) (l : link) :
  wellFormed g -> In l (links g) ->
  source l <> target l /\ 2 <= List.length (nodes g).
Proof.
  intros (_ & _ & Hlinks) Hin.
  destruct (Hlinks l Hin) as ((k & Hs) & (p & Ht) & Hhs & Hht).
  assert (Hne : source l <> target l).
  { rewrite Hs, Ht. apply nodeId_kinds_apart_aux. }
  split; [exact Hne|].
  destruct (hasNode_exists _ _ Hhs) as (n1 & Hn1 & Hi1).
  destruct (hasNode_exists _ _ Hht) as (n2 & Hn2 & Hi2).
  apply (@two_nodes (nodes g) n1 n2 Hn1 Hn2). intros E. subst n2. congruence.
Qed.

(** Both ends of a link of a well-formed graph are nodes of it, a
    contributor at the source and a node of another type at the
    target. *)
Lemma wellFormed_ends (g : graph) (l : link) :
  wellFormed g -> In l (links g) ->
  exists from to,
    In from (nodes g) /\ In to (nodes g)
    /\ id from = source l /\ id to = target l
    /\ isContributor from = true /\ isContributor to = false.
Proof.
  intros (_ & Hnodes & Hlinks) Hin.
  destruct (Hlinks l Hin) as ((k & Hs) & (p & Ht) & Hhs & Hht).
  destruct (hasNode_exists _ _ Hhs) as (from & Hf & Hfi).
  destruct (hasNode_exists _ _ Hht) as (to & Hto & Hti).
  exists from, to. repeat (split; [assumption|]). split.
  - destruct (Hnodes from Hf) as [[Hc _] | [_ [q Hq]]]; [exact Hc|].
    exfalso. apply (@nodeId_kinds_apart_aux k q). congruence.
  - destruct (Hnodes to Hto) as [[_ [q Hq]] | [Hc _]]; [|exact Hc].
    exfalso. apply (@nodeId_kinds_apart_aux q p). congruence.
Qed.

(** X11. In every graph the script has built, no two nodes share an
    identifier and no two links a key; every link goes from a
    contributor node of the graph to a content node of the graph, which
    is a node of another type, and is not a loop; and a graph with a
    link has at least two nodes, so the density the script stores for
    it is NaN (fewer than two nodes) or a finite number, never an
    infinity. *)
Theorem built_graph_shape (g : graph) :
  built g ->
  noDuplicates g
  /\ linksResolve g
  /\ (forall l, In l (links g) ->
        exists from to,
          In from (nodes g) /\ In to (nodes g)
          /\ id from = source l /\ id to = target l
          /\ isContributor from = true /\ isContributor to = false)
  /\ (forall l, In l (links g) -> source l <> target l)
  /\ (links g <> [] -> 2 <= List.length (nodes g))
  /\ (graphDensity (List.length (nodes g)) (List.length (links g)) = NaN
      \/ exists q, graphDensity (List.length (nodes g)) (List.length (links g)) = Finite q).
Proof.
  intros Hb. pose proof (built_wellFormed Hb) as Hw.
  assert (H2 : links g <> [] -> 2 <= List.length (nodes g)).
  { intros Hne. destruct (links g) as [|l ls] eqn:E; [congruence|].
    apply (@wellFormed_links g l Hw). rewrite E. now left. }
  split; [apply Hw|]. split; [|split; [|split; [|split; [exact H2|]]]].
  - intros l Hin. destruct Hw as (_ & _ & Hlinks).
    destruct (Hlinks l Hin) as (_ & _ & Hs & Ht). now split.
  - intros l Hin. now apply (@wellFormed_ends g l Hw).
  - intros l Hin. now apply (@wellFormed_links g l Hw).
  - destruct (links g) as [|l ls] eqn:E.
    + destruct (List.length (nodes g)) as [|[|n]] eqn:En.
      * left. reflexivity.
      * left. reflexivity.
      * right. destruct (@graphDensity_two_nodes (S (S n)) 0) as [q [Hq _]]; [lia|].
        now exists q.
    + right. assert (Hn : 2 <= List.length (nodes g)) by (apply H2; discriminate).
      destruct (@graphDensity_two_nodes (List.length (nodes g)) (List.length (l :: ls)) Hn)
        as [q [Hq _]].
      now exists q.
Qed.

Lemma built_graph_shape_witness :
  built (generateAttributionMap sampleActivity emptyGraph)
  /\ noDuplicates (generateAttributionMap sampleActivity emptyGraph).
Proof.
  assert (H : built (generateAttributionMap sampleActivity emptyGraph))
    by (apply built_run, built_empty).
  split; [exact H|]. exact (proj1 (built_graph_shape H)).
Defined.

Lemma filter_partition_length {A : Type} (f : A -> bool) (l : list A) :
  List.length (filter f l) + List.length (filter (fun x => negb (f x)) l)
  = List.length l.
Proof.
  induction l as [|x l IH]; simpl; [reflexivity|].
  destruct (f x); simpl; lia.
Qed.

Lemma calculateAttributionMetrics_shape (g : graph) :
  map id (nodes (calculateAttributionMetrics g)) = map id (nodes g)
  /\ links (calculateAttributionMetrics g) = links g
  /\ (forall n, In n (nodes g) -> isContributor n = false ->
        In n (nodes (calculateAttributionMetrics g))).
Proof.
  split; [|split].
  - simpl. rewrite map_map. apply map_ext. intros n. apply id_countContributions.
  - reflexivity.
  - intros n Hin Hc. simpl. apply in_map_iff. exists n. split; [|exact Hin].
    unfold countContributions. now rewrite Hc.
Qed.

(** X12. [calculateAttributionMetrics] changes no identifier, no type
    and no link.  It gives every contributor node the number of links
    that start at its identifier, and a breakdown that holds under
    every link type that names no property every object inherits the
    number of those links of that type; a type that names an inherited
    function gets a text in the place of a number, and [__proto__] no
    entry.  The numbers of the breakdown add up to the links of the
    node whose type is counted, hence to its contributions when every
    type is.  The contributor count and the content count add up to
    the number of nodes, and the total is the number of links. *)
Theorem calculateAttributionMetrics_counts (g : graph) :
  let r := calculateAttributionMetrics g in
  map id (nodes r) = map id (nodes g)
  /\ map type (nodes r) = map type (nodes g)
  /\ links r = links g
  /\ (forall n, In n (nodes r) -> isContributor n = true ->
        let made := filter (fun l => String.eqb (source l) (id n)) (links g) in
        contributions n = Some (List.length made)
        /\ (forall t, own t (contributionBreakdown n)
                      = afterTurns t (List.length
                                        (filter (fun l => String.eqb (link_type l) t) made)))
        /\ total (contributionBreakdown n)
           = List.length (filter (fun l => ordinaryKey (link_type l)) made)
        /\ ((forall l, In l made -> ordinaryKey (link_type l) = true) ->
            total (contributionBreakdown n) = contributionsOf n))
  /\ (forall n, In n (nodes r) -> isContributor n = false -> In n (nodes g))
  /\ (exists m, graph_metrics r = Some m
                /\ contributorCount m + contentNodes m = List.length (nodes g)
                /\ totalContributions m = List.length (links g)).
Proof.
  intros r. split; [|split; [|split; [|split; [|split]]]].
  - simpl. rewrite map_map. apply map_ext. intros n. apply id_countContributions.
  - simpl. rewrite map_map. apply map_ext. intros n.
    unfold countContributions. now destruct (isContributor n).
  - reflexivity.
  - intros n Hin Hc. simpl in Hin. apply in_map_iff in Hin.
    destruct Hin as [m [<- Hm]].
    rewrite isContributor_countContributions in Hc.
    rewrite id_countContributions.
    unfold countContributions, contributionsOf. rewrite Hc.
    cbn [contributions contributionBreakdown].
    set (made := filter (fun l => String.eqb (source l) (id m)) (links g)).
    assert (Ht : total (fold_left increment (map link_type made) [])
                 = List.length (filter (fun l => ordinaryKey (link_type l)) made)).
    { rewrite total_fold. clear. induction made as [|l made IH]; [reflexivity|].
      cbn [map filter]. destruct (ordinaryKey (link_type l)); cbn [List.length];
        now rewrite IH. }
    split; [reflexivity|]. split; [|split; [exact Ht|]].
    + intros t. rewrite own_fold. f_equal. clear.
      induction made as [|l made IH]; [reflexivity|].
      cbn [map filter]. destruct (String.eqb (link_type l) t); cbn [List.length];
        now rewrite IH.
    + intros Hall. rewrite Ht. f_equal. clear - Hall.
      induction made as [|l made IH]; [reflexivity|].
      cbn [filter]. rewrite (Hall l (or_introl eq_refl)). f_equal.
      apply IH. intros l' Hl'. apply Hall. now right.
  - intros n Hin Hc. simpl in Hin. apply in_map_iff in Hin.
    destruct Hin as [m [<- Hm]].
    rewrite isContributor_countContributions in Hc.
    unfold countContributions. now rewrite Hc.
  - eexists. split; [reflexivity|]. simpl. split; [|reflexivity].
    apply filter_partition_length.
Qed.

Lemma list_sum_map_add {A : Type} (f h : A -> nat) (l : list A) :
  list_sum (map (fun x => f x + h x) l) = list_sum (map f l) + list_sum (map h l).
Proof. induction l as [|x l IH]; simpl; [reflexivity|]. rewrite IH. lia. Qed.

Lemma list_sum_indicator {A : Type} (p : A -> bool) (l : list A) :
  list_sum (map (fun x => if p x then 1 else 0) l) = List.length (filter p l).
Proof.
  induction l as [|x l IH]; simpl; [reflexivity|].
  destruct (p x); simpl; now rewrite IH.
Qed.

Lemma filter_absent (s : string) (ns : list node) :
  ~ In s (map id ns) ->
  filter (fun m => String.eqb s (id m)) (filter isContributor ns) = [].
Proof.
  induction ns as [|m ns IH]; simpl; intros H; [reflexivity|].
  destruct (isContributor m); simpl.
  - destruct (String.eqb s (id m)) eqn:E.
    + apply String.eqb_eq in E. exfalso. apply H. now left.
    + apply IH. tauto.
  - apply IH. tauto.
Qed.

(** With identifiers that are not shared, one contributor node, and
    only one, has a given contributor's identifier. *)
Lemma one_contributor (ns : list node) (n : node) :
  NoDup (map id ns) -> In n ns -> isContributor n = true ->
  List.length (filter (fun m => String.eqb (id n) (id m)) (filter isContributor ns)) = 1.
Proof.
  induction ns as [|m ns IH]; simpl; intros Hnd Hin Hc; [destruct Hin|].
  inversion Hnd as [|? ? Hnot Hnd']; subst.
  destruct Hin as [-> | Hin].
  - rewrite Hc. simpl. rewrite String.eqb_refl. simpl.
    now rewrite filter_absent.
  - assert (Hne : String.eqb (id n) (id m) = false).
    { apply String.eqb_neq. intros E. apply Hnot. rewrite <- E. now apply in_map. }
    destruct (isContributor m); simpl; [rewrite Hne|]; now apply IH.
Qed.

Lemma contributions_cover (g : graph) :
  wellFormed g ->
  forall ls, incl ls (links g) ->
    list_sum (map (fun n => List.length
                              (filter (fun l => String.eqb (source l) (id n)) ls))
                  (filter isContributor (nodes g)))
    = List.length ls.
Proof.
  intros ((Hn & _) & Hnodes & Hlinks).
  induction ls as [|l ls IH]; intros Hincl; simpl.
  - induction (filter isContributor (nodes g)); simpl; auto.
  - assert (IH' := IH (fun x Hx => Hincl x (or_intror Hx))).
    assert (Hl : In l (links g)) by (apply Hincl; now left).
    destruct (Hlinks l Hl) as ((k & Hs) & _ & Hhs & _).
    destruct (hasNode_exists _ _ Hhs) as (n & Hin & Hid).
    assert (Hc : isContributor n = true).
    { destruct (Hnodes n Hin) as [[Hc _] | [_ [p Hp]]]; [exact Hc|].
      exfalso. apply (@nodeId_kinds_apart_aux k p). congruence. }
    pose proof (@one_contributor (nodes g) n Hn Hin Hc) as Hone. rewrite Hid in Hone.
    change (S (List.length ls)) with (1 + List.length ls).
    rewrite <- IH', <- Hone.
    rewrite <- list_sum_indicator, <- list_sum_map_add.
    f_equal. apply map_ext. intros m. cbn [filter].
    destruct (String.eqb (source l) (id m)); reflexivity.
Qed.

Lemma counted_contributions (ls : list link) (ns : list node) :
  list_sum (map contributionsOf
                (filter isContributor (map (countContributions ls) ns)))
  = list_sum (map (fun n => List.length
                              (filter (fun l => String.eqb (source l) (id n)) ls))
                  (filter isContributor ns)).
Proof.
  induction ns as [|n ns IH]; [reflexivity|].
  cbn [map filter]. rewrite isContributor_countContributions.
  destruct (isContributor n) eqn:E; [|exact IH].
  cbn [map]. change (list_sum ?l) with (fold_right Nat.add 0 l) in *.
  cbn [fold_right]. rewrite IH. f_equal.
  unfold countContributions, contributionsOf. now rewrite E.
Qed.

(** X13. After a run on a well-formed graph, in particular on any graph
    the script has built, every link is counted for exactly one
    contributor: the contributions of the contributor nodes add up to
    the number of links. *)
Theorem contributions_add_up (a : activity) (g : graph) :
  wellFormed g ->
  let r := generateAttributionMap a g in
  list_sum (map contributionsOf (filter isContributor (nodes r)))
  = List.length (links r).
Proof.
  intros Hw r.
  set (h := graphOf (mapContributions a g)).
  assert (Hh : wellFormed h) by (apply (@ensures_mapContributions a g Hw); constructor).
  change r with (calculateAttributionMetrics h). cbn [calculateAttributionMetrics nodes links].
  rewrite <- (@contributions_cover h Hh (links h) (incl_refl _)).
  apply counted_contributions.
Qed.

Lemma contributions_add_up_witness :
  wellFormed emptyGraph
  /\ list_sum (map contributionsOf
                   (filter isContributor
                           (nodes (generateAttributionMap sampleActivity emptyGraph))))
     = 6.
Proof.
  split; [exact wellFormed_empty|].
  rewrite (@contributions_add_up sampleActivity emptyGraph wellFormed_empty). reflexivity.
Defined.

(** Whatever holds of the steps that add one node or one link, and is
    kept by sequencing, loops and [try]/[catch], holds of the mapping
    phase of a run. *)
Lemma mapContributions_steps (P : step -> Prop) :
  P skip -> P throw ->
  (forall p q, P p -> P q -> P (andThen p q)) ->
  (forall p, P p -> P (tryCatch p)) ->
  (forall c, P (addContributorNode c)) ->
  (forall c, P (addContentNode c)) ->
  (forall l, P (addLink l)) ->
  forall a, P (mapContributions a).
Proof.
  intros Hskip Hthrow Hseq Htry Hc Hn Hl a.
  assert (Hloop : forall (A : Type) (body : A -> step) (xs : list A),
             (forall x, P (body x)) -> P (forEach body xs)).
  { intros A body xs H. induction xs as [|x xs IH]; simpl;
      [exact Hskip|apply Hseq; [apply H|exact IH]]. }
  assert (Hcomment : forall contentPath c, P (mapComment contentPath c)).
  { intros contentPath c. unfold mapComment. apply Hseq; auto. }
  unfold mapContributions, mapCodeContributions, mapIssueContributions,
    mapPRContributions, mapDiscussionContributions.
  apply Hseq; [apply Htry|].
  2: apply Hseq; [apply Htry|].
  3: apply Hseq; apply Htry.
  - destruct (gitLog a); [|apply Hthrow].
    apply Hloop. intros c. unfold mapCommit.
    apply Hseq; [auto|].
    apply Hloop. intros f. unfold mapFile.
    apply Hseq; [auto|].
    destruct (isoTime c); auto.
  - destruct (fetchAllIssues a); [|apply Hthrow].
    apply Hloop. intros i. unfold mapIssue.
    destruct (pull_request i); [apply Hskip|].
    do 3 (apply Hseq; [auto|]).
    destruct (fetchIssueComments a (issue_number i)); [|apply Hthrow].
    apply Hloop, Hcomment.
  - destruct (fetchAllPullRequests a); [|apply Hthrow].
    apply Hloop. intros pr. unfold mapPR.
    do 3 (apply Hseq; [auto|]).
    apply Hseq.
    + destruct (fetchPRReviews a (pr_number pr)); [|apply Hthrow].
      apply Hloop. intros r. unfold mapReview.
      apply Hseq; auto.
    + destruct (fetchPRComments a (pr_number pr)); [|apply Hthrow].
      apply Hloop, Hcomment.
  - apply Hskip.
Qed.

Lemma extends_refl (g : graph) : extends g g.
Proof. exists [], []. now rewrite !app_nil_r. Qed.

Lemma extends_trans (g h k : graph) : extends g h -> extends h k -> extends g k.
Proof.
  intros (n1 & l1 & Hn1 & Hl1) (n2 & l2 & Hn2 & Hl2).
  exists (n1 ++ n2)%list, (l1 ++ l2)%list.
  rewrite Hn2, Hl2, Hn1, Hl1, <- !app_assoc. now split.
Qed.

Lemma grows_mapContributions (a : activity) : grows (mapContributions a).
Proof.
  apply mapContributions_steps.
  - intros g. apply extends_refl.
  - intros g. apply extends_refl.
  - intros p q Hp Hq g. unfold andThen.
    specialize (Hp g). destruct (p g) as [h|h]; simpl in *; [|exact Hp].
    exact (extends_trans Hp (Hq h)).
  - intros p Hp g. specialize (Hp g). unfold tryCatch.
    now destruct (p g).
  - intros c g. unfold addContributorNode.
    destruct (if String.eqb (contributor_name c) "" then contributor_github c
              else Some (contributor_name c)); [|apply extends_refl].
    destruct (hasNode g _); [apply extends_refl|].
    simpl. eexists [_], []. simpl. now rewrite app_nil_r.
  - intros c g. unfold addContentNode.
    destruct (hasNode g _); [apply extends_refl|].
    simpl. eexists [_], []. simpl. now rewrite app_nil_r.
  - intros l g. unfold addLink.
    destruct (hasLink g _); [apply extends_refl|].
    simpl. eexists [], [_]. simpl. now rewrite app_nil_r.
Qed.

(** X14. A run never drops or reorders what the stored map holds: the
    stored links come first in the result, unchanged (so a link keeps
    the timestamp and details it was first stored with), the stored
    node identifiers come first in the same order, and a stored content
    node is kept as it is. *)
Theorem generateAttributionMap_grows (a : activity) (g : graph) :
  let r := generateAttributionMap a g in
  (exists newLinks, links r = (links g ++ newLinks)%list)
  /\ (exists newIds, map id (nodes r) = (map id (nodes g) ++ newIds)%list)
  /\ (forall n, In n (nodes g) -> isContributor n = false -> In n (nodes r))
  /\ List.length (nodes g) <= List.length (nodes r).
Proof.
  intros r.
  destruct (grows_mapContributions a g) as (newNodes & newLinks & Hn & Hl).
  set (h := graphOf (mapContributions a g)) in *.
  assert (Hr : r = calculateAttributionMetrics h) by reflexivity.
  destruct (calculateAttributionMetrics_shape h) as (Hids & Hlinks & Hkept).
  rewrite <- Hr in *.
  split; [|split; [|split]].
  - exists newLinks. now rewrite Hlinks.
  - exists (map id newNodes). now rewrite Hids, Hn, map_app.
  - intros n Hin Hc. apply Hkept; [|exact Hc]. rewrite Hn. apply in_or_app. now left.
  - rewrite <- (length_map id (nodes r)), Hids, Hn, length_map, length_app. lia.
Qed.

End BuiltGraphs.

(* ===================================================================== *)
(** * Properties of the period report *)
(* ===================================================================== *)

Section PeriodReport.

Import CoherenceReport.
Local Open Scope Q_scope.

Ltac bands :=
  repeat match goal with
         | H : CoherenceCheck.lessThan _ _ = true |- _ => apply lessThan_true in H
         | H : CoherenceCheck.lessThan _ _ = false |- _ => apply lessThan_false in H
         end.

(** X15. For each of the four components the report always gives
    advice, whatever the value, a perfect score included: four items
    below 0.7, two from 0.7 up to 0.85, one from 0.85 on.  The items are
    the first ones of the component's list, so a higher value gives a
    prefix of what a lower value gives. *)
Theorem generateComponentRecommendations_bands (component : string) (v w : Q) :
  In component (map fst defaultRecommendations) ->
  let r := generateComponentRecommendations component in
  (v < 7 # 10 -> List.length (r v) = 4%nat)
  /\ (7 # 10 <= v -> v < 85 # 100 -> List.length (r v) = 2%nat)
  /\ (85 # 100 <= v -> List.length (r v) = 1%nat)
  /\ (v <= w -> exists rest, r v = (r w ++ rest)%list)
  /\ nth_error (r v) 0 = nth_error (defaultsFor component) 0.
Proof.
  intros Hin r. unfold r, generateComponentRecommendations.
  assert (Hd : exists a b c d, defaultsFor component = [a; b; c; d]).
  { simpl in Hin. destruct Hin as [<- | [<- | [<- | [<- | []]]]];
      do 4 eexists; reflexivity. }
  destruct Hd as (a & b & c & d & ->).
  destruct (CoherenceCheck.lessThan v (7 # 10)) eqn:E1;
    destruct (CoherenceCheck.lessThan v (85 # 100)) eqn:E2;
    destruct (CoherenceCheck.lessThan w (7 # 10)) eqn:E3;
    destruct (CoherenceCheck.lessThan w (85 # 100)) eqn:E4;
    bands;
    (split; [intros; (reflexivity || Lqa.lra)|]);
    (split; [intros; (reflexivity || Lqa.lra)|]);
    (split; [intros; (reflexivity || Lqa.lra)|]);
    (split; [|reflexivity]);
    intros Hvw; try Lqa.lra; simpl; eexists; reflexivity.
Qed.

Lemma generateComponentRecommendations_bands_witness :
  List.length (generateComponentRecommendations "elasticTolerance" 1) = 1%nat.
Proof.
  apply (@generateComponentRecommendations_bands "elasticTolerance" 1 1).
  - simpl. tauto.
  - unfold Qle. simpl. lia.
Defined.

Lemma fold_pushWhen {A : Type} (low : A -> bool) (message : A -> string) (l : list A) :
  forall start,
    fold_left (fun recommendations x => pushWhen (low x) (message x) recommendations)
              l start
    = (start ++ map message (filter low l))%list.
Proof.
  induction l as [|x l IH]; intros start; simpl; [now rewrite app_nil_r|].
  rewrite IH. unfold pushWhen. destruct (low x); simpl; [|reflexivity].
  now rewrite <- app_assoc.
Qed.

Lemma pushWhen_app (condition : bool) (message : string) (l : list string) :
  pushWhen condition message l = (l ++ (if condition then [message] else []))%list.
Proof. destruct condition; simpl; [reflexivity|now rewrite app_nil_r]. Qed.

Lemma improveMessage_not_maintain (component : string) (m : componentMetric) :
  improveMessage component m <> maintainMessage.
Proof.
  unfold improveMessage, maintainMessage. cbn [append]. discriminate.
Qed.

Lemma filter_nil_iff {A : Type} (f : A -> bool) (l : list A) :
  filter f l = [] <-> forall x, In x l -> f x = false.
Proof.
  induction l as [|x l IH]; simpl; [tauto|].
  destruct (f x) eqn:E; split.
  - discriminate.
  - intros H. specialize (H x (or_introl eq_refl)). congruence.
  - intros H y [<- | Hy]; [exact E|now apply IH].
  - intros H. apply IH. auto.
Qed.

Lemma maintain_when_silent (said : list string) :
  ~ In maintainMessage said ->
  let r := pushWhen (Nat.eqb (List.length said) 0) maintainMessage said in
  r <> []
  /\ (In maintainMessage r <-> r = [maintainMessage])
  /\ (r = [maintainMessage] <-> said = [])
  /\ (List.length r <= Nat.max 1 (List.length said))%nat.
Proof.
  intros Hnot r. unfold r. destruct said as [|m said]; simpl.
  - split; [discriminate|]. split; [|split]; [| |lia].
    + split; [reflexivity|]. intros _. now left.
    + split; reflexivity.
  - split; [discriminate|]. split; [|split]; [| |lia].
    + split; [intros H; now destruct Hnot|].
      intros H. injection H as -> ->. now left.
    + split; [|discriminate]. intros H. exfalso. apply Hnot.
      injection H as -> ->. now left.
Qed.

Lemma issues_quiet (closed open : nat) :
  (Nat.eqb closed 0 && Nat.ltb 0 open = false)
  <-> ~ (closed = 0%nat /\ (0 < open)%nat).
Proof.
  rewrite andb_false_iff, Nat.eqb_neq, Nat.ltb_ge. lia.
Qed.

Lemma residue_quiet (active resolved : nat) :
  (Nat.ltb 10 active && Nat.eqb resolved 0 = false)
  <-> ~ ((10 < active)%nat /\ resolved = 0%nat).
Proof.
  rewrite andb_false_iff, Nat.eqb_neq, Nat.ltb_ge. lia.
Qed.

(** X16. The overall recommendations are never empty.  The advice to
    maintain current practices is given exactly when nothing else is
    said, and then it is the only item: when no component is below 0.7,
    there was a commit, it is not the case that issues are open and
    none was closed, and it is not the case that more than ten residue
    instances are active and none was resolved. *)
Theorem generateOverallRecommendations_never_empty
  (metrics : list (string * componentMetric))
  (activity : repoActivity) (residue : residueData) :
  let r := generateOverallRecommendations metrics activity residue in
  r <> []
  /\ (In maintainMessage r <-> r = [maintainMessage])
  /\ (r = [maintainMessage] <->
        (forall kv, In kv metrics -> 7 # 10 <= current (snd kv))
        /\ commitCount activity <> 0%nat
        /\ ~ (closedIssues activity = 0%nat /\ (0 < openIssues activity)%nat)
        /\ ~ ((10 < active residue)%nat /\ resolved residue = 0%nat))
  /\ (List.length r <= List.length metrics + 3)%nat.
Proof.
  intros r. unfold r, generateOverallRecommendations.
  rewrite fold_pushWhen. cbn [app].
  set (low := fun kv : string * componentMetric =>
                CoherenceCheck.lessThan (current (snd kv)) (7 # 10)).
  set (r0 := map (fun kv => improveMessage (fst kv) (snd kv)) (filter low metrics)).
  assert (H0 : ~ In maintainMessage r0).
  { unfold r0. intros H. apply in_map_iff in H. destruct H as (kv & E & _).
    exact (improveMessage_not_maintain E). }
  assert (L0 : (List.length r0 <= List.length metrics)%nat).
  { unfold r0. rewrite length_map. apply filter_length_le. }
  assert (E0 : r0 = [] <-> forall kv, In kv metrics -> 7 # 10 <= current (snd kv)).
  { unfold r0. split.
    - intros H kv Hkv. apply map_eq_nil in H.
      apply (proj1 (filter_nil_iff low metrics) H) in Hkv.
      unfold low in Hkv. now apply lessThan_false in Hkv.
    - intros H. replace (filter low metrics) with (@nil (string * componentMetric));
        [reflexivity|].
      symmetry. apply filter_nil_iff. intros kv Hkv. unfold low.
      apply lessThan_false. now apply H. }
  clearbody r0. clear low.
  pose proof (Nat.eqb_neq (commitCount activity) 0) as Q1.
  pose proof (issues_quiet (closedIssues activity) (openIssues activity)) as Q2.
  pose proof (residue_quiet (active residue) (resolved residue)) as Q3.
  rewrite (pushWhen_app _ commitMessage), (pushWhen_app _ issuesMessage),
    (pushWhen_app _ residueMessage).
  destruct (Nat.eqb (commitCount activity) 0);
    destruct (Nat.eqb (closedIssues activity) 0 && Nat.ltb 0 (openIssues activity));
    destruct (Nat.ltb 10 (active residue) && Nat.eqb (resolved residue) 0);
    rewrite ?app_nil_r;
    match goal with
    | |- context [pushWhen _ _ ?said] =>
        assert (Hs : ~ In maintainMessage said)
          by (intros H; repeat (apply in_app_or in H; destruct H as [H | H]);
              try tauto; destruct H as [H | []]; discriminate);
        assert (Hl : (List.length said <= List.length metrics + 3)%nat)
          by (rewrite ?length_app; simpl; lia);
        assert (He : said = [] <->
                     (forall kv, In kv metrics -> 7 # 10 <= current (snd kv))
                     /\ commitCount activity <> 0%nat
                     /\ ~ (closedIssues activity = 0%nat
                           /\ (0 < openIssues activity)%nat)
                     /\ ~ ((10 < active residue)%nat /\ resolved residue = 0%nat))
          by (rewrite <- E0, <- Q1, <- Q2, <- Q3;
              split; [intros H; repeat (apply app_eq_nil in H; destruct H as [H ?]);
                      try discriminate; tauto
                     |intros (-> & ? & ? & ?); try discriminate; reflexivity]);
        destruct (@maintain_when_silent said Hs) as (R1 & R2 & R3 & R4);
        split; [exact R1|]; split; [exact R2|];
        split; [now rewrite R3|lia]
    end.
Qed.

Lemma sort_snoc (l : list entry) (e : entry) :
  sort compareEntries (l ++ [e]) = insertSorted compareEntries e (sort compareEntries l).
Proof. unfold sort. now rewrite fold_left_app. Qed.

Lemma insertSorted_latest (e : entry) (l : list entry) :
  (forall x, In x l -> (timestamp x <= timestamp e)%Z) ->
  insertSorted compareEntries e l = (l ++ [e])%list.
Proof.
  induction l as [|x l IH]; intros H; simpl; [reflexivity|].
  assert (Hx : (compareEntries e x <? 0)%Z = false).
  { apply Z.ltb_ge. unfold compareEntries. specialize (H x (or_introl eq_refl)). lia. }
  rewrite Hx, IH; [reflexivity|]. intros y Hy. apply H. now right.
Qed.

Lemma last_default (l : list entry) (a b : entry) :
  l <> [] -> last l a = last l b.
Proof.
  induction l as [|x l IH]; intros H; [contradiction|].
  destruct l as [|y l]; [reflexivity|].
  change (last (y :: l) a = last (y :: l) b). now apply IH.
Qed.

Lemma lastOrNull_snoc (l : list entry) (e : entry) : lastOrNull (l ++ [e]) = Some e.
Proof.
  destruct l as [|x l]; [reflexivity|].
  simpl app. unfold lastOrNull. f_equal.
  change (x :: l ++ [e])%list with ((x :: l) ++ [e])%list. apply last_last.
Qed.

(** The last entry of a list in ascending order is in the list, and no
    entry is later. *)
Lemma lastOrNull_latest (l : list entry) :
  ascending l ->
  match lastOrNull l with
  | Some c => In c l /\ forall x, In x l -> (timestamp x <= timestamp c)%Z
  | None => l = []
  end.
Proof.
  intros Ha. destruct l as [|x l]; [reflexivity|].
  unfold lastOrNull. split.
  - destruct (exists_last (l := x :: l)) as (l' & z & Hz); [discriminate|].
    rewrite Hz, last_last. apply in_or_app. right. now left.
  - intros y Hy. rewrite (@last_default (x :: l) x y) by discriminate.
    apply last_latest; [|exact Hy].
    apply Sorted_StronglySorted; [intros a b c; lia|exact Ha].
Qed.

Lemma filter_before_none (periodStart : Z) (l : list entry) :
  Forall (fun y => (periodStart <= timestamp y)%Z) l ->
  filter (fun e => (timestamp e <? periodStart)%Z) l = []
  /\ filter (fun e => (periodStart <=? timestamp e)%Z) l = l.
Proof.
  induction 1 as [|x l Hx Hl [IH1 IH2]]; simpl; [now split|].
  assert (E1 : (timestamp x <? periodStart)%Z = false) by (apply Z.ltb_ge; lia).
  assert (E2 : (periodStart <=? timestamp x)%Z = true) by (apply Z.leb_le; lia).
  rewrite E1, E2, IH1, IH2. now split.
Qed.

(** In a history in ascending order the entries before the period come
    first and the entries of the period follow. *)
Lemma period_split (periodStart : Z) (h : history) :
  ascending (entries h) ->
  entries h = (previousEntries periodStart h ++ periodEntries periodStart h)%list.
Proof.
  unfold previousEntries, periodEntries, ascending. intros Ha.
  apply Sorted_StronglySorted in Ha; [|intros a b c; lia].
  induction Ha as [|x l Hs IH Hall]; [reflexivity|].
  cbn [filter].
  destruct (timestamp x <? periodStart)%Z eqn:E.
  - assert (E' : (periodStart <=? timestamp x)%Z = false)
      by (apply Z.leb_gt; now apply Z.ltb_lt).
    rewrite E'. simpl. now f_equal.
  - apply Z.ltb_ge in E.
    assert (E' : (periodStart <=? timestamp x)%Z = true) by now apply Z.leb_le.
    rewrite E'.
    destruct (@filter_before_none periodStart l) as [-> ->]; [|reflexivity].
    eapply Forall_impl; [|exact Hall]. simpl. intros y Hy. lia.
Qed.

Lemma appended_entries (h : history) (e : entry) :
  ascending (entries (addToCoherenceHistory h e))
  /\ (forall x, In x (entries (addToCoherenceHistory h e)) <-> In x (entries h ++ [e])).
Proof.
  unfold addToCoherenceHistory; simpl.
  destruct (sort_ascending (entries h ++ [e])) as [Ha Hp].
  split; [exact Ha|]. intros x. split; intros H.
  - exact (Permutation_in x (Permutation_sym Hp) H).
  - exact (Permutation_in x Hp H).
Qed.

Lemma generateOverallRecommendations_nonempty
  (metrics : list (string * componentMetric))
  (activity : repoActivity) (residue : residueData) :
  generateOverallRecommendations metrics activity residue <> [].
Proof.
  unfold generateOverallRecommendations.
  match goal with
  | |- pushWhen _ _ ?said <> [] => destruct said; simpl; discriminate
  end.
Qed.

Lemma report_returns (h : history) (e : entry) :
  exists c, lastOrNull (entries (addToCoherenceHistory h e)) = Some c.
Proof.
  destruct (appended_entries h e) as [Ha Hin].
  pose proof (lastOrNull_latest Ha) as Hlast.
  destruct (lastOrNull (entries (addToCoherenceHistory h e))) as [c|]; [now exists c|].
  exfalso. assert (Hi : In e (entries (addToCoherenceHistory h e))).
  { apply Hin, in_or_app. right. now left. }
  rewrite Hlast in Hi. destruct Hi.
Qed.

(** X17. After the new measurement has been appended the report never
    fails for want of an entry, and what it shows as current is an
    entry of the latest timestamp.  That is the new measurement when no
    stored entry is later; a stored entry with a later timestamp takes
    its place.  A measurement taken within the period is counted among
    the period's entries, and the report always gives a
    recommendation. *)
Theorem report_after_append (periodStart : Z) (h : history) (e : entry)
  (activity : repoActivity) (residue : residueData) :
  exists r c,
    generatePeriodReport periodStart (addToCoherenceHistory h e) activity residue
    = Some r
    /\ In c (entries h ++ [e])
    /\ (forall x, In x (entries h ++ [e]) -> (timestamp x <= timestamp c)%Z)
    /\ overall_current r = overallScore c
    /\ map (fun kv => (fst kv, current (snd kv))) (report_components r)
       = componentEntries c
    /\ ((forall x, In x (entries h) -> (timestamp x <= timestamp e)%Z) -> c = e)
    /\ ((periodStart <= timestamp e)%Z -> (1 <= coherenceEntries r)%nat)
    /\ report_recommendations r <> [].
Proof.
  destruct (appended_entries h e) as [Ha Hin].
  pose proof (lastOrNull_latest Ha) as Hlast.
  unfold generatePeriodReport.
  destruct (lastOrNull (entries (addToCoherenceHistory h e))) as [c|] eqn:Ec.
  2: { exfalso. assert (Hi : In e (entries (addToCoherenceHistory h e))).
       { apply Hin, in_or_app. right. now left. }
       rewrite Hlast in Hi. destruct Hi. }
  destruct Hlast as [Hc Hmax].
  eexists. exists c. split; [reflexivity|]. cbn [overall_current report_components
    coherenceEntries report_recommendations].
  split; [now apply Hin|].
  split; [intros x Hx; now apply Hmax, Hin|].
  split; [reflexivity|].
  split; [|split; [|split]].
  - unfold componentMetrics. rewrite map_map. cbn [fst snd current].
    rewrite <- (map_id (componentEntries c)) at 2.
    apply map_ext. now intros [k v].
  - intros Hle. unfold addToCoherenceHistory in Ec. cbn [entries] in Ec.
    rewrite sort_snoc, insertSorted_latest, lastOrNull_snoc in Ec; [congruence|].
    intros x Hx. apply Hle.
    exact (Permutation_in x (Permutation_sym (proj2 (sort_ascending (entries h)))) Hx).
  - intros Hp.
    assert (Hi : In e (periodEntries periodStart (addToCoherenceHistory h e))).
    { unfold periodEntries. apply filter_In. split.
      - apply Hin, in_or_app. right. now left.
      - now apply Z.leb_le. }
    destruct (periodEntries periodStart (addToCoherenceHistory h e));
      [destruct Hi|simpl; lia].
  - apply generateOverallRecommendations_nonempty.
Qed.

(** X18. The report compares against the latest entry before the start
    of the period.  After an append the history is split by the period
    start, the earlier entries first; the previous score is that of the
    last of them, not later than the period start and not earlier than
    any other entry before it, and the change is the difference of the
    two scores.  When no entry is earlier than the period start the
    previous score and the change are null. *)
Theorem report_previous_entry (periodStart : Z) (h : history) (e : entry)
  (activity : repoActivity) (residue : residueData) :
  let h' := addToCoherenceHistory h e in
  entries h' = (previousEntries periodStart h' ++ periodEntries periodStart h')%list
  /\ exists r,
       generatePeriodReport periodStart h' activity residue = Some r
       /\ (coherenceEntries r + List.length (previousEntries periodStart h')
           = S (List.length (entries h)))%nat
       /\ match lastOrNull (previousEntries periodStart h') with
          | Some p =>
              overall_previous r = Some (overallScore p)
              /\ overall_change r = Some (overall_current r - overallScore p)
              /\ In p (entries h ++ [e])
              /\ (timestamp p < periodStart)%Z
              /\ (forall x, In x (entries h ++ [e]) ->
                    (timestamp x < periodStart)%Z ->
                    (timestamp x <= timestamp p)%Z)
          | None =>
              overall_previous r = None
              /\ overall_change r = None
              /\ (forall x, In x (entries h ++ [e]) ->
                    (periodStart <= timestamp x)%Z)
          end.
Proof.
  intros h'.
  destruct (appended_entries h e) as [Ha Hin]. fold h' in Ha, Hin.
  pose proof (@period_split periodStart h' Ha) as Hsplit.
  split; [exact Hsplit|].
  destruct (report_returns h e) as [c Hc]. fold h' in Hc.
  unfold generatePeriodReport. rewrite Hc.
  eexists. split; [reflexivity|].
  cbn [coherenceEntries overall_previous overall_change overall_current].
  split.
  - rewrite Nat.add_comm, <- length_app, <- Hsplit.
    unfold h', addToCoherenceHistory. cbn [entries].
    rewrite <- (Permutation_length (proj2 (sort_ascending (entries h ++ [e])))),
      length_app. simpl. lia.
  - assert (Hp : ascending (previousEntries periodStart h')).
    { unfold previousEntries, ascending.
      apply StronglySorted_Sorted, filter_strongly_sorted, Sorted_StronglySorted;
        [intros x y z; lia|exact Ha]. }
    pose proof (lastOrNull_latest Hp) as Hlast.
    destruct (lastOrNull (previousEntries periodStart h')) as [p|].
    + destruct Hlast as [Hpin Hmax]. simpl.
      unfold previousEntries in Hpin. apply filter_In in Hpin.
      destruct Hpin as [Hpin Hpt]. apply Z.ltb_lt in Hpt.
      split; [reflexivity|]. split; [reflexivity|].
      split; [now apply Hin|]. split; [exact Hpt|].
      intros x Hx Hxt. apply Hmax. unfold previousEntries. apply filter_In.
      split; [now apply Hin|now apply Z.ltb_lt].
    + simpl. split; [reflexivity|]. split; [reflexivity|].
      intros x Hx. apply Hin in Hx.
      destruct (Z.lt_ge_cases (timestamp x) periodStart) as [Hlt|Hge]; [|exact Hge].
      exfalso. assert (Hf : In x (previousEntries periodStart h')).
      { unfold previousEntries. apply filter_In. split; [exact Hx|now apply Z.ltb_lt]. }
      rewrite Hlast in Hf. destruct Hf.
Qed.

(** X19. The change indicator reverses when the two scores are
    exchanged: up one way is down the other way.  It is level, both
    ways, exactly when the scores differ by less than 0.05, and it is
    empty only when there is no previous score. *)
Theorem getChangeIndicator_reverses (a b : Q) :
  (getChangeIndicator a (Some b) = Up <-> getChangeIndicator b (Some a) = Down)
  /\ (getChangeIndicator a (Some b) = Level <-> Qabs (a - b) < 5 # 100)
  /\ (getChangeIndicator a (Some b) = Level <-> getChangeIndicator b (Some a) = Level)
  /\ getChangeIndicator a (Some b) <> NoArrow.
Proof.
  unfold getChangeIndicator.
  assert (Hab : Qabs (b - a) == Qabs (a - b)).
  { rewrite <- Qabs_opp. apply Qabs_wd. unfold Qeq. simpl. lia. }
  destruct (CoherenceCheck.lessThan (Qabs (a - b)) (5 # 100)) eqn:E1;
    destruct (CoherenceCheck.lessThan (Qabs (b - a)) (5 # 100)) eqn:E2;
    destruct (CoherenceCheck.lessThan 0 (a - b)) eqn:E3;
    destruct (CoherenceCheck.lessThan 0 (b - a)) eqn:E4;
    bands; rewrite ?Hab in *;
    try (exfalso; Lqa.lra);
    try (exfalso; apply Qabs_Qlt_condition in E1; Lqa.lra);
    try (exfalso; assert (Hz : a - b == 0) by Lqa.lra;
         rewrite Hz in E1; apply (Qle_not_lt _ _ E1); reflexivity);
    (split; [split; (reflexivity || discriminate)|]);
    (split; [split; first [reflexivity | discriminate | intros _; assumption
                          | intros H; exfalso; Lqa.lra]|]);
    (split; [split; (reflexivity || discriminate)|discriminate]).
Qed.

End PeriodReport.

(* ===================================================================== *)
(** * Splitting a text at a character *)
(* ===================================================================== *)

Section SplitText.

Local Open Scope nat_scope.

Variable c : ascii.

Local Abbreviation sep := (String c EmptyString).

Lemma text_app (l1 l2 : list ascii) : text (l1 ++ l2) = text l1 ++ text l2.
Proof. induction l1 as [|x l1 IH]; simpl; [reflexivity|]. now rewrite <- IH. Qed.

Lemma chars_app (s1 s2 : string) : chars (s1 ++ s2) = (chars s1 ++ chars s2)%list.
Proof. induction s1 as [|x s1 IH]; simpl; [reflexivity|]. now rewrite <- IH. Qed.

Lemma chars_text (l : list ascii) : chars (text l) = l.
Proof. apply list_ascii_of_string_of_list_ascii. Qed.

Lemma text_chars (s : string) : text (chars s) = s.
Proof. apply string_of_list_ascii_of_string. Qed.

Lemma matchHere_char (b : option ascii) (x : ascii) (rest : list ascii) (i : nat) :
  matchHere (lit sep) (Cursor b (x :: rest) i)
  = if Ascii.eqb x c then Some (S i) else None.
Proof. reflexivity. Qed.

Lemma pieces_step (b : option ascii) (x : ascii) (rest : list ascii) (i : nat)
  (piece : list ascii) :
  pieces (lit sep) b (x :: rest) i 0 piece
  = if Ascii.eqb x c
    then text (rev piece) :: pieces (lit sep) (Some x) rest (S i) 0 []
    else pieces (lit sep) (Some x) rest (S i) 0 (x :: piece).
Proof.
  cbn [pieces]. rewrite matchHere_char.
  destruct (Ascii.eqb x c); [|reflexivity].
  assert (E : (i <? S i) = true) by (apply Nat.ltb_lt; lia).
  rewrite E. now replace (S i - i - 1) with 0 by lia.
Qed.

(** Joining the pieces with the separator gives the text back. *)
Lemma pieces_join (rest : list ascii) :
  forall b i piece,
    join sep (pieces (lit sep) b rest i 0 piece) = text (rev piece ++ rest).
Proof.
  induction rest as [|x rest IH]; intros b i piece.
  - now rewrite app_nil_r.
  - rewrite pieces_step. destruct (Ascii.eqb x c) eqn:E.
    + apply Ascii.eqb_eq in E. subst x.
      pose proof (pieces_nonempty (lit sep) rest (Some c) (S i) 0 []) as Hn.
      cbn [join].
      destruct (pieces (lit sep) (Some c) rest (S i) 0 []) as [|p ps] eqn:Ep;
        [simpl in Hn; lia|].
      rewrite <- Ep, IH, text_app. now rewrite text_app.
    + rewrite IH. cbn [rev]. now rewrite <- app_assoc.
Qed.

(** No piece holds the separator. *)
Lemma pieces_free (rest : list ascii) :
  forall b i piece,
    ~ In c piece ->
    Forall (fun p => ~ In c (chars p)) (pieces (lit sep) b rest i 0 piece).
Proof.
  induction rest as [|x rest IH]; intros b i piece Hp.
  - constructor; [|constructor]. rewrite chars_text. now rewrite <- in_rev.
  - rewrite pieces_step. destruct (Ascii.eqb x c) eqn:E.
    + constructor; [rewrite chars_text; now rewrite <- in_rev|].
      apply IH. intros [].
    + apply IH. intros [H | H]; [|contradiction].
      apply Ascii.eqb_neq in E. congruence.
Qed.

(** A text without the separator is one piece. *)
Lemma pieces_whole (rest : list ascii) :
  forall b i piece,
    ~ In c rest ->
    pieces (lit sep) b rest i 0 piece = [text (rev piece ++ rest)].
Proof.
  induction rest as [|x rest IH]; intros b i piece Hr; [now rewrite app_nil_r|].
  rewrite pieces_step.
  assert (E : Ascii.eqb x c = false).
  { apply Ascii.eqb_neq. intros ->. apply Hr. now left. }
  rewrite E, IH; [|intros H; apply Hr; now right].
  cbn [rev]. now rewrite <- app_assoc.
Qed.

(** The last piece is what follows the last separator. *)
Lemma pieces_last (pre ext : list ascii) :
  forall b i piece,
    ~ In c ext ->
    last (pieces (lit sep) b (pre ++ c :: ext) i 0 piece) "" = text ext.
Proof.
  induction pre as [|x pre IH]; intros b i piece He.
  - simpl app. rewrite pieces_step, Ascii.eqb_refl, pieces_whole by exact He.
    reflexivity.
  - simpl app. rewrite pieces_step. destruct (Ascii.eqb x c).
    + pose proof (pieces_nonempty (lit sep) (pre ++ c :: ext) (Some x) (S i) 0 []) as Hn.
      destruct (pieces (lit sep) (Some x) (pre ++ c :: ext) (S i) 0 []) as [|p ps] eqn:Ep;
        [simpl in Hn; lia|].
      change (last (text (rev piece) :: p :: ps) "") with (last (p :: ps) "").
      rewrite <- Ep. now apply IH.
    + now apply IH.
Qed.

(** A text that holds the separator has two pieces at least. *)
Lemma pieces_two (pre post : list ascii) :
  forall b i piece,
    exists first second others,
      pieces (lit sep) b (pre ++ c :: post) i 0 piece = first :: second :: others.
Proof.
  assert (Hne : forall b rest i piece, exists p ps,
               pieces (lit sep) b rest i 0 piece = p :: ps).
  { intros b rest i piece.
    pose proof (pieces_nonempty (lit sep) rest b i 0 piece) as Hn.
    destruct (pieces (lit sep) b rest i 0 piece) as [|p ps]; [simpl in Hn; lia|].
    now exists p, ps. }
  induction pre as [|x pre IH]; intros b i piece; simpl app; rewrite pieces_step.
  - rewrite Ascii.eqb_refl.
    destruct (Hne (Some c) post (S i) []) as (p & ps & ->). now eexists _, _, _.
  - destruct (Ascii.eqb x c); [|apply IH].
    destruct (Hne (Some x) (pre ++ c :: post)%list (S i) []) as (p & ps & ->).
    now eexists _, _, _.
Qed.

(** [s.split(c).join(c)] is [s], and no piece holds [c]. *)
Lemma splitOn_join (s : string) :
  join sep (splitOn sep s) = s
  /\ Forall (fun p => ~ In c (chars p)) (splitOn sep s).
Proof.
  unfold splitOn, split. split.
  - rewrite pieces_join. simpl. apply text_chars.
  - apply pieces_free. intros [].
Qed.

(** A literal pattern matches its own characters only. *)
Lemma matchAt_lit (t : string) :
  forall b rest i k e,
    matchAt (lit t) (Cursor b rest i) k = Some e ->
    exists rest', rest = (chars t ++ rest')%list.
Proof.
  induction t as [|x t IH]; intros b rest i k e H.
  - now exists rest.
  - cbn [lit matchAt ahead index] in H.
    destruct rest as [|y rest]; [discriminate|].
    unfold isChar in H. destruct (Ascii.eqb y x) eqn:E; [|discriminate].
    apply Ascii.eqb_eq in E. subst y.
    apply IH in H. destruct H as [rest' ->]. now exists rest'.
Qed.

Lemma searchFrom_lit (t : string) (from : nat) (rest : list ascii) :
  forall b i m,
    searchFrom (lit t) from b rest i = Some m ->
    exists pre post, rest = (pre ++ chars t ++ post)%list.
Proof.
  induction rest as [|x rest IH]; intros b i m H; cbn [searchFrom] in H.
  - destruct (from <=? i); [|discriminate].
    unfold matchHere in H.
    destruct (matchAt (lit t) (Cursor b [] i) (fun c' => Some (index c'))) eqn:E;
      [|discriminate].
    apply matchAt_lit in E. destruct E as [post E]. now exists [], post.
  - destruct (if from <=? i
              then match matchHere (lit t) (Cursor b (x :: rest) i) with
                   | Some e => Some (i, e)
                   | None => None
                   end
              else None) eqn:Eh.
    + destruct (from <=? i); [|discriminate].
      unfold matchHere in Eh.
      destruct (matchAt (lit t) (Cursor b (x :: rest) i) (fun c' => Some (index c')))
        eqn:E; [|discriminate].
      apply matchAt_lit in E. destruct E as [post E]. now exists [], post.
    + apply IH in H. destruct H as (pre & post & ->). now exists (x :: pre), post.
Qed.

(** A string that includes another holds all its characters. *)
Lemma includes_chars (s t : string) (x : ascii) :
  includes s t = true -> In x (chars t) -> In x (chars s).
Proof.
  unfold includes, test, search. intros H Hx.
  destruct (searchFrom (lit t) 0 None (chars s) 0) as [m|] eqn:E; [|discriminate].
  apply searchFrom_lit in E. destruct E as (pre & post & ->).
  apply in_or_app. right. apply in_or_app. now left.
Qed.

End SplitText.

Section FileTypes.

Import AttributionMap.
Local Open Scope nat_scope.

Lemma toLower_idem (x : ascii) : toLower (toLower x) = toLower x.
Proof.
  destruct x as [[] [] [] [] [] [] [] []]; reflexivity.
Qed.

Lemma toLower_dot (x : ascii) : toLower x = "."%char -> x = "."%char.
Proof.
  destruct x as [[] [] [] [] [] [] [] []]; vm_compute; intros H;
    (reflexivity || discriminate).
Qed.

Lemma toLowerCase_idem (s : string) : toLowerCase (toLowerCase s) = toLowerCase s.
Proof.
  unfold toLowerCase. rewrite chars_text, map_map. f_equal.
  apply map_ext. intros x. apply toLower_idem.
Qed.

Lemma toLowerCase_dot (s : string) :
  ~ In "."%char (chars s) -> ~ In "."%char (chars (toLowerCase s)).
Proof.
  unfold toLowerCase. rewrite chars_text. intros H Hin.
  apply in_map_iff in Hin. destruct Hin as (x & E & Hx).
  apply toLower_dot in E. subst x. contradiction.
Qed.

Lemma extension_plain (ext : string) :
  ~ In "."%char (chars ext) -> extension ext = toLowerCase ext.
Proof.
  intros H. unfold extension, splitOn, split.
  rewrite (@pieces_whole "."%char (chars ext) None 0 [] H). simpl.
  now rewrite text_chars.
Qed.

Lemma getFileType_extension (p q : string) :
  extension p = extension q -> getFileType p = getFileType q.
Proof. unfold getFileType. now intros ->. Qed.

(** X20. The type of a file is decided by what follows the last dot of
    its path alone, whatever its case.  A name without a dot counts as
    its own extension, so a file called [py] is Python. *)
Theorem getFileType_last_dot (dir ext : string) :
  ~ In "."%char (chars ext) ->
  extension (dir ++ "." ++ ext) = toLowerCase ext
  /\ getFileType (dir ++ "." ++ ext) = getFileType ext
  /\ getFileType (toLowerCase ext) = getFileType ext.
Proof.
  intros H.
  assert (E1 : extension (dir ++ "." ++ ext) = toLowerCase ext).
  { unfold extension, splitOn, split. rewrite chars_app. simpl chars.
    change (list_ascii_of_string ext) with (chars ext).
    rewrite (@pieces_last "."%char (chars dir) (chars ext) None 0 [] H).
    now rewrite text_chars. }
  split; [exact E1|]. split.
  - apply getFileType_extension. now rewrite E1, extension_plain.
  - apply getFileType_extension.
    rewrite (@extension_plain ext H), extension_plain by now apply toLowerCase_dot.
    apply toLowerCase_idem.
Qed.

Lemma getFileType_last_dot_witness :
  getFileType "content/draft.v2.MD" = getFileType "MD"
  /\ getFileType "py" = "python".
Proof.
  split; [|reflexivity].
  apply (@getFileType_last_dot "content/draft.v2" "MD").
  simpl. intros [H | [H | []]]; discriminate.
Defined.

End FileTypes.

Section LineNumbers.

Import ResidueAnalysis.
Local Open Scope nat_scope.

Lemma findLine_first (substring : string) (lines : list string) :
  forall i,
    match findLine lines substring i with
    | Some n =>
        i + 1 <= n <= i + List.length lines
        /\ includes (nth (n - 1 - i) lines "") substring = true
        /\ (forall m, m < n - 1 - i -> includes (nth m lines "") substring = false)
    | None => forall line, In line lines -> includes line substring = false
    end.
Proof.
  induction lines as [|line lines IH]; intros i; cbn [findLine].
  - intros line [].
  - destruct (includes line substring) eqn:E.
    + split; [simpl; lia|].
      replace (i + 1 - 1 - i) with 0 by lia. split; [exact E|]. intros m Hm. lia.
    + specialize (IH (S i)).
      destruct (findLine lines substring (S i)) as [n|].
      * destruct IH as (Hn & Hat & Hbefore).
        replace (n - 1 - i) with (S (n - 1 - S i)) by lia.
        split; [simpl; lia|]. split; [exact Hat|].
        intros [|m] Hm; [exact E|]. apply Hbefore. lia.
      * intros l [<- | Hl]; [exact E|now apply IH].
Qed.

Lemma findLine_none (substring : string) (lines : list string) :
  (forall line, In line lines -> includes line substring = false) ->
  forall i, findLine lines substring i = None.
Proof.
  induction lines as [|line lines IH]; intros H i; cbn [findLine]; [reflexivity|].
  rewrite (H line (or_introl eq_refl)). apply IH. intros l Hl. apply H. now right.
Qed.

(** X21. [getApproximateLineNumber] returns the number, counted from 1,
    of the first line that includes the text, and null exactly when no
    line does.  A text that holds a line break is in no line, so its
    line number is always null. *)
Theorem getApproximateLineNumber_first (content substring : string) :
  let lines := splitOn (String CoherenceCheck.newline EmptyString) content in
  match getApproximateLineNumber content substring with
  | Some n =>
      1 <= n <= List.length lines
      /\ includes (nth (n - 1) lines "") substring = true
      /\ (forall m, m < n - 1 -> includes (nth m lines "") substring = false)
  | None => forall line, In line lines -> includes line substring = false
  end
  /\ (In CoherenceCheck.newline (chars substring) ->
      getApproximateLineNumber content substring = None).
Proof.
  intros lines. unfold getApproximateLineNumber. fold lines. split.
  - pose proof (findLine_first substring lines 0) as H.
    destruct (findLine lines substring 0) as [n|]; [|exact H].
    now rewrite Nat.sub_0_r in H.
  - intros Hnl. apply findLine_none. intros line Hline.
    destruct (includes line substring) eqn:E; [|reflexivity].
    exfalso.
    destruct (splitOn_join CoherenceCheck.newline content) as [_ Hfree].
    rewrite Forall_forall in Hfree. apply (Hfree line Hline).
    exact (includes_chars _ _ _ E Hnl).
Qed.

End LineNumbers.

(* ===================================================================== *)
(** * The overlap of two topic lists *)
(* ===================================================================== *)

Section TopicOverlap.

Import CoherenceCheck.
Local Open Scope Q_scope.

Lemma existsb_eqb_In (x : string) (l : list string) :
  existsb (String.eqb x) l = true <-> In x l.
Proof.
  rewrite existsb_exists. split.
  - intros (y & Hy & E). apply String.eqb_eq in E. now subst.
  - intros H. exists x. split; [exact H|apply String.eqb_refl].
Qed.

Lemma unique_from (xs : list string) :
  forall seen,
    NoDup seen ->
    let r := fold_left (fun seen x => if existsb (String.eqb x) seen then seen
                                      else (seen ++ [x])%list) xs seen in
    NoDup r /\ forall x, In x r <-> In x seen \/ In x xs.
Proof.
  induction xs as [|y xs IH]; intros seen Hs; simpl.
  - split; [exact Hs|]. intros x. tauto.
  - destruct (existsb (String.eqb y) seen) eqn:E.
    + destruct (IH seen Hs) as [Hn Hi]. split; [exact Hn|].
      intros x. rewrite Hi. apply existsb_eqb_In in E.
      split; [tauto|]. intros [H | [<- | H]]; tauto.
    + assert (Hy : ~ In y seen).
      { intros H. apply existsb_eqb_In in H. congruence. }
      destruct (IH (seen ++ [y])%list) as [Hn Hi].
      { apply NoDup_snoc; assumption. }
      split; [exact Hn|]. intros x. rewrite Hi, in_app_iff. simpl. tauto.
Qed.

(** [new Set(xs)] holds every element of [xs] once. *)
Lemma unique_set (xs : list string) :
  NoDup (unique xs) /\ forall x, In x (unique xs) <-> In x xs.
Proof.
  destruct (@unique_from xs [] (NoDup_nil _)) as [Hn Hi].
  split; [exact Hn|]. intros x. rewrite (Hi x). simpl. tauto.
Qed.

Lemma common_In (topics1 topics2 : list string) (x : string) :
  In x (filter (fun topic => existsb (String.eqb topic) topics2) topics1)
  <-> In x topics1 /\ In x topics2.
Proof. rewrite filter_In, existsb_eqb_In. tauto. Qed.

(** X22. For two lists that are not both empty, the first without a
    repeated topic, [calculateTopicOverlap] lies between 0 and 1 and is
    0 exactly when the lists share no topic.  When the second list has
    no repeated topic either, the overlap does not depend on the order
    of the two lists.  A topic repeated in the first list is counted as
    often as it is repeated, so the result can exceed 1. *)
Theorem calculateTopicOverlap_jaccard (topics1 topics2 : list string) :
  (topics1 ++ topics2)%list <> [] ->
  NoDup topics1 ->
  0 <= calculateTopicOverlap topics1 topics2 <= 1
  /\ (calculateTopicOverlap topics1 topics2 == 0
      <-> forall t, In t topics1 -> ~ In t topics2)
  /\ (NoDup topics2 ->
      calculateTopicOverlap topics1 topics2 == calculateTopicOverlap topics2 topics1)
  /\ calculateTopicOverlap ["drift"; "drift"] ["drift"] == 2.
Proof.
  intros Hne H1. unfold calculateTopicOverlap.
  set (common := filter (fun topic => existsb (String.eqb topic) topics2) topics1).
  set (union := unique (topics1 ++ topics2)).
  destruct (unique_set (topics1 ++ topics2)) as [Hun Hui]. fold union in Hun, Hui.
  assert (Hc : NoDup common) by (unfold common; now apply NoDup_filter).
  assert (Hle : (List.length common <= List.length union)%nat).
  { apply NoDup_incl_length; [exact Hc|]. intros x Hx.
    apply common_In in Hx. apply Hui, in_or_app. tauto. }
  assert (Hpos : (0 < List.length union)%nat).
  { destruct (topics1 ++ topics2)%list as [|x l] eqn:E; [contradiction|].
    assert (Hx : In x union) by (apply Hui; now left).
    destruct union; [destruct Hx|simpl; lia]. }
  pose proof (num_pos Hpos) as Hp.
  split; [|split; [|split]].
  - split.
    + apply Qle_shift_div_l; [exact Hp|]. rewrite Qmult_0_l. apply num_nonneg.
    + apply Qle_shift_div_r; [exact Hp|]. rewrite Qmult_1_l. now apply num_le.
  - split.
    + intros Hz t Ht1 Ht2.
      assert (Hin : In t common) by (apply common_In; tauto).
      assert (Hcp : 0 < num (List.length common)).
      { apply num_pos. destruct common; [destruct Hin|simpl; lia]. }
      assert (Hq : 0 < num (List.length common) / num (List.length union)).
      { apply Qlt_shift_div_l; [exact Hp|]. now rewrite Qmult_0_l. }
      rewrite Hz in Hq. now apply Qlt_irrefl in Hq.
    + intros Hd.
      assert (E : common = []).
      { destruct common as [|t l] eqn:Ec; [reflexivity|].
        assert (Hin : In t common) by (rewrite Ec; now left).
        apply common_In in Hin. exfalso. now apply (Hd t). }
      rewrite E. simpl. unfold Qdiv. now rewrite Qmult_0_l.
  - intros H2.
    assert (Ec : List.length common
                 = List.length (filter (fun topic => existsb (String.eqb topic) topics1)
                                       topics2)).
    { apply Permutation_length, NoDup_Permutation;
        [exact Hc|now apply NoDup_filter|].
      intros x. unfold common. rewrite !common_In. tauto. }
    assert (Eu : List.length union = List.length (unique (topics2 ++ topics1))).
    { destruct (unique_set (topics2 ++ topics1)) as [Hun' Hui'].
      apply Permutation_length, NoDup_Permutation; [exact Hun|exact Hun'|].
      intros x. rewrite Hui, Hui', !in_app_iff. tauto. }
    rewrite Ec, Eu. reflexivity.
  - reflexivity.
Qed.

Lemma calculateTopicOverlap_jaccard_witness :
  calculateTopicOverlap ["drift"; "scope"] ["scope"; "signal"] == 1 # 3
  /\ 0 <= calculateTopicOverlap ["drift"; "scope"] ["scope"; "signal"] <= 1.
Proof.
  split; [reflexivity|].
  apply (@calculateTopicOverlap_jaccard ["drift"; "scope"] ["scope"; "signal"]).
  - discriminate.
  - repeat constructor; simpl; intros H;
      repeat (destruct H as [H | H]; try discriminate); exact H.
Defined.

End TopicOverlap.

(* ===================================================================== *)
(** * Reading the git log *)
(* ===================================================================== *)

Section GitLog.

Import AttributionMap.
Local Open Scope nat_scope.

(** The matcher that reads groups is the matcher of the other patterns. *)
Lemma manyWith_many (p : ascii -> bool) (k k' : cursor -> option nat)
    (rest : list ascii) :
  (forall c, k c = k' c) ->
  forall b i, manyWith p k b rest i = many p k' b rest i.
Proof.
  intros Hk. induction rest as [|x rest IH]; intros b i; simpl; [apply Hk|].
  now rewrite IH, Hk.
Qed.

Lemma matchWith_matchAt (r : regex) :
  forall c (k k' : cursor -> option nat),
    (forall c', k c' = k' c') -> matchWith r c k = matchAt r c k'.
Proof.
  induction r as [| p | r1 IH1 r2 IH2 | r1 IH1 r2 IH2 | r1 IH1 | p |];
    intros c k k' Hk; simpl.
  - apply Hk.
  - destruct (ahead c) as [|x rest]; [reflexivity|]. now rewrite Hk.
  - apply IH1. intros c'. now apply IH2.
  - now rewrite (IH1 c k k' Hk), (IH2 c k k' Hk).
  - now rewrite (IH1 c k k' Hk), Hk.
  - now apply manyWith_many.
  - now rewrite Hk.
Qed.

Lemma manyWith_inv {R : Type} (p : ascii -> bool) (k : cursor -> option R)
    (rest : list ascii) :
  forall b i r,
    manyWith p k b rest i = Some r ->
    exists c', k c' = Some r /\ i <= index c'.
Proof.
  induction rest as [|x rest IH]; intros b i r H; simpl in H.
  - eexists. split; [exact H|]. simpl. lia.
  - destruct (p x).
    + destruct (manyWith p k (Some x) rest (S i)) as [e|] eqn:E.
      * injection H as <-. apply IH in E. destruct E as (c' & Hc & Hi).
        exists c'. split; [exact Hc|lia].
      * eexists. split; [exact H|]. simpl. lia.
    + eexists. split; [exact H|]. simpl. lia.
Qed.

(** A match of [[class]+] starts at a character of the class and ends
    further on. *)
Lemma many1With_inv {R : Type} (p : ascii -> bool) (c : cursor)
    (k : cursor -> option R) (r : R) :
  matchWith (Many1 p) c k = Some r ->
  exists x rest c',
    ahead c = x :: rest /\ p x = true /\ k c' = Some r /\ index c < index c'.
Proof.
  unfold Many1. cbn [matchWith]. intros H.
  destruct (ahead c) as [|x rest]; [discriminate|].
  destruct (p x) eqn:E; [|discriminate].
  cbn [before ahead index] in H. apply manyWith_inv in H.
  destruct H as (c' & Hc & Hi). exists x, rest, c'.
  split; [reflexivity|]. split; [exact E|]. split; [exact Hc|lia].
Qed.

Lemma digit_plain (d : ascii) :
  isDigit d = true ->
  isSpace d = false /\ Ascii.eqb d "-" = false /\ Ascii.eqb d "+" = false.
Proof.
  destruct d as [[] [] [] [] [] [] [] []]; vm_compute; intros H;
    (discriminate || (repeat split; reflexivity)).
Qed.

Lemma digitsValue_nonneg (digits : list ascii) :
  forall v, (0 <= v)%Z ->
    (0 <= fold_left (fun v d => (v * 10 + Z.of_nat (code d - 48))%Z) digits v)%Z.
Proof.
  induction digits as [|d digits IH]; intros v Hv; simpl; [exact Hv|].
  apply IH. lia.
Qed.

(** [parseInt] reads a number that is not negative off a string that
    starts with a digit. *)
Lemma parseInt_digit (d : ascii) (rest : list ascii) :
  isDigit d = true ->
  exists z, parseInt (text (d :: rest)) = Some z /\ (0 <= z)%Z.
Proof.
  intros Hd. destruct (digit_plain d Hd) as (Hs & Hm & Hp).
  unfold parseInt. rewrite chars_text. cbn [dropWhile]. rewrite Hs, Hm, Hp.
  cbn [snd fst takeWhile]. rewrite Hd.
  eexists. split; [reflexivity|].
  unfold digitsValue. apply digitsValue_nonneg. lia.
Qed.

Lemma captured_starts (from to : cursor) (x : ascii) (rest : list ascii) :
  ahead from = x :: rest -> index from < index to ->
  exists l, captured from to = text (x :: l).
Proof.
  intros Ha Hi. unfold captured. rewrite Ha.
  destruct (index to - index from) as [|n] eqn:E; [lia|].
  now exists (firstn n rest).
Qed.

Lemma statLine_parts (line : string) (f : logFile) :
  statLine line = Some f ->
  (exists d rest, chars line = d :: rest /\ isDigit d = true)
  /\ countedFile f.
Proof.
  unfold statLine. intros H.
  apply many1With_inv in H. destruct H as (x1 & r1 & c1 & A1 & D1 & H & I1).
  apply many1With_inv in H. destruct H as (x2 & r2 & c2 & A2 & _ & H & I2).
  apply many1With_inv in H. destruct H as (x3 & r3 & c3 & A3 & D3 & H & I3).
  apply many1With_inv in H. destruct H as (x4 & r4 & c4 & A4 & _ & H & I4).
  apply many1With_inv in H. destruct H as (x5 & r5 & c5 & A5 & _ & H & I5).
  destruct (ahead c5); [|discriminate]. injection H as <-.
  cbn [ahead] in A1. split; [now exists x1, r1|].
  unfold countedFile. cbn [log_additions log_deletions log_path].
  split; [|split].
  - destruct (@captured_starts (Cursor None (chars line) 0) c1 x1 r1 A1 I1) as [l ->].
    now apply parseInt_digit.
  - destruct (@captured_starts c2 c3 x3 r3 A3 I3) as [l ->].
    now apply parseInt_digit.
  - destruct (@captured_starts c4 c5 x5 r5 A5 I5) as [l ->]. discriminate.
Qed.

(** X23. A line counts as a file of a commit only when it starts with a
    digit: the line git prints for a binary file, which has dashes for
    the two counts, is never one.  The two counts of a file are numbers
    that are not negative, never NaN, and its path is not empty. *)
Theorem statLine_shape (line : string) (f : logFile) :
  statLine line = Some f ->
  (exists d rest, chars line = d :: rest /\ isDigit d = true)
  /\ countedFile f
  /\ (forall rest, statLine (String "-" rest) = None).
Proof.
  intros H. destruct (@statLine_parts line f H) as [Hd Hc].
  split; [exact Hd|]. split; [exact Hc|]. reflexivity.
Qed.

Lemma statLine_shape_witness :
  (exists f, statLine "12 3 content/index.md" = Some f /\ countedFile f)
  /\ statLine "- - assets/logo.png" = None.
Proof.
  split; [|reflexivity].
  eexists. split; [reflexivity|].
  apply (@statLine_shape "12 3 content/index.md"). reflexivity.
Defined.

Lemma headerLine_wellRead (line : string) :
  isHeader line = true -> wellRead (headerLine line).
Proof.
  unfold isHeader. intros H.
  assert (Hin : In "|"%char (chars line)).
  { apply (@includes_chars line "|" "|"%char H). now left. }
  apply in_split in Hin. destruct Hin as (pre & post & E).
  destruct (splitOn_join "|"%char line) as [_ Hfree].
  unfold wellRead, headerLine. cbn [log_hash log_author log_files].
  unfold splitOn, split in *. rewrite E in *.
  destruct (@pieces_two "|"%char pre post None 0 []) as (h & a & others & Ep).
  rewrite Ep in *. inversion Hfree as [|? ? Hh Hrest]; subst.
  inversion Hrest as [|? ? Ha _]; subst.
  split; [now exists h|]. split; [now exists a|]. constructor.
Qed.

Lemma fileCount_snoc (commits : list logCommit) (c : logCommit) :
  fileCount (commits ++ [c]) = fileCount commits + List.length (log_files c).
Proof.
  unfold fileCount. rewrite map_app, list_sum_app. simpl. lia.
Qed.

Lemma filter_snoc {A : Type} (f : A -> bool) (l : list A) (x : A) :
  filter f (l ++ [x]) = (filter f l ++ (if f x then [x] else []))%list.
Proof. rewrite filter_app. simpl. now destruct (f x). Qed.

(** One turn of the loop keeps what has been read in step with the
    lines seen. *)
Lemma parseLine_step (state : list logCommit * option logCommit)
    (seen : list string) (line : string) :
  map withoutFiles (readSoFar state) = map headerLine (filter isHeader seen) ->
  Forall wellRead (readSoFar state) ->
  fileCount (readSoFar state) <= List.length (filter isStat seen) ->
  map withoutFiles (readSoFar (parseLine state line))
  = map headerLine (filter isHeader (seen ++ [line]))
  /\ Forall wellRead (readSoFar (parseLine state line))
  /\ fileCount (readSoFar (parseLine state line))
     <= List.length (filter isStat (seen ++ [line])).
Proof.
  destruct state as [commits current]. intros Hh Hw Hf.
  rewrite !filter_snoc, !length_app, map_app.
  unfold parseLine, isStat at 2. fold (isHeader line).
  destruct (isHeader line) eqn:Eh.
  - unfold readSoFar in *. cbn [fst snd pushCurrent negb andb] in *.
    rewrite map_app, Hh. cbn [map List.length].
    split; [reflexivity|]. split.
    + apply Forall_app. split; [exact Hw|].
      constructor; [now apply headerLine_wellRead|constructor].
    + rewrite fileCount_snoc. simpl. lia.
  - cbn [negb andb map]. rewrite app_nil_r.
    destruct (CoherenceCheck.nonBlank line); [|split; [exact Hh|split; [exact Hw|lia]]].
    destruct current as [c|]; [|split; [exact Hh|split; [exact Hw|lia]]].
    destruct (statLine line) as [f|] eqn:Es;
      [|split; [exact Hh|split; [exact Hw|simpl; lia]]].
    unfold readSoFar in *. cbn [fst snd pushCurrent] in *.
    rewrite map_app in *. rewrite fileCount_snoc in *.
    apply Forall_app in Hw. destruct Hw as [Hw Hc].
    inversion Hc as [|? ? (Hhash & Hauthor & Hfiles) _]; subst.
    split; [exact Hh|]. split.
    + apply Forall_app. split; [exact Hw|]. constructor; [|constructor].
      split; [exact Hhash|]. split; [exact Hauthor|].
      cbn [pushFile log_files]. apply Forall_app. split; [exact Hfiles|].
      constructor; [|constructor]. exact (proj2 (@statLine_parts line f Es)).
    + cbn [pushFile log_files]. rewrite length_app. simpl. lia.
Qed.

Lemma parseLine_fold (lines : list string) :
  forall state seen,
    map withoutFiles (readSoFar state) = map headerLine (filter isHeader seen) ->
    Forall wellRead (readSoFar state) ->
    fileCount (readSoFar state) <= List.length (filter isStat seen) ->
    map withoutFiles (readSoFar (fold_left parseLine lines state))
    = map headerLine (filter isHeader (seen ++ lines))
    /\ Forall wellRead (readSoFar (fold_left parseLine lines state))
    /\ fileCount (readSoFar (fold_left parseLine lines state))
       <= List.length (filter isStat (seen ++ lines)).
Proof.
  induction lines as [|line lines IH]; intros state seen Hh Hw Hf.
  - rewrite app_nil_r. now split.
  - cbn [fold_left].
    destruct (@parseLine_step state seen line Hh Hw Hf) as (Hh' & Hw' & Hf').
    replace (seen ++ line :: lines)%list with ((seen ++ [line]) ++ lines)%list
      by now rewrite <- app_assoc.
    now apply IH.
Qed.

(** X24. [parseGitLog] returns one commit for every line that holds a
    vertical bar, in order, with the fields of that line; every commit
    has a hash and an author, and every file of a commit has counts
    that are numbers.  The files are not more than the lines the file
    pattern matches: what comes before the first header is dropped, and
    a file whose path holds a vertical bar is read as a commit. *)
Theorem parseGitLog_commits (log : string) :
  let lines := splitOn (String CoherenceCheck.newline EmptyString) log in
  let commits := parseGitLog log in
  map withoutFiles commits = map headerLine (filter isHeader lines)
  /\ List.length commits = List.length (filter isHeader lines)
  /\ Forall wellRead commits
  /\ fileCount commits <= List.length (filter isStat lines).
Proof.
  intros lines commits.
  assert (E : commits = readSoFar (fold_left parseLine lines ([], None))).
  { unfold commits, parseGitLog. fold lines.
    now destruct (fold_left parseLine lines ([], None)). }
  destruct (@parseLine_fold lines ([], None) []) as (Hh & Hw & Hf);
    [reflexivity|exact (Forall_nil _)|exact (le_n 0)|].
  rewrite E. simpl app in *. split; [exact Hh|]. split; [|split; assumption].
  rewrite <- (length_map withoutFiles), Hh. apply length_map.
Qed.

End GitLog.

(* ===================================================================== *)
(** * A run of the report script *)
(* ===================================================================== *)

Section ReportScript.

Import CoherenceReport.

(** X25. Every run of the report script ends with exit code 1.  The
    period report is never awaited: when the coherence data is there,
    the history is saved with the new entry and the report file is
    written, but it holds an empty object, although the call would have
    given a report; reading the overall score off the promise then
    fails.  Without coherence data nothing is written. *)
Theorem generateCoherenceReport_fails (stored : option history)
  (coherenceData : option entry) (periodStart : Z)
  (activity : repoActivity) (residue : residueData) :
  let run := generateCoherenceReport stored coherenceData periodStart activity residue in
  exitCode run = 1%nat
  /\ match coherenceData with
     | Some e =>
         historyFile run = Some (addToCoherenceHistory (loadCoherenceHistory stored) e)
         /\ reportFile run = Some "{}"
         /\ exists r,
              generatePeriodReport periodStart
                (addToCoherenceHistory (loadCoherenceHistory stored) e) activity residue
              = Some r
     | None => historyFile run = None /\ reportFile run = None
     end.
Proof.
  intros run. unfold run, generateCoherenceReport.
  destruct coherenceData as [e|]; cbn [getCurrentCoherence]; [|now split].
  cbn [stringify member bind exitCode historyFile reportFile].
  split; [reflexivity|]. split; [reflexivity|]. split; [reflexivity|].
  destruct (report_returns (loadCoherenceHistory stored) e) as [c Hc].
  unfold generatePeriodReport. rewrite Hc. now eexists.
Qed.

End ReportScript.
